(** * MTG (Music Terrain Generator): the waveform height sampler

    A shallow embedding of [mtg/terrainWave.py] (class [TerrainWaveFile],
    Python 2) and of the tail of [music_displace] in
    [scripts/mtg/mtgMain.py], with the properties of the sampling
    operation [createheightvals]; then of the code around the sampler:
    the helpers of [scripts/mayaSnippet/mayaFuncs.py] that do not call
    the host, the reader of the progress queue in
    [scripts/mtg/mtgGUI.py], and [move_vtx_positions], the whole of
    [music_displace] and [tex_types] of [scripts/mtg/mtgMain.py].

    Conventions of the embedding.
    - Python [int]/[long] values are [Z]; [/] on two ints is Python 2
      floor division ([Z.div]); [~x] is [Z.lnot].
    - Python [float] is a type [F] with the operations the code uses
      (classes [PyFloat] and [PyFloatOrd]).  Two instances are given:
      exact rationals [Q] (no rounding: the "floating-point tolerance"
      of the specification is idealised away) and IEEE binary64
      ([PrimFloat.float]), the arithmetic of the code.  A theorem is
      stated for every [F], binary64 included, where the values the
      code computes in floating point decide and no tolerance is
      granted; it is stated on [Q] where it concludes on lengths, reads,
      messages and exceptions, where it gives the values as the
      expression the code evaluates, or where the specification grants
      the tolerance.  The examples run the same definitions in binary64.
    - The object is mutated in place and exceptions abort the call: the
      methods live in a state-and-exception monad [M] over a [world]
      made of the object and the trace of the effects performed
      ([Queue.put] on the progress queue, [readframes] on the stream).
    - [wave.Wave_read] and [struct.unpack] belong to the Python standard
      library; they are modelled from their documented behaviour on a
      little-endian host.
    - Maya, the operating system and the random generator are outside the
      code: the commands sent to Maya are recorded in a log, and the
      answers of the three are parameters of the definitions. *)

From Stdlib Require Import ZArith QArith Qround Qabs Lqa Lia List.
From Stdlib Require Import Strings.String Strings.Ascii Strings.Byte.
From Stdlib Require Import Floats.PrimFloat Floats.FloatOps Floats.SpecFloat.
From Stdlib Require Import Floats.FloatAxioms.
From Stdlib Require Import Numbers.Cyclic.Int63.Uint63.
From stdpp Require Import base list list_numbers gmap strings pretty.

Local Open Scope string_scope.
Local Open Scope list_scope.
Local Open Scope Z_scope.

(** ** Exceptions and results *)

Inductive exn : Type :=
| ZeroDivisionError (m : string)
| ValueError (m : string)
| IndexError (m : string)
| AttributeError (attr : string)
| struct_error (m : string).

Inductive result (A : Type) : Type :=
| Ok (a : A)
| Raise (e : exn).

Arguments Ok {A} a.
Arguments Raise {A} e.

(** ** The progress queue and the effect trace *)

(** What the code puts on the queue: a tuple [(label, total)], an int, or
    a string. *)
Inductive msg : Type :=
| MTuple (label : string) (total : Z)
| MInt (i : Z)
| MStr (s : string).

(** A [Queue.Queue] object is identified by its address: two references
    to the same queue are the same [loc]. *)
Definition loc : Type := nat.

Inductive event : Type :=
| EPut (q : loc) (m : msg)            (* q.put(m) *)
| EReadframes (soundpos n : Z).       (* self.readframes(n) at cursor soundpos *)

(** The messages a queue has received, in order. *)
Fixpoint queue_contents (q : loc) (tr : list event) : list msg :=
  match tr with
  | [] => []
  | EPut q' m :: tr' =>
      if Nat.eqb q q' then m :: queue_contents q tr' else queue_contents q tr'
  | EReadframes _ _ :: tr' => queue_contents q tr'
  end.

(** The [readframes] calls made, in order, as (cursor, frames asked). *)
Fixpoint reads (tr : list event) : list (Z * Z) :=
  match tr with
  | [] => []
  | EPut _ _ :: tr' => reads tr'
  | EReadframes p n :: tr' => (p, n) :: reads tr'
  end.

(** ** Python floats *)

Class PyFloat (F : Type) : Type := {
  float_of_int : Z -> F;          (* float(i) *)
  float_div : F -> F -> F;        (* x / y for y != 0 *)
  float_mul : F -> F -> F;        (* x * y *)
  float_trunc : F -> Z;           (* math.trunc(x), x finite *)
  float_is_zero : F -> bool       (* x == 0.0 *)
}.

(** Exact arithmetic. *)
Definition Qtrunc (q : Q) : Z := Z.quot (Qnum q) (Zpos (Qden q)).

#[export] Instance Q_float : PyFloat Q := {
  float_of_int := inject_Z;
  float_div := Qdiv;
  float_mul := Qmult;
  float_trunc := Qtrunc;
  float_is_zero q := Qnum q =? 0
}.

(** IEEE binary64, for ints below 2^63 in absolute value and finite
    floats (all that the sampler meets on a wave file). *)
Definition b64_of_int (z : Z) : float :=
  if z <? 0 then PrimFloat.opp (PrimFloat.of_uint63 (Uint63.of_Z (- z)))
  else PrimFloat.of_uint63 (Uint63.of_Z z).

Definition b64_trunc (x : float) : Z :=
  match Prim2SF x with
  | S754_finite s m e =>
      let v := if 0 <=? e then Zpos m * 2 ^ e else Z.quot (Zpos m) (2 ^ (- e)) in
      if s then - v else v
  | _ => 0
  end.

#[export] Instance b64_float : PyFloat float := {
  float_of_int := b64_of_int;
  float_div := PrimFloat.div;
  float_mul := PrimFloat.mul;
  float_trunc := b64_trunc;
  float_is_zero x := PrimFloat.eqb x PrimFloat.zero
}.

(** ** Builtins *)

(** [xrange(n)] *)
Definition xrange (n : Z) : list Z := seqZ 0 n.

(** [len(l)] *)
Definition len {A} (l : list A) : Z := Z.of_nat (length l).

(** [sum(l)] on ints *)
Definition py_sum (l : list Z) : Z := fold_left Z.add l 0.

(** [s * n] on a string: [n] copies of [s], none when [n <= 0]. *)
Fixpoint str_repeat (s : string) (n : nat) : string :=
  match n with
  | O => ""
  | S n' => s +:+ str_repeat s n'
  end.

Definition str_mul (s : string) (n : Z) : string := str_repeat s (Z.to_nat n).

(** One native [short] of [struct]: two bytes, little-endian, signed. *)
Definition byte_val (b : byte) : Z := Z.of_N (Byte.to_N b).

Definition short_of_bytes (lo hi : byte) : Z :=
  let u := byte_val lo + 256 * byte_val hi in
  if u <? 32768 then u else u - 65536.

(** [struct.unpack(fmt, data)] for the formats the class builds (['h']
    repeated): one signed short per ['h'], and [struct.error] when the
    length of [data] is not the size of the format.  [None] stands for
    that error. *)
Fixpoint unpack (fmt : string) (data : list byte) : option (list Z) :=
  match fmt with
  | EmptyString => match data with [] => Some [] | _ => None end
  | String c fmt' =>
      if Ascii.eqb c "h"%char then
        match data with
        | lo :: hi :: data' =>
            match unpack fmt' data' with
            | Some l => Some (short_of_bytes lo hi :: l)
            | None => None
            end
        | _ => None
        end
      else None
  end.

(** ** The object *)

(** [wave.Wave_read] after a successful open: the header fields, the
    bytes of the data chunk, the position in the chunk and the frame
    cursor. *)
Record Wave_read : Type := mkWave {
  _nchannels : Z;
  _sampwidth : Z;
  _framerate : Z;
  _nframes : Z;
  _data_chunk : list byte;
  chunk_pos : Z;
  _soundpos : Z
}.

Definition _framesize (w : Wave_read) : Z := _nchannels w * _sampwidth w.

(** The reader with its chunk position and frame cursor moved. *)
Definition seek (w : Wave_read) (pos soundpos : Z) : Wave_read :=
  mkWave (_nchannels w) (_sampwidth w) (_framerate w) (_nframes w)
    (_data_chunk w) pos soundpos.

Section Sampler.

Context {F : Type} {PF : PyFloat F}.

(** The attributes [TerrainWaveFile.__init__] adds to the reader, under
    the names the source gives them. *)
Record TerrainWaveFile : Type := mkTerrainWaveFile {
  wave : Wave_read;
  _samplesize : Z;
  _songlength : F;
  _unpackstructval : string;
  _maxamplidtude : Z;
  stop : bool;
  queue : option loc;
  vtxsample : Z
}.

Record world : Type := mkWorld {
  self : TerrainWaveFile;
  trace : list event
}.

(** [TerrainWaveFile.__init__(self, path, q)], once [wave.Wave_read.__init__]
    has opened [path] as [w].  The song length divides by the frame rate
    of the header. *)
Definition __init__ (w : Wave_read) (q : option loc) : result TerrainWaveFile :=
  let samplesize := _sampwidth w * 8 in
  if float_is_zero (float_of_int (_framerate w))
  then Raise (ZeroDivisionError "float division by zero")
  else Ok {| wave := w;
             _samplesize := samplesize;
             _songlength := float_div (float_of_int (_nframes w))
                                      (float_of_int (_framerate w));
             _unpackstructval := str_mul "h" ((_nchannels w * _sampwidth w) / 2);
             _maxamplidtude := 2 ^ samplesize / 2;
             stop := false;
             queue := q;
             vtxsample := 0 |}.

(** Attribute access by name.  [__dict__] lists the instance attributes
    that the two constructors set and this development models; the
    remaining ones of the reader ([_file], [_convert], [_comptype],
    [_compname], ...) and the methods of the two classes have other
    names than those looked up below. *)
Inductive pyval : Type :=
| VInt (i : Z)
| VFloat (x : F)
| VStr (s : string)
| VBool (b : bool)
| VBytes (d : list byte)
| VQueue (q : loc)
| VNone.

Definition __dict__ (o : TerrainWaveFile) : gmap string pyval :=
  list_to_map
    [ ("_nchannels", VInt (_nchannels (wave o)));
      ("_sampwidth", VInt (_sampwidth (wave o)));
      ("_framerate", VInt (_framerate (wave o)));
      ("_nframes", VInt (_nframes (wave o)));
      ("_framesize", VInt (_framesize (wave o)));
      ("_soundpos", VInt (_soundpos (wave o)));
      ("_samplesize", VInt (_samplesize o));
      ("_songlength", VFloat (_songlength o));
      ("_unpackstructval", VStr (_unpackstructval o));
      ("_maxamplidtude", VInt (_maxamplidtude o));
      ("stop", VBool (stop o));
      ("queue", match queue o with Some q => VQueue q | None => VNone end);
      ("vtxsample", VInt (vtxsample o)) ].

Definition getattr (o : TerrainWaveFile) (name : string) : result pyval :=
  match __dict__ o !! name with
  | Some v => Ok v
  | None => Raise (AttributeError name)
  end.

Definition getsamplesize (o : TerrainWaveFile) : result pyval :=
  getattr o "_samplesize".

Definition getsonglength (o : TerrainWaveFile) : result pyval :=
  getattr o "_songlength".

Definition getmaxamplitude (o : TerrainWaveFile) : result pyval :=
  getattr o "_maxamplitude".

(** State and exceptions: a raised exception keeps the mutations made
    before it. *)
Definition M (A : Type) : Type := world -> world * result A.

#[export] Instance M_ret : MRet M := fun A (a : A) (s : world) => (s, Ok a).

#[export] Instance M_bind : MBind M :=
  fun A B (f : A -> M B) (m : M A) (s : world) =>
    match m s with
    | (s', Ok a) => f a s'
    | (s', Raise e) => (s', Raise e)
    end.

Definition raise {A} (e : exn) : M A := fun s => (s, Raise e).

Definition get_self : M TerrainWaveFile := fun s => (s, Ok (self s)).

(** The world after the effects [evs]. *)
Definition log (s : world) (evs : list event) : world :=
  mkWorld (self s) (trace s ++ evs).

Definition emit (e : event) : M unit := fun s => (log s [e], Ok tt).

(** Assignment to [self.vtxsample], and to the cursor of the reader. *)
Definition with_vtxsample (o : TerrainWaveFile) (v : Z) : TerrainWaveFile :=
  mkTerrainWaveFile (wave o) (_samplesize o) (_songlength o)
    (_unpackstructval o) (_maxamplidtude o) (stop o) (queue o) v.

Definition with_wave (o : TerrainWaveFile) (w : Wave_read) : TerrainWaveFile :=
  mkTerrainWaveFile w (_samplesize o) (_songlength o)
    (_unpackstructval o) (_maxamplidtude o) (stop o) (queue o) (vtxsample o).

Definition set_vtxsample (v : Z) : M unit :=
  fun s => (mkWorld (with_vtxsample (self s) v) (trace s), Ok tt).

Definition set_wave (w : Wave_read) : M unit :=
  fun s => (mkWorld (with_wave (self s) w) (trace s), Ok tt).

(** [if self.queue: self.queue.put(m)]: [None] is false, a [Queue.Queue]
    object is true. *)
Definition queue_put (m : msg) : M unit :=
  o ← get_self;
  match queue o with
  | Some q => emit (EPut q m)
  | None => mret tt
  end.

(** [x / y] with a float operand *)
Definition py_float_div (x y : F) : M F :=
  if float_is_zero y then raise (ZeroDivisionError "float division by zero")
  else mret (float_div x y).

(** [l[i]] *)
Definition getitem {A} (l : list A) (i : Z) : M A :=
  let j := if i <? 0 then i + len l else i in
  if (j <? 0) || (len l <=? j) then raise (IndexError "list index out of range")
  else match l !! Z.to_nat j with
       | Some a => mret a
       | None => raise (IndexError "list index out of range")
       end.

(** [max(l)] on a list of ints *)
Definition py_max (l : list Z) : M Z :=
  match l with
  | [] => raise (ValueError "max() arg is an empty sequence")
  | x :: l' => mret (fold_left Z.max l' x)
  end.

(** *** [wave.Wave_read] *)

(** [rewind()]: the next read starts at frame 0. *)
Definition rewind : M unit :=
  o ← get_self;
  set_wave (seek (wave o) 0 0).

(** [readframes(n)]: nothing for [n = 0]; otherwise up to
    [n * _framesize] bytes from the chunk position (all that is left for
    a negative size), the cursor advancing by the whole frames read,
    [len(data) // (_nchannels * _sampwidth)]. *)
Definition readframes (n : Z) : M (list byte) :=
  o ← get_self;
  let w := wave o in
  emit (EReadframes (_soundpos w) n);;
  if n =? 0 then mret []
  else
    let size := n * _framesize w in
    let rest := drop (Z.to_nat (chunk_pos w)) (_data_chunk w) in
    let data := if size <? 0 then rest else take (Z.to_nat size) rest in
    if _nchannels w * _sampwidth w =? 0 then
      set_wave (seek w (chunk_pos w + len data) (_soundpos w));;
      raise (ZeroDivisionError "integer division or modulo by zero")
    else
      set_wave (seek w (chunk_pos w + len data)
                  (_soundpos w + len data / (_nchannels w * _sampwidth w)));;
      mret data.

(** [struct.unpack(fmt, data)] *)
Definition struct_unpack (fmt : string) (data : list byte) : M (list Z) :=
  match unpack fmt data with
  | Some l => mret l
  | None => raise (struct_error "unpack requires a string argument of the format's size")
  end.

(** *** [TerrainWaveFile] *)

Definition parsedata (i : Z) : M (list Z) :=
  queue_put (MInt i);;
  o ← get_self;
  let fmt := str_mul (_unpackstructval o) (vtxsample o) in
  data ← readframes (vtxsample o);
  struct_unpack fmt data.

Definition convertAbsolute (amps : list Z) (i : Z) : M (list Z) :=
  queue_put (MInt i);;
  mret (map (fun x => if x <? 0 then Z.lnot x + 1 else x) amps).

Definition averageAmps (amps : list Z) (i : Z) : M Z :=
  queue_put (MInt i);;
  if len amps =? 0
  then raise (ZeroDivisionError "integer division or modulo by zero")
  else mret (py_sum amps / len amps).

Definition relativeScale (amps : Z) (hRatio : F) (i : Z) : M F :=
  queue_put (MInt i);;
  mret (float_mul (float_of_int amps) hRatio).

Definition createheightvals (nvtx : Z) (vheight : F) (negative : bool)
  : M (list F) :=
  rewind;;
  o ← get_self;
  q ← py_float_div (float_of_int (_nframes (wave o))) (float_of_int nvtx);
  set_vtxsample (float_trunc q);;
  queue_put (MTuple "Reading WAV Data" nvtx);;
  allAmps ← mapM parsedata (xrange nvtx);
  allAmps ← (if negb negative then
               queue_put (MTuple "Converting all Values to Positive" (len allAmps));;
               mapM (fun i => a ← getitem allAmps i; convertAbsolute a i)
                    (xrange (len allAmps))
             else mret allAmps);
  queue_put (MTuple "Averaging Amplitude values" (len allAmps));;
  allAmps ← mapM (fun i => a ← getitem allAmps i; averageAmps a i)
                 (xrange (len allAmps));
  m ← py_max allAmps;
  hRatio ← py_float_div vheight (float_of_int m);
  queue_put (MTuple "Scaling to Magnitude Value" (len allAmps));;
  mapM (fun i => a ← getitem allAmps i; relativeScale a hRatio i)
       (xrange (len allAmps)).

(** The two halves of the body, for the proofs: lines 115-132, the raw
    averaged value of every bucket, and lines 134-139, the scaling. *)
Definition rawAveragedValues (nvtx : Z) (negative : bool) : M (list Z) :=
  rewind;;
  o ← get_self;
  q ← py_float_div (float_of_int (_nframes (wave o))) (float_of_int nvtx);
  set_vtxsample (float_trunc q);;
  queue_put (MTuple "Reading WAV Data" nvtx);;
  allAmps ← mapM parsedata (xrange nvtx);
  allAmps ← (if negb negative then
               queue_put (MTuple "Converting all Values to Positive" (len allAmps));;
               mapM (fun i => a ← getitem allAmps i; convertAbsolute a i)
                    (xrange (len allAmps))
             else mret allAmps);
  queue_put (MTuple "Averaging Amplitude values" (len allAmps));;
  mapM (fun i => a ← getitem allAmps i; averageAmps a i) (xrange (len allAmps)).

Definition scaleToMagnitude (allAmps : list Z) (vheight : F) : M (list F) :=
  m ← py_max allAmps;
  hRatio ← py_float_div vheight (float_of_int m);
  queue_put (MTuple "Scaling to Magnitude Value" (len allAmps));;
  mapM (fun i => a ← getitem allAmps i; relativeScale a hRatio i)
       (xrange (len allAmps)).

End Sampler.

(** The [put]s of the messages [ms] on the queue of the object, if it has
    one. *)
Definition puts (q : option loc) (ms : list msg) : list event :=
  match q with
  | Some l => map (EPut l) ms
  | None => []
  end.

(** The little-endian shorts of a byte string, as [unpack] decodes them. *)
Fixpoint shorts (data : list byte) : list Z :=
  match data with
  | lo :: hi :: data' => short_of_bytes lo hi :: shorts data'
  | _ => []
  end.

(** ** The algorithm in the words of the specification

    Section 4.1 of the specification, steps 2 and 3: the frames per
    bucket, the flat samples of bucket [i] and their mean.  These are
    compared with what the code computes. *)

Definition framesPerBucket (w : Wave_read) (vertexCount : Z) : Z :=
  _nframes w / vertexCount.

(** The bytes of the [vs] consecutive frames of bucket [i]. *)
Definition bucket_bytes (w : Wave_read) (vs i : Z) : list byte :=
  take (Z.to_nat (vs * _framesize w))
       (drop (Z.to_nat (i * vs * _framesize w)) (_data_chunk w)).

Definition bucket_samples (w : Wave_read) (vs i : Z) : list Z :=
  shorts (bucket_bytes w vs i).

Definition bucket_mean (allowNegative : bool) (b : list Z) : Z :=
  py_sum (if allowNegative then b else map Z.abs b) / len b.

Definition spec_rawAveragedValues (w : Wave_read) (vertexCount : Z)
    (allowNegative : bool) : list Z :=
  map (fun i => bucket_mean allowNegative
                  (bucket_samples w (framesPerBucket w vertexCount) i))
      (xrange vertexCount).

(** The largest element of a non-empty list ([0] for the empty one). *)
Definition maximum (l : list Z) : Z :=
  match l with
  | [] => 0
  | x :: l' => fold_left Z.max l' x
  end.

(** The effects of one phase on the queue: its stage message, then one
    int per bucket. *)
Definition stage (q : option loc) (label : string) (n : Z) : list event :=
  puts q (MTuple label n :: map MInt (xrange n)).

(** The effects of the reading phase: the [readframes] calls interleaved
    with the progress ints. *)
Definition reading (q : option loc) (n vs : Z) : list event :=
  puts q [MTuple "Reading WAV Data" n]
  ++ flat_map (fun i => puts q [MInt i] ++ [EReadframes (i * vs) vs]) (xrange n).

(** What a successful open of a complete file establishes: at least one
    channel and one byte per sample, and a data chunk that holds the
    frames the header announces. *)
Definition wf_wave (w : Wave_read) : Prop :=
  1 <= _nchannels w /\ 1 <= _sampwidth w /\ 0 <= _nframes w /\
  _nframes w * _framesize w <= len (_data_chunk w).

Arguments TerrainWaveFile F : clear implicits.
Arguments world F : clear implicits.
Arguments pyval F : clear implicits.
Arguments M F A : clear implicits.

(** The scaled values of lines 134-139, for the raw averaged values [l]. *)
Definition heights {F} `{PyFloat F} (vheight : F) (l : list Z) : list F :=
  map (fun a => float_mul (float_of_int a)
                  (float_div vheight (float_of_int (maximum l)))) l.

(** All the effects of a successful sampling pass. *)
Definition sampling (q : option loc) (n vs : Z) (negative : bool) : list event :=
  reading q n vs
  ++ (if negative then [] else stage q "Converting all Values to Positive" n)
  ++ stage q "Averaging Amplitude values" n
  ++ stage q "Scaling to Magnitude Value" n.

(** ** Concrete streams

    A 16-bit mono stream of two frames, the samples 1 and -5, and the
    object [__init__] builds on it. *)
Definition wave_1_m5 : Wave_read :=
  mkWave 1 2 44100 2 [x01; x00; xfb; xff]%byte 0 0.

Definition song_1_m5 (q : option loc) : TerrainWaveFile Q :=
  mkTerrainWaveFile wave_1_m5 16 (2 # 44100) "h" 32768 false q 0.

(** A 16-bit mono stream of two silent frames. *)
Definition wave_silent : Wave_read :=
  mkWave 1 2 44100 2 [x00; x00; x00; x00]%byte 0 0.

Definition song_silent (q : option loc) : TerrainWaveFile Q :=
  mkTerrainWaveFile wave_silent 16 (2 # 44100) "h" 32768 false q 0.

(** An 8-bit stereo stream of one frame, the bytes 0 and 1. *)
Definition wave_8_stereo : Wave_read :=
  mkWave 2 1 44100 1 [x00; x01]%byte 0 0.

Definition song_8_stereo (q : option loc) : TerrainWaveFile Q :=
  mkTerrainWaveFile wave_8_stereo 8 (1 # 44100) "h" 128 false q 0.

(** ** Relating two results

    [scaled_by k r1 r2]: both calls raise the same exception, or both
    return and the second sequence is the first one scaled by [k]. *)
Definition scaled_by (k : Q) (r1 r2 : result (list Q)) : Prop :=
  match r1, r2 with
  | Ok h1, Ok h2 => Forall2 (fun a b => b == k * a)%Q h1 h2
  | Raise e1, Raise e2 => e1 = e2
  | _, _ => False
  end.

(** In floating point [2 * m] need not scale the values by 2.
    [doubling_exact m allAmps]: on the raw averaged values [allAmps],
    doubling commutes with the division of line 134 and with each
    multiplication of line 92, [(2 * m) / max == 2 * (m / max)] and
    [a * (2 * r) == 2 * (a * r)] for the ratio [r = m / max] and every
    averaged value [a]. *)
Definition doubling_exact {F} `{PyFloat F} (m : F) (allAmps : list Z) : Prop :=
  let two := float_of_int 2 in
  let r := float_div m (float_of_int (maximum allAmps)) in
  float_div (float_mul two m) (float_of_int (maximum allAmps)) = float_mul two r /\
  Forall (fun a => float_mul (float_of_int a) (float_mul two r)
                   = float_mul two (float_mul (float_of_int a) r)) allAmps.

(** ** Progress messages

    What one phase and a whole successful pass put on the queue, and the
    caller of the sampler.  [music_displace] (lines 499-555 of
    [mtgMain.py]) asks the host for the vertex count and sets the soft
    selection (no effect on the queue or the song), samples, hands the
    values to [move_vtx_positions], and only then puts ['Complete'].
    [move_vtx_positions] drives the host scene: it is a parameter here,
    free to put messages on the queue and to raise. *)
Definition stage_msgs (label : string) (n : Z) : list msg :=
  MTuple label n :: map MInt (xrange n).

Definition progress (n : Z) (negative : bool) : list msg :=
  stage_msgs "Reading WAV Data" n
  ++ (if negative then [] else stage_msgs "Converting all Values to Positive" n)
  ++ stage_msgs "Averaging Amplitude values" n
  ++ stage_msgs "Scaling to Magnitude Value" n.

Section Host.
Context {F : Type} {PF : PyFloat F}.
Variable move_vtx_positions : list F -> option loc -> M F unit.

Definition music_displace (nVtx : Z) (terrainHeight : F) (dips : bool)
    (queue : option loc) : M F unit :=
  vals ← createheightvals nVtx terrainHeight dips;
  move_vtx_positions vals queue;;
  match queue with
  | Some q => emit (EPut q (MStr "Complete"))
  | None => mret tt
  end.
End Host.

(** The queue effects of [move_vtx_positions] for one merged axis move
    (lines 483-493 of [mtgMain.py]) in a host where every scene command
    succeeds. *)
Definition move_one_axis {F : Type} (axis : string) (nVtx : Z)
    (vals : list F) (queue : option loc) : M F unit :=
  fun s =>
    (log s (puts queue
              (MTuple ("Moving Terrain in " +:+ axis +:+ " axis") nVtx
               :: map MInt (xrange (len (take (Z.to_nat nVtx) vals))))),
     Ok tt).

(** A 16-bit mono stream of one frame, the sample 49. *)
Definition wave_49 : Wave_read := mkWave 1 2 44100 1 [x31; x00]%byte 0 0.

Definition song_49 (q : option loc) : TerrainWaveFile Q :=
  mkTerrainWaveFile wave_49 16 (1 # 44100) "h" 32768 false q 0.

(** ** Running on binary64

    The object [__init__] builds on [w] in binary64, and the outcome of a
    call on it. *)
Definition song_b64 (w : Wave_read) (q : option loc) : option (world float) :=
  match __init__ w q with
  | Ok o => Some (mkWorld o [])
  | Raise _ => None
  end.

Definition b64_call {A} (m : M float A) (w : Wave_read) : option (result A) :=
  match song_b64 w None with
  | Some s => Some (m s).2
  | None => None
  end.



(** An object as [__init__] leaves it on a well-formed reader, whatever
    calls have been made on it since. *)
Definition opened {F : Type} (o : TerrainWaveFile F) : Prop :=
  wf_wave (wave o) /\
  _unpackstructval o = str_mul "h" (_nchannels (wave o) * _sampwidth (wave o) / 2).

(** The state a sampling pass leaves: [vs] frames per bucket, cursor
    after [n] buckets, and the effects [evs] added to the trace. *)
Definition after_pass {F : Type} (s : world F) (n vs : Z) (evs : list event)
  : world F :=
  mkWorld (with_wave (with_vtxsample (self s) vs)
             (seek (wave (self s)) (n * vs * _framesize (wave (self s))) (n * vs)))
          (trace s ++ evs).

(** The state a pass leaves on a stream of odd frame size: [vs] frames
    per bucket, one bucket read, the cursor after its [vs] frames. *)
Definition after_odd {F : Type} (s : world F) (n vs : Z) : world F :=
  mkWorld (with_wave (with_vtxsample (self s) vs)
             (seek (wave (self s)) (vs * _framesize (wave (self s))) vs))
          (trace s ++ puts (queue (self s)) [MTuple "Reading WAV Data" n; MInt 0]
             ++ [EReadframes 0 vs]).

(** ** What a call leaves alone

    [song_of o] is the object with the cursor of the reader and
    [vtxsample] reset: the part of the state that the methods read and
    never assign. *)
Definition song_of {F} (o : TerrainWaveFile F) : TerrainWaveFile F :=
  with_vtxsample (with_wave o (seek (wave o) 0 0)) 0.

(** [extends P s s']: from [s] to [s'] the song is the same and the trace
    has grown by events that satisfy [P] (given the queue of the
    object). *)
Definition extends {F} (P : option loc -> event -> Prop) (s s' : world F) : Prop :=
  song_of (self s') = song_of (self s) /\
  exists evs, trace s' = trace s ++ evs /\ Forall (P (queue (self s))) evs.

Definition keeps {F A} (P : option loc -> event -> Prop) (m : M F A)
    (s : world F) : Prop :=
  extends P s (m s).1.

(** The state with the events [tr] before its own, and the computations
    that do not look at the trace. *)
Definition prepend {F} (tr : list event) (s : world F) : world F :=
  mkWorld (self s) (tr ++ trace s).

Definition framed {F A} (m : M F A) : Prop :=
  forall tr s, m (prepend tr s) = (prepend tr (m s).1, (m s).2).

(** A message of a pass over [n] buckets: a stage with total [n], or the
    index of a bucket. *)
Definition pass_msg (n : Z) (m : msg) : Prop :=
  match m with
  | MTuple _ total => total = n
  | MInt i => 0 <= i < n
  | MStr _ => False
  end.

(** An 8-bit mono stream of two frames: the frame size is odd and the
    unpack format is empty. *)
Definition wave_8_mono : Wave_read := mkWave 1 1 8000 2 [x80; x90]%byte 0 0.

Definition song_8_mono (q : option loc) : TerrainWaveFile Q :=
  mkTerrainWaveFile wave_8_mono 8 (2 # 8000) "" 128 false q 0.

(** * [scripts/mayaSnippet/mayaFuncs.py]: the helpers that do not call the host

    [find_empty_entry_value], [closest_colour] and [setup_graph_values]
    keep no state: they live in the exception monad [result]. *)

(** Exceptions alone, for the functions that keep no state. *)
#[export] Instance result_ret : MRet result := fun A (a : A) => Ok a.

#[export] Instance result_bind : MBind result :=
  fun A B (f : A -> result B) (m : result A) =>
    match m with
    | Ok a => f a
    | Raise e => Raise e
    end.

(** [l[i]] *)
Definition list_getitem {A} (l : list A) (i : Z) : result A :=
  let j := if i <? 0 then i + len l else i in
  if (j <? 0) || (len l <=? j) then Raise (IndexError "list index out of range")
  else match l !! Z.to_nat j with
       | Some a => Ok a
       | None => Raise (IndexError "list index out of range")
       end.

(** [range(a, b)] *)
Definition range (a b : Z) : list Z := seqZ a (b - a).

(** The [for] loop of [find_empty_entry_value] over the indices [idx],
    with its [else] clause. *)
Fixpoint find_gap (eList : list Z) (idx : list Z) : result Z :=
  match idx with
  | [] => Ok (len eList)
  | i :: idx' =>
      a ← list_getitem eList (i - 1);
      b ← list_getitem eList i;
      if negb (a + 1 =? b) then Ok (a + 1) else find_gap eList idx'
  end.

Definition find_empty_entry_value (eList : list Z) : result Z :=
  x ← list_getitem eList 0;
  if negb (x =? 0) then Ok 0
  else find_gap eList (range 1 (len eList)).

(** A strictly increasing list, as the host lists the indices in use. *)
Definition increasing (l : list Z) : Prop :=
  forall i j a b, (i < j)%nat -> l !! i = Some a -> l !! j = Some b -> a < b.

(** ** [closest_colour] *)

(** The float operations of [closest_colour]. *)
Class PyFloatOrd (F : Type) : Type := {
  float_add : F -> F -> F;        (* x + y *)
  float_sub : F -> F -> F;        (* x - y *)
  float_abs : F -> F;             (* abs(x) *)
  float_ltb : F -> F -> bool;     (* x < y *)
  float_eqb : F -> F -> bool      (* x == y *)
}.

#[export] Instance Q_float_ord : PyFloatOrd Q := {
  float_add := Qplus;
  float_sub := Qminus;
  float_abs := Qabs;
  float_ltb x y := negb (Qle_bool y x);
  float_eqb := Qeq_bool
}.

#[export] Instance b64_float_ord : PyFloatOrd float := {
  float_add := PrimFloat.add;
  float_sub := PrimFloat.sub;
  float_abs := PrimFloat.abs;
  float_ltb := PrimFloat.ltb;
  float_eqb := PrimFloat.eqb
}.

(** What the comparisons of Python floats satisfy, [nan] included: [<]
    is a strict order, [==] cannot be told apart by [<], and two values
    that are not [nan] (the only values with [x == x] false) are
    comparable.  Both instances have these properties
    ([Q_float_ord_laws], [b64_float_ord_laws]). *)
Class PyFloatOrdLaws (F : Type) `{PyFloatOrd F} : Prop := {
  float_ltb_irrefl : forall x : F, float_ltb x x = false;
  float_ltb_trans : forall x y z : F,
    float_ltb x y = true -> float_ltb y z = true -> float_ltb x z = true;
  float_eqb_ltb_l : forall x y z : F,
    float_eqb x y = true -> float_ltb x z = float_ltb y z;
  float_eqb_ltb_r : forall x y z : F,
    float_eqb x y = true -> float_ltb z x = float_ltb z y;
  float_ltb_total : forall x y : F,
    float_eqb x x = true -> float_eqb y y = true ->
    float_ltb x y = false -> float_eqb x y = false -> float_ltb y x = true
}.

Section Colours.
Context {F : Type} {PF : PyFloat F} {PO : PyFloatOrd F}.

(** [sum(l)] on floats: the start value is the int 0. *)
Definition float_sum (l : list F) : F := fold_left float_add l (float_of_int 0).

(** [min(l)]: the first of the smallest elements, an element replacing
    the best so far when it is [<] than it.  [min] returns the object of
    the list itself: it is given here with its position in [l], which
    identifies it (the elements of [compare] are distinct objects, each
    the result of a [sum]). *)
Fixpoint float_min_from (l : list F) (i : Z) (best : Z * F) : Z * F :=
  match l with
  | [] => best
  | y :: l' =>
      float_min_from l' (i + 1) (if float_ltb y best.2 then (i, y) else best)
  end.

Definition float_min (l : list F) : result (Z * F) :=
  match l with
  | [] => Raise (ValueError "min() arg is an empty sequence")
  | x :: l' => Ok (float_min_from l' 1 (0, x))
  end.

(** [l.index(x)] for the object [x] that sits at position [x.1] of [l]:
    the first position whose element is [x] itself or is [==] to it
    ([list.index] tests identity before equality, so that a [nan] is
    found at its own position).  The message of the exception holds the
    [repr] of [x], left out here. *)
Fixpoint float_index_from (l : list F) (i : Z) (x : Z * F) : result Z :=
  match l with
  | [] => Raise (ValueError "is not in list")
  | y :: l' =>
      if (i =? x.1) || float_eqb y x.2 then Ok i
      else float_index_from l' (i + 1) x
  end.

Definition float_index (l : list F) (x : Z * F) : result Z :=
  float_index_from l 0 x.

Definition closest_colour (colour : list F) (cColours : list (list F))
  : result (list F) :=
  compare ← mapM (fun colC =>
                    d ← mapM (fun i => a ← list_getitem colC i;
                                       b ← list_getitem colour i;
                                       mret (float_abs (float_sub a b)))
                             (range 0 3);
                    mret (float_sum d))
                 cColours;
  m ← float_min compare;
  k ← float_index compare m;
  list_getitem cColours k.

(** The sum line 116 computes for the colour [c], in the arithmetic of
    [F]: the distance that [closest_colour] compares. *)
Definition float_distance (colour c : list F) : F :=
  float_sum (map (fun i => float_abs (float_sub (nth i c (float_of_int 0))
                                                (nth i colour (float_of_int 0))))
                 [0; 1; 2]%nat).

End Colours.

(** The rational number a finite binary64 value stands for. *)
Definition b64_exact (x : float) : Q :=
  match Prim2SF x with
  | S754_finite s m e =>
      let v := if 0 <=? e then inject_Z (Zpos m * 2 ^ e)
               else Zpos m # Pos.pow 2 (Z.to_pos (- e)) in
      if s then Qopp v else v
  | _ => 0
  end.

(** The distance [closest_colour] minimises in exact arithmetic: the sum
    of the absolute differences of the first three components. *)
Definition component (c : list Q) (i : nat) : Q := nth i c 0%Q.

Definition colour_distance (a b : list Q) : Q :=
  (Qabs (component a 0 - component b 0) + Qabs (component a 1 - component b 1)
   + Qabs (component a 2 - component b 2))%Q.

(** ** [setup_graph_values], on byte strings ([str]) *)

(** [s.split(sep)] for a separator of one character. *)
Fixpoint str_split (sep : ascii) (s : string) : list string :=
  match s with
  | EmptyString => [EmptyString]
  | String c s' =>
      if Ascii.eqb c sep then EmptyString :: str_split sep s'
      else match str_split sep s' with
           | h :: t => String c h :: t
           | [] => [String c EmptyString]
           end
  end.

(** [sep.join(l)] *)
Fixpoint str_join (sep : string) (l : list string) : string :=
  match l with
  | [] => ""
  | x :: l' =>
      match l' with
      | [] => x
      | _ :: _ => x +:+ sep +:+ str_join sep l'
      end
  end.

(** The characters [str.strip()] removes: space, tab, newline, vertical
    tab, form feed and carriage return. *)
Definition is_whitespace (c : ascii) : bool :=
  let n := N_of_ascii c in ((9 <=? n) && (n <=? 13) || (n =? 32))%N.

Fixpoint lstrip (s : string) : string :=
  match s with
  | EmptyString => EmptyString
  | String c s' => if is_whitespace c then lstrip s' else s
  end.

Fixpoint rstrip (s : string) : string :=
  match s with
  | EmptyString => EmptyString
  | String c s' =>
      match rstrip s' with
      | EmptyString => if is_whitespace c then EmptyString else String c EmptyString
      | r => String c r
      end
  end.

Definition strip (s : string) : string := rstrip (lstrip s).

(** [range(a, b, step)] for a positive step, and [l[a:b]] for
    [0 <= a <= b]. *)
Definition range_step (a b step : Z) : list Z :=
  map (fun k => a + k * step) (seqZ 0 ((b - a + step - 1) / step)).

Definition slice {A} (l : list A) (a b : Z) : list A :=
  take (Z.to_nat (b - a)) (drop (Z.to_nat a) l).

Definition setup_graph_values (gVals : string) : list string :=
  let split := str_split "," gVals in
  map (fun i => strip (str_join "," (slice split i (i + 3))))
      (range_step 0 (len split) 3).

(** The number of occurrences of a character. *)
Fixpoint str_count (c : ascii) (s : string) : Z :=
  match s with
  | EmptyString => 0
  | String c' s' => (if Ascii.eqb c' c then 1 else 0) + str_count c s'
  end.

(** No whitespace anywhere in the string. *)
Fixpoint no_whitespace (s : string) : bool :=
  match s with
  | EmptyString => true
  | String c s' => negb (is_whitespace c) && no_whitespace s'
  end.

(** The first and the last character of a string. *)
Definition str_head (s : string) : option ascii :=
  match s with
  | EmptyString => None
  | String c _ => Some c
  end.

Fixpoint str_last (s : string) : option ascii :=
  match s with
  | EmptyString => None
  | String c s' =>
      match s' with
      | EmptyString => Some c
      | String _ _ => str_last s'
      end
  end.

(** * [scripts/mtg/mtgGUI.py]: the reader of the progress queue *)

(** [s.lower()] on a byte string. *)
Definition ascii_lower (c : ascii) : ascii :=
  let n := N_of_ascii c in
  if ((65 <=? n) && (n <=? 90))%N then ascii_of_N (n + 32) else c.

Fixpoint str_lower (s : string) : string :=
  match s with
  | EmptyString => EmptyString
  | String c s' => String (ascii_lower c) (str_lower s')
  end.

(** The outcome of a step of the reader: besides the exceptions of [exn],
    a [TypeError]. *)
Inductive outcome (A : Type) : Type :=
| Done (a : A)
| Raised (e : exn)
| TypeError (m : string).

Arguments Done {A} a.
Arguments Raised {A} e.
Arguments TypeError {A} m.

#[export] Instance outcome_ret : MRet outcome := fun A (a : A) => Done a.

#[export] Instance outcome_bind : MBind outcome :=
  fun A B (f : A -> outcome B) (m : outcome A) =>
    match m with
    | Done a => f a
    | Raised e => Raised e
    | TypeError m => TypeError m
    end.

(** An [int] or a [float]: [ratio] starts as the int 1. *)
Inductive number (F : Type) : Type :=
| NInt (i : Z)
| NFloat (x : F).

Arguments NInt {F} i.
Arguments NFloat {F} x.

(** The local variables of the loop of [generate_terrain] (lines 823-855
    of [mtgGUI.py]), [self.complete], and the [progressWindow] edits
    made, as (progress, status). *)
Record progress_window (F : Type) : Type := mkProgress {
  ratio : number F;
  status_msg : string;                  (* msg *)
  currentProgress : Z;
  completeMessage : string;
  complete : bool;
  progressWindow : list (Z * string)
}.

Arguments mkProgress {F}.
Arguments ratio {F}.
Arguments status_msg {F}.
Arguments currentProgress {F}.
Arguments completeMessage {F}.
Arguments complete {F}.
Arguments progressWindow {F}.

(** ["{}: {}%".format(msg, currentProgress)] *)
Definition format_status (m : string) (p : Z) : string :=
  m +:+ ": " +:+ pretty p +:+ "%".

Section Reader.
Context {F : Type} {PF : PyFloat F}.

(** [int(s)] on a string is the builtin of Python, left abstract. *)
Variable int_of_str : string -> result Z.

(** The state before the loop (lines 823-826 and 835). *)
Definition generate_terrain_start : progress_window F :=
  mkProgress (NInt 1) "Starting" 0 (format_status "Starting" 0) false [].

(** One turn of the inner loop, for the message [getM] taken off the
    queue (lines 839-853). *)
Definition generate_terrain_get (st : progress_window F) (getM : msg)
  : outcome (progress_window F) :=
  st' ← match getM with
        | MTuple label total =>
            if float_is_zero (float_of_int total)
            then Raised (ZeroDivisionError "float division by zero")
            else Done (mkProgress
                         (NFloat (float_div (float_of_int 100) (float_of_int total)))
                         label 0 (format_status label 0)
                         (complete st) (progressWindow st))
        | MStr s =>
            if String.eqb (str_lower s) "complete"
            then Done (mkProgress (ratio st) (status_msg st) (currentProgress st)
                         (completeMessage st) true (progressWindow st))
            else
              match ratio st with
              | NInt k =>
                  match int_of_str (str_mul s k) with
                  | Ok p => Done (mkProgress (ratio st) (status_msg st) p
                                    (format_status (status_msg st) p)
                                    (complete st) (progressWindow st))
                  | Raise e => Raised e
                  end
              | NFloat _ =>
                  TypeError "can't multiply sequence by non-int of type 'float'"
              end
        | MInt i =>
            let p := match ratio st with
                     | NInt k => i * k
                     | NFloat r => float_trunc (float_mul (float_of_int i) r)
                     end in
            Done (mkProgress (ratio st) (status_msg st) p
                    (format_status (status_msg st) p)
                    (complete st) (progressWindow st))
        end;
  Done (mkProgress (ratio st') (status_msg st') (currentProgress st')
          (completeMessage st') (complete st')
          (progressWindow st' ++ [(currentProgress st', completeMessage st')])).

(** The inner loop on the messages [ms], in the order they were put. *)
Fixpoint generate_terrain_drain (st : progress_window F) (ms : list msg)
  : outcome (progress_window F) :=
  match ms with
  | [] => Done st
  | getM :: ms' =>
      st' ← generate_terrain_get st getM;
      generate_terrain_drain st' ms'
  end.

End Reader.

(** * [scripts/mtg/mtgMain.py]: moving the vertices

    [move_vtx_positions] and the whole of [music_displace], with the
    host: the commands sent to Maya are recorded, its answers are
    parameters, and a command is taken to succeed. *)

(** [s.upper()], the characters of a string, [c in s] and
    [s.replace(c, '')] for a character [c]. *)
Definition ascii_upper (c : ascii) : ascii :=
  let n := N_of_ascii c in
  if ((97 <=? n) && (n <=? 122))%N then ascii_of_N (n - 32) else c.

Fixpoint str_upper (s : string) : string :=
  match s with
  | EmptyString => EmptyString
  | String c s' => String (ascii_upper c) (str_upper s')
  end.

Fixpoint chars (s : string) : list ascii :=
  match s with
  | EmptyString => []
  | String c s' => c :: chars s'
  end.

Definition str_in (c : ascii) (s : string) : bool := existsb (Ascii.eqb c) (chars s).

Fixpoint str_remove (c : ascii) (s : string) : string :=
  match s with
  | EmptyString => EmptyString
  | String c' s' => if Ascii.eqb c' c then str_remove c s' else String c' (str_remove c s')
  end.

(** [l[:n]] and [enumerate(l)] *)
Definition slice_to {A} (l : list A) (n : Z) : list A :=
  if n <? 0 then take (Z.to_nat (len l + n)) l else take (Z.to_nat n) l.

Definition enumerate {A} (l : list A) : list (Z * A) := zip (seqZ 0 (len l)) l.

(** The check of the axis argument (lines 443-444 of [mtgMain.py]): the
    letters are taken from [axis], the counts from [axis.lower()]. *)
Definition valid_axis (axis : string) : bool :=
  let nAxis := str_lower axis in
  forallb (fun l => existsb (Ascii.eqb l) ["x"; "y"; "z"; "n"]%char
                    && (str_count l nAxis =? 1))
          (chars axis).

(** [mf.SSELECT_CURVES[0]], the curve ['soft']. *)
Definition SSELECT_CURVES_0 : string := "1,0,2, 0,1,2".

Module mtgMain.
Section Scene.
Context {F : Type} {PF : PyFloat F}.

(** The calls of [maya.cmds] that change the scene or the display, with
    the arguments that vary. *)
Inductive maya_cmd : Type :=
| cmds_softSelect (sse : Z) (ssc : option string) (ssf : option Z) (ssd : option F)
| cmds_select (name : string)                    (* select(name, replace=True) *)
| cmds_moveVertexAlongDirection (direction : list (list F)) (magnitude : list F)
| cmds_move (val : list F) (flag : string)       (* move( *val, relative=True, flag=True) *)
| cmds_refresh.                                  (* refresh(cv=True) *)

(** The answers of the host, each a function of the commands it has
    received: the vertex count, the existence of an object, whether it
    is a polygon ([mf.poly_check]), the vertex normals
    ([mf.get_vertex_normals]) and the soft selection
    ([mf.soft_selection]). *)
Record maya : Type := mkMaya {
  polyEvaluate : list maya_cmd -> string -> result Z;
  objExists : list maya_cmd -> string -> bool;
  poly_check : list maya_cmd -> string -> bool;
  get_vertex_normals : list maya_cmd -> string -> result (list (list F));
  soft_selection : list maya_cmd -> result (list string)
}.

(** A session: the song object with its trace, and the commands sent to
    the host. *)
Record session : Type := mkSession {
  song_world : world F;
  maya_log : list maya_cmd
}.

Definition H (A : Type) : Type := session -> session * result A.

#[export] Instance H_ret : MRet H := fun A (a : A) (s : session) => (s, Ok a).

#[export] Instance H_bind : MBind H :=
  fun A B (f : A -> H B) (m : H A) (s : session) =>
    match m s with
    | (s', Ok a) => f a s'
    | (s', Raise e) => (s', Raise e)
    end.

Definition throw {A} (e : exn) : H A := fun s => (s, Raise e).

(** A method of the song object, a question to the host, a command. *)
Definition lift {A} (m : M F A) : H A :=
  fun s => let r := m (song_world s) in (mkSession r.1 (maya_log s), r.2).

Definition ask {A} (f : list maya_cmd -> result A) : H A :=
  fun s => (s, f (maya_log s)).

Definition tell (c : maya_cmd) : H unit :=
  fun s => (mkSession (song_world s) (maya_log s ++ [c]), Ok tt).

(** [if queue: queue.put(m)] and the bare [queue.put(m)]. *)
Definition put (queue : option loc) (m : msg) : H unit :=
  match queue with
  | Some q => lift (emit (EPut q m))
  | None => mret tt
  end.

Definition put_unguarded (queue : option loc) (m : msg) : H unit :=
  match queue with
  | Some q => lift (emit (EPut q m))
  | None => throw (AttributeError "put")
  end.

(** A [for] loop *)
Fixpoint for_each {A} (l : list A) (body : A -> H unit) : H unit :=
  match l with
  | [] => mret tt
  | x :: l' => body x;; for_each l' body
  end.

(** [l[i]] *)
Definition index {A} (l : list A) (i : Z) : H A :=
  fun s => (s, list_getitem l i).

(** ['%s.vtx[%d]' % (pObject, i)] *)
Definition vtx (pObject : string) (i : Z) : string :=
  pObject +:+ ".vtx[" +:+ pretty i +:+ "]".

Variable host : maya.

(** [vals] is a list or a tuple here, so that the first check passes;
    the caller's list, when [vals] is one, is not modelled as reversed in
    place ([music_displace] passes a tuple, which is copied). *)
Definition move_vtx_positions (vals : list F) (pObject axis : string)
    (reverse seprAxisMv refresh : bool) (queue : option loc) : H unit :=
  nVtx ← ask (fun log => polyEvaluate host log pObject);
  let nAxis := str_lower axis in
  ex ← ask (fun log => Ok (objExists host log pObject));
  if negb ex then
    throw (ValueError (pObject +:+ " is not an object that exists in the scene"))
  else
  poly ← ask (fun log => Ok (poly_check host log pObject));
  if negb poly then
    throw (ValueError ("MTG only works with poly objects. " +:+ pObject +:+ " is not"))
  else
  if negb (valid_axis axis) then
    throw (ValueError (axis +:+ " is an invalid axis. Must contain (x,y,z,n)"
                            +:+ " and only one of each"))
  else
  let vals := if reverse then rev vals else vals in
  (if str_in "n" nAxis then
     put queue (MTuple "Moving Terrain in Normal direction" nVtx);;
     normalDirs ← ask (fun log => get_vertex_normals host log pObject);
     for_each (enumerate (slice_to vals nVtx)) (fun '(i, val) =>
       put queue (MInt i);;
       tell (cmds_select (vtx pObject i));;
       dir_ ← index normalDirs i;
       sel ← ask (soft_selection host);
       let nOfVerts := length sel in
       tell (cmds_moveVertexAlongDirection (replicate nOfVerts dir_)
                                           (replicate nOfVerts val));;
       if refresh then tell cmds_refresh else mret tt)
   else mret tt);;
  if existsb (fun l => existsb (Ascii.eqb l) ["x"; "y"; "z"]%char) (chars nAxis) then
    let tmpAxis := str_remove "n" nAxis in
    if seprAxisMv then
      for_each (chars tmpAxis) (fun a =>
        put queue (MTuple ("Moving Terrain in " +:+ String a "" +:+ " axis") nVtx);;
        let move := "move" +:+ str_upper (String a "") in
        for_each (enumerate (slice_to vals nVtx)) (fun '(i, val) =>
          put_unguarded queue (MInt i);;
          tell (cmds_select (vtx pObject i));;
          tell (cmds_move [val] move);;
          if refresh then tell cmds_refresh else mret tt))
    else
      put queue (MTuple ("Moving Terrain in " +:+ str_upper tmpAxis +:+ " axis") nVtx);;
      let move := "move" +:+ str_upper tmpAxis in
      for_each (enumerate (slice_to vals nVtx)) (fun '(i, val) =>
        put queue (MInt i);;
        let val := replicate (String.length tmpAxis) val in
        tell (cmds_select (vtx pObject i));;
        tell (cmds_move val move);;
        if refresh then tell cmds_refresh else mret tt)
  else mret tt.

(** [music_displace(songInfo, ...)], [songInfo] being the object of the
    session. *)
Definition music_displace (terrainHeight : F) (pObject vtxDire : string)
    (sSelect : bool) (sSelectCurve : option string) (sSelectMode : Z)
    (sSelectRadius : F) (dips seprAxisMv reverse refresh : bool)
    (queue : option loc) : H unit :=
  nVtx ← ask (fun log => polyEvaluate host log pObject);
  (if sSelect then
     match sSelectCurve with
     | None => tell (cmds_softSelect 1 (Some SSELECT_CURVES_0)
                       (Some sSelectMode) (Some sSelectRadius))
     | Some c => tell (cmds_softSelect 1 (Some c)
                         (Some sSelectMode) (Some sSelectRadius))
     end
   else tell (cmds_softSelect 0 None None None));;
  vals ← lift (createheightvals nVtx terrainHeight dips);
  move_vtx_positions vals pObject vtxDire reverse seprAxisMv refresh queue;;
  put queue (MStr "Complete").

End Scene.

Arguments maya_cmd F : clear implicits.
Arguments maya F : clear implicits.
Arguments session F : clear implicits.
Arguments H F A : clear implicits.

(** The state after the events [evs] and the commands [cs]. *)
Definition after {F} (s : session F) (evs : list event) (cs : list (maya_cmd F))
  : session F :=
  mkSession (log (song_world s) evs) (maya_log s ++ cs).

(** The commands of one vertex in a merged move. *)
Definition merged_move {F} (pObject axis : string) (refresh : bool) (iv : Z * F)
  : list (maya_cmd F) :=
  [cmds_select (vtx pObject iv.1);
   cmds_move (replicate (String.length axis) iv.2) ("move" +:+ str_upper axis)]
  ++ (if refresh then [cmds_refresh] else []).

(** The commands of one vertex in a move along the normals: [k] vertices
    are soft-selected. *)
Definition normal_move {F} (pObject : string) (normalDirs : list (list F))
    (k : nat) (refresh : bool) (iv : Z * F) : list (maya_cmd F) :=
  [cmds_select (vtx pObject iv.1);
   cmds_moveVertexAlongDirection
     (replicate k (default [] (normalDirs !! Z.to_nat iv.1)))
     (replicate k iv.2)]
  ++ (if refresh then [cmds_refresh] else []).

(** The [softSelect] command of [music_displace]. *)
Definition soft_select_cmd {F} (sSelect : bool) (sSelectCurve : option string)
    (sSelectMode : Z) (sSelectRadius : F) : maya_cmd F :=
  if sSelect
  then cmds_softSelect 1 (Some (default SSELECT_CURVES_0 sSelectCurve))
         (Some sSelectMode) (Some sSelectRadius)
  else cmds_softSelect 0 None None None.

(** A host with a polygon object of two vertices, whatever its name. *)
Definition plane_host : maya Q :=
  mkMaya (fun _ _ => Ok 2) (fun _ _ => true) (fun _ _ => true)
         (fun _ _ => Ok [[0; 1; 0]; [0; 1; 0]]%Q) (fun _ => Ok ["plane.vtx[0]"]).

Definition session_1_m5 (q : option loc) : session Q :=
  mkSession (mkWorld (song_1_m5 q) []) [].

End mtgMain.

(** The letters of an axis. *)
Definition axis_letter (c : ascii) : Prop :=
  c = "x"%char \/ c = "y"%char \/ c = "z"%char \/ c = "n"%char.

(** * [scripts/mtg/mtgMain.py]: choosing the textures

    [tex_types], with the operating system and the random generator as
    parameters. *)

(** [l.pop(i)]: the element and the list without it. *)
Definition list_pop {A} (l : list A) (i : Z) : result (A * list A) :=
  let j := if i <? 0 then i + len l else i in
  if (j <? 0) || (len l <=? j) then Raise (IndexError "pop index out of range")
  else match l !! Z.to_nat j with
       | Some a => Ok (a, delete (Z.to_nat j) l)
       | None => Raise (IndexError "pop index out of range")
       end.

(** The answers of the operating system to [os.path] and [os]: the
    joined path, whether a path exists, the (root, file names) pairs of
    [os.walk], the last component of a path, the names in a directory
    and whether a path is a file.  Listing is taken to succeed. *)
Record os_host : Type := mkOs {
  os_path_join : string -> list string -> string;
  os_path_exists : string -> bool;
  os_walk : string -> list (string * list string);
  os_path_split_tail : string -> string;
  os_listdir : string -> list string;
  os_path_isfile : string -> bool
}.

Section TexTypes.

Variable TEX_DIRECTORY : string.
Variable os : os_host.

(** [rand.randint(a, b)] at its [k]-th call: any integer the generator
    gives for [a <= b], [ValueError] for an empty range. *)
Variable randint : nat -> Z -> Z -> Z.

Definition rand_randint (k : nat) (a b : Z) : result Z :=
  if b <? a
  then Raise (ValueError ("empty range for randrange() (" +:+ pretty a +:+ ","
                          +:+ pretty (b + 1) +:+ ", " +:+ pretty (b + 1 - a) +:+ ")"))
  else Ok (randint k a b).

(** The loop of [tex_types] (lines 154-164) over the positions [xs],
    [k] calls of [randint] having been made. *)
Fixpoint tex_types_loop (textures tmpTexs : list string)
    (texturesUsed : gmap string (list Z)) (k : nat) (xs : list Z)
  : result (gmap string (list Z)) :=
  match xs with
  | [] => Ok texturesUsed
  | x :: xs' =>
      let tmpTexs := if decide (tmpTexs = []) then textures else tmpTexs in
      i ← rand_randint k 0 (len tmpTexs - 1);
      p ← list_pop tmpTexs i;
      let image := p.1 in
      let texturesUsed :=
        match texturesUsed !! image with
        | Some l => <[image := l ++ [x]]> texturesUsed
        | None => <[image := [x]]> texturesUsed
        end in
      tex_types_loop textures p.2 texturesUsed (S k) xs'
  end.

(** The files listed (lines 142-150), for a path that exists. *)
Definition texture_files (texType : list string) (randTexs : bool)
  : result (list string) :=
  let texPath := os_path_join os TEX_DIRECTORY texType in
  if randTexs then
    first ← list_getitem texType 0;
    let texPath := os_path_join os TEX_DIRECTORY [first] in
    Ok (flat_map (fun rf : string * list string =>
                    if String.eqb (os_path_split_tail os rf.1) ".mayaSwatches"
                    then []
                    else map (fun f => os_path_join os rf.1 [f]) rf.2)
                 (os_walk os texPath))
  else
    Ok (map (fun f => os_path_join os texPath [f])
            (filter (fun f => os_path_isfile os (os_path_join os texPath [f]) = true)
                    (os_listdir os texPath))).

Definition repeat_warning : string :=
  "The number of textures supplied is fewer then the requested amount. Repeat textures will be used".

(** [tex_types(texType, nOfTexs, randTexs)]: what it prints, and what it
    returns or raises.  A missing path makes it return, not raise, a
    [ValueError]. *)
Definition tex_types (texType : list string) (nOfTexs : Z) (randTexs : bool)
  : list string * result (exn + gmap string (list Z)) :=
  let texPath := os_path_join os TEX_DIRECTORY texType in
  if negb (os_path_exists os texPath) then
    ([], Ok (inl (ValueError (texPath +:+ " path doesn't exist"))))
  else
    match texture_files texType randTexs with
    | Raise e => ([], Raise e)
    | Ok textures =>
        (if len textures <? nOfTexs then [repeat_warning] else [],
         match tex_types_loop textures textures ∅ 0 (xrange nOfTexs) with
         | Ok d => Ok (inr d)
         | Raise e => Raise e
         end)
    end.

End TexTypes.

(** How many positions an image has been given. *)
Definition times_used (d : gmap string (list Z)) (image : string) : Z :=
  len (default [] (d !! image)).

(** Position [y] has been given to [image]. *)
Definition placed (d : gmap string (list Z)) (y : Z) (image : string) : Prop :=
  exists l, d !! image = Some l /\ y ∈ l.

(** The invariant of the loop of [tex_types] before position [x], in
    round [r] of the textures. *)
Record tex_inv (textures tmpTexs : list string) (d : gmap string (list Z))
    (x r : Z) : Prop := mkTexInv {
  inv_x : 0 <= x;
  inv_round : x = r * len textures + (len textures - len tmpTexs);
  inv_nodup : NoDup tmpTexs;
  inv_sub : forall img, img ∈ tmpTexs -> img ∈ textures;
  inv_count : forall img, img ∈ textures ->
    times_used d img = r + (if decide (img ∈ tmpTexs) then 0 else 1);
  inv_keys : forall img l, d !! img = Some l -> img ∈ textures;
  inv_pos : forall y img, placed d y img -> 0 <= y < x;
  inv_all : forall y, 0 <= y < x -> exists img, placed d y img;
  inv_uniq : forall y i1 i2, placed d y i1 -> placed d y i2 -> i1 = i2
}.

(** Two files in one directory, and the generator that always draws the
    lowest index. *)
Definition two_files : os_host :=
  mkOs (fun a p => fold_left (fun x y => x +:+ "/" +:+ y) p a)
       (fun _ => true) (fun _ => []) (fun p => p)
       (fun _ => ["a.png"; "b.png"]) (fun _ => true).

(** * Tactics *)

(** Projections of the object and of the reader out of updated states. *)
Ltac simpl_world :=
  cbn [self trace queue with_vtxsample with_wave wave seek log
       _nchannels _sampwidth _framerate _nframes _data_chunk].

(** [opened] on a concrete object. *)
Ltac opened_by_computation :=
  split; [repeat split; vm_compute; discriminate | reflexivity].

(** ** [struct.unpack] on the formats of the class *)

Lemma str_repeat_h_app n m :
  str_repeat "h" (n + m) = str_repeat "h" n +:+ str_repeat "h" m.
Proof. induction n as [|n IH]; simpl; [reflexivity|]. now rewrite IH. Qed.

Lemma str_repeat_h_mul k n :
  str_repeat (str_repeat "h" k) n = str_repeat "h" (n * k).
Proof.
  induction n as [|n IH]; simpl; [reflexivity|].
  now rewrite IH, str_repeat_h_app.
Qed.

Lemma unpack_h n : forall data : list byte,
  length data = (2 * n)%nat -> unpack (str_repeat "h" n) data = Some (shorts data).
Proof.
  induction n as [|n IH]; intros data Hlen.
  - destruct data; [reflexivity | discriminate].
  - destruct data as [|lo [|hi data]]; try (simpl in Hlen; lia).
    simpl. rewrite IH; [reflexivity | simpl in Hlen; lia].
Qed.

Lemma unpack_h_mismatch n : forall data : list byte,
  length data <> (2 * n)%nat -> unpack (str_repeat "h" n) data = None.
Proof.
  induction n as [|n IH]; intros data Hlen.
  - destruct data; [contradiction | reflexivity].
  - destruct data as [|lo [|hi data]]; try reflexivity.
    simpl. rewrite IH; [reflexivity | simpl in Hlen; lia].
Qed.

Lemma shorts_length (data : list byte) n :
  length data = (2 * n)%nat -> length (shorts data) = n.
Proof.
  revert data. induction n as [|n IH]; intros data Hlen.
  - now destruct data.
  - destruct data as [|lo [|hi data]]; try (simpl in Hlen; lia).
    simpl. rewrite IH; [reflexivity | simpl in Hlen; lia].
Qed.

Lemma short_of_bytes_range lo hi : -32768 <= short_of_bytes lo hi <= 32767.
Proof.
  unfold short_of_bytes, byte_val.
  pose proof (Byte.to_N_bounded lo). pose proof (Byte.to_N_bounded hi).
  destruct (Z.ltb_spec (Z.of_N (Byte.to_N lo) + 256 * Z.of_N (Byte.to_N hi)) 32768); lia.
Qed.

Lemma shorts_range (data : list byte) :
  Forall (fun x => -32768 <= x <= 32767) (shorts data).
Proof.
  induction data as [data IH] using (induction_ltof1 _ (@length byte)).
  destruct data as [|lo [|hi data]]; simpl; try constructor.
  - apply short_of_bytes_range.
  - apply IH. unfold ltof. simpl. lia.
Qed.

(** * Reasoning about the monad and the loops *)

Section Loops.

Context {F : Type} {PF : PyFloat F}.
Implicit Types (s : world F) (o : TerrainWaveFile F) (w : Wave_read).

Lemma bind_Ok {A B} (m : M F A) (f : A -> M F B) s s' a :
  m s = (s', Ok a) -> (m ≫= f) s = f a s'.
Proof. intros E. unfold mbind, M_bind. now rewrite E. Qed.

Lemma bind_Raise {A B} (m : M F A) (f : A -> M F B) s s' e :
  m s = (s', Raise e) -> (m ≫= f) s = (s', Raise e).
Proof. intros E. unfold mbind, M_bind. now rewrite E. Qed.

Lemma log_nil s : log s [] = s.
Proof. destruct s; unfold log; simpl. now rewrite app_nil_r. Qed.

Lemma log_log s a b : log (log s a) b = log s (a ++ b).
Proof. unfold log; simpl. now rewrite app_assoc. Qed.

Lemma queue_put_run m s :
  queue_put m s = (log s (puts (queue (self s)) [m]), Ok tt).
Proof.
  unfold queue_put, mbind, M_bind, get_self.
  destruct (queue (self s)); simpl; [reflexivity|].
  now rewrite log_nil.
Qed.

Lemma bind_assoc {A B C} (m : M F A) (f : A -> M F B) (g : B -> M F C) s :
  ((m ≫= f) ≫= g) s = (m ≫= (fun a => f a ≫= g)) s.
Proof. unfold mbind, M_bind. now destruct (m s) as [s1 [a|e]]. Qed.

Lemma bind_ext {A B} (m : M F A) (f g : A -> M F B) s :
  (forall a s', f a s' = g a s') -> (m ≫= f) s = (m ≫= g) s.
Proof. intros H. unfold mbind, M_bind. destruct (m s) as [s1 [a|e]]; auto. Qed.

(** The body of [createheightvals] is its two halves in sequence. *)
Lemma createheightvals_split nvtx vheight negative s :
  createheightvals nvtx vheight negative s
  = (allAmps ← rawAveragedValues nvtx negative;
     scaleToMagnitude allAmps vheight) s.
Proof.
  symmetry. unfold createheightvals, rawAveragedValues.
  repeat (rewrite bind_assoc; apply bind_ext; intros ? ?).
  reflexivity.
Qed.

Lemma with_wave_id o : with_wave o (wave o) = o.
Proof. now destruct o. Qed.

Lemma seek_id w : seek w (chunk_pos w) (_soundpos w) = w.
Proof. now destruct w. Qed.

Lemma len_app {A} (l1 l2 : list A) : len (l1 ++ l2) = len l1 + len l2.
Proof. unfold len. rewrite length_app. lia. Qed.

Lemma getitem_lookup {A} (l : list A) (i : nat) a s :
  l !! i = Some a -> getitem l (Z.of_nat i) s = (s, Ok a).
Proof.
  intros Hl. unfold getitem, len.
  pose proof (lookup_lt_Some _ _ _ Hl) as Hlt.
  assert (E1 : (Z.of_nat i <? 0) = false) by (apply Z.ltb_ge; lia).
  assert (E2 : (Z.of_nat (length l) <=? Z.of_nat i) = false) by (apply Z.leb_gt; lia).
  cbv zeta. rewrite !E1, E2. simpl. rewrite Nat2Z.id, Hl. reflexivity.
Qed.

(** A comprehension [[body(l[i], i) for i in xrange(len(l))]] whose body
    puts [i] on the queue and returns [g (l[i])]. *)
Lemma index_loop_from {A B} (body : A -> Z -> M F B) (g : A -> B) (l : list A) :
  (forall a i s, a ∈ l ->
     body a i s = (log s (puts (queue (self s)) [MInt i]), Ok (g a))) ->
  forall l2 l1 s, l = l1 ++ l2 ->
    mapM (fun i => a ← getitem l i; body a i) (seqZ (len l1) (len l2)) s
    = (log s (puts (queue (self s)) (map MInt (seqZ (len l1) (len l2)))),
       Ok (map g l2)).
Proof.
  intros Hbody. induction l2 as [|a l2 IH]; intros l1 s Hl.
  - simpl. destruct (queue (self s)); simpl; now rewrite log_nil.
  - rewrite seqZ_cons by (unfold len; simpl; lia).
    replace (Z.pred (len (a :: l2))) with (len l2) by (unfold len; simpl; lia).
    replace (Z.succ (len l1)) with (len (l1 ++ [a])) by (rewrite len_app; unfold len; simpl; lia).
    cbn [mapM].
    assert (Hget : getitem l (len l1) s = (s, Ok a)).
    { unfold len at 1. apply getitem_lookup. subst l. rewrite lookup_app_r by lia. rewrite Nat.sub_diag. reflexivity. }
    assert (Hstep : (getitem l (len l1) ≫= (fun a => body a (len l1))) s
                    = (log s (puts (queue (self s)) [MInt (len l1)]), Ok (g a))).
    { rewrite (bind_Ok _ _ _ _ _ Hget). apply Hbody. subst l. set_solver. }
    rewrite (bind_Ok _ _ _ _ _ Hstep).
    rewrite (bind_Ok _ _ _ _ _ (IH (l1 ++ [a]) _ ltac:(subst l; now rewrite <- app_assoc))).
    unfold mret, M_ret. rewrite log_log. simpl. f_equal. f_equal.
    destruct (queue (self s)); reflexivity.
Qed.

Lemma world_eta s : mkWorld (self s) (trace s) = s.
Proof. now destruct s. Qed.

Lemma readframes_run n s :
  n <> 0 -> 0 <= n * _framesize (wave (self s)) ->
  _framesize (wave (self s)) <> 0 ->
  readframes n s =
    let w := wave (self s) in
    let data := take (Z.to_nat (n * _framesize w))
                     (drop (Z.to_nat (chunk_pos w)) (_data_chunk w)) in
    (mkWorld (with_wave (self s)
                (seek w (chunk_pos w + len data)
                        (_soundpos w + len data / _framesize w)))
             (trace s ++ [EReadframes (_soundpos w) n]), Ok data).
Proof.
  intros Hn Hsize Hfs.
  unfold readframes, mbind, M_bind, get_self, emit, set_wave, mret, M_ret.
  simpl. destruct (Z.eqb_spec n 0) as [|_]; [contradiction|].
  destruct (Z.ltb_spec (n * _framesize (wave (self s))) 0); [lia|].
  destruct (Z.eqb_spec (_nchannels (wave (self s)) * _sampwidth (wave (self s))) 0)
    as [E|_]; [contradiction|].
  reflexivity.
Qed.

Lemma readframes_0 s :
  readframes 0 s = (log s [EReadframes (_soundpos (wave (self s))) 0], Ok []).
Proof. reflexivity. Qed.

Lemma parsedata_run i s vs fs p :
  vtxsample (self s) = vs -> _framesize (wave (self s)) = fs ->
  chunk_pos (wave (self s)) = p ->
  1 <= vs -> 1 <= fs -> Z.even fs = true ->
  _unpackstructval (self s) = str_mul "h" (fs / 2) ->
  0 <= p -> p + vs * fs <= len (_data_chunk (wave (self s))) ->
  parsedata i s =
    (mkWorld (with_wave (self s)
                (seek (wave (self s)) (p + vs * fs) (_soundpos (wave (self s)) + vs)))
             (trace s ++ puts (queue (self s)) [MInt i]
                ++ [EReadframes (_soundpos (wave (self s))) vs]),
     Ok (shorts (take (Z.to_nat (vs * fs))
                      (drop (Z.to_nat p) (_data_chunk (wave (self s))))))).
Proof.
  intros Hvs Hfs Hp Hvs1 Hfs1 Heven Hfmt Hp0 Hlen.
  unfold parsedata.
  rewrite (bind_Ok _ _ _ _ _ (queue_put_run _ _)).
  unfold get_self at 1. unfold mbind at 1, M_bind at 1.
  change (self (log s ?e)) with (self s).
  rewrite Hvs, Hfmt.
  assert (Hdata : length (take (Z.to_nat (vs * fs))
             (drop (Z.to_nat p) (_data_chunk (wave (self s))))) = Z.to_nat (vs * fs)).
  { rewrite length_take, length_drop. unfold len in Hlen. nia. }
  rewrite (bind_Ok _ _ _ _ _
             (readframes_run vs (log s (puts (queue (self s)) [MInt i]))
                ltac:(lia) ltac:(simpl; rewrite Hfs; nia)
                ltac:(simpl; rewrite Hfs; lia))).
  cbv zeta. simpl self. simpl trace. rewrite Hfs, Hp.
  unfold len at 1 2. rewrite Hdata.
  rewrite Z2Nat.id by nia.
  replace (vs * fs / fs) with vs by (rewrite Z.div_mul; lia).
  unfold struct_unpack, str_mul. rewrite str_repeat_h_mul.
  rewrite unpack_h.
  - unfold mret, M_ret. rewrite <- app_assoc. reflexivity.
  - rewrite Hdata.
    assert (fs = 2 * (fs / 2)).
    { apply Z.even_spec in Heven. destruct Heven as [k ->].
      assert (2 * k / 2 = k) by (rewrite Z.mul_comm; apply Z.div_mul; lia). lia. }
    nia.
Qed.

(** The reading loop from bucket [j]: [n] reads of [vs] frames, each
    decoded as shorts. *)
Lemma read_loop (n : nat) : forall (j : Z) s vs fs,
  vtxsample (self s) = vs -> _framesize (wave (self s)) = fs ->
  1 <= vs -> 1 <= fs -> Z.even fs = true ->
  _unpackstructval (self s) = str_mul "h" (fs / 2) ->
  0 <= j ->
  chunk_pos (wave (self s)) = j * vs * fs ->
  _soundpos (wave (self s)) = j * vs ->
  (j + Z.of_nat n) * vs * fs <= len (_data_chunk (wave (self s))) ->
  mapM parsedata (seqZ j (Z.of_nat n)) s =
    (mkWorld (with_wave (self s)
                (seek (wave (self s)) ((j + Z.of_nat n) * vs * fs)
                      ((j + Z.of_nat n) * vs)))
             (trace s ++
              flat_map (fun i => puts (queue (self s)) [MInt i]
                                   ++ [EReadframes (i * vs) vs])
                       (seqZ j (Z.of_nat n))),
     Ok (map (fun i => shorts (bucket_bytes (wave (self s)) vs i))
             (seqZ j (Z.of_nat n)))).
Proof.
  induction n as [|n IH]; intros j s vs fs Hvs Hfs Hvs1 Hfs1 Heven Hfmt Hj Hp Hsp Hlen.
  - simpl. rewrite Z.add_0_r, <- Hp, <- Hsp, seek_id, with_wave_id, app_nil_r, world_eta.
    reflexivity.
  - rewrite seqZ_cons by lia.
    replace (Z.pred (Z.of_nat (S n))) with (Z.of_nat n) by lia.
    cbn [mapM flat_map map].
    assert (H1 : 0 <= j * vs * fs) by (repeat apply Z.mul_nonneg_nonneg; lia).
    assert (H2 : 0 <= Z.of_nat n * vs * fs) by (repeat apply Z.mul_nonneg_nonneg; lia).
    assert (H3 : (j + Z.of_nat (S n)) * vs * fs
                 = j * vs * fs + vs * fs + Z.of_nat n * vs * fs)
      by (rewrite Nat2Z.inj_succ; ring).
    assert (H4 : j * vs * fs + vs * fs <= len (_data_chunk (wave (self s))))
      by (rewrite H3 in Hlen; lia).
    assert (H5 : Z.succ j * vs * fs = j * vs * fs + vs * fs) by ring.
    assert (H6 : Z.succ j * vs = j * vs + vs) by ring.
    assert (H7 : (Z.succ j + Z.of_nat n) * vs * fs = (j + Z.of_nat (S n)) * vs * fs)
      by (rewrite Nat2Z.inj_succ; ring).
    assert (H8 : (Z.succ j + Z.of_nat n) * vs = (j + Z.of_nat (S n)) * vs)
      by (rewrite Nat2Z.inj_succ; ring).
    rewrite (bind_Ok _ _ _ _ _
               (parsedata_run j s vs fs (j * vs * fs) Hvs Hfs Hp Hvs1 Hfs1 Heven Hfmt
                  H1 H4)).
    match goal with
    | |- (_ ≫= _) ?s1 = _ => specialize (IH (Z.succ j) s1 vs fs)
    end.
    rewrite (bind_Ok _ _ _ _ _ (IH Hvs Hfs Hvs1 Hfs1 Heven Hfmt
               ltac:(lia) ltac:(simpl; lia) ltac:(simpl; lia)
               ltac:(simpl; rewrite H7; exact Hlen))).
    unfold mret, M_ret. simpl. rewrite Hsp, H7, H8.
    rewrite <- !app_assoc.
    unfold bucket_bytes at 2. rewrite Hfs. simpl.
    reflexivity.
Qed.
Lemma parsedata_empty i s :
  vtxsample (self s) = 0 ->
  parsedata i s =
    (log s (puts (queue (self s)) [MInt i]
            ++ [EReadframes (_soundpos (wave (self s))) 0]), Ok []).
Proof.
  intros Hvs. unfold parsedata.
  rewrite (bind_Ok _ _ _ _ _ (queue_put_run _ _)).
  unfold get_self at 1. unfold mbind at 1, M_bind at 1.
  change (self (log s ?e)) with (self s). rewrite Hvs.
  rewrite (bind_Ok _ _ _ _ _ (readframes_0 _)).
  unfold str_mul. simpl. rewrite log_log. reflexivity.
Qed.

Lemma read_loop_empty (n : nat) : forall (j : Z) s,
  vtxsample (self s) = 0 ->
  mapM parsedata (seqZ j (Z.of_nat n)) s =
    (log s (flat_map (fun i => puts (queue (self s)) [MInt i]
                         ++ [EReadframes (_soundpos (wave (self s))) 0])
              (seqZ j (Z.of_nat n))),
     Ok (replicate n [])).
Proof.
  induction n as [|n IH]; intros j s Hvs.
  - simpl. now rewrite log_nil.
  - rewrite seqZ_cons by lia.
    replace (Z.pred (Z.of_nat (S n))) with (Z.of_nat n) by lia.
    cbn [mapM flat_map replicate].
    rewrite (bind_Ok _ _ _ _ _ (parsedata_empty j s Hvs)).
    match goal with
    | |- (_ ≫= _) ?s1 = _ => specialize (IH (Z.succ j) s1)
    end.
    rewrite (bind_Ok _ _ _ _ _ (IH Hvs)).
    unfold mret, M_ret. rewrite log_log. reflexivity.
Qed.

Lemma convertAbsolute_run amps i s :
  convertAbsolute amps i s =
    (log s (puts (queue (self s)) [MInt i]), Ok (map Z.abs amps)).
Proof.
  unfold convertAbsolute.
  rewrite (bind_Ok _ _ _ _ _ (queue_put_run _ _)).
  unfold mret, M_ret. do 2 f_equal.
  apply map_ext. intros x. unfold Z.lnot.
  destruct (Z.ltb_spec x 0); lia.
Qed.

Lemma averageAmps_run amps i s :
  amps <> [] ->
  averageAmps amps i s =
    (log s (puts (queue (self s)) [MInt i]), Ok (py_sum amps / len amps)).
Proof.
  intros Hne. unfold averageAmps.
  rewrite (bind_Ok _ _ _ _ _ (queue_put_run _ _)).
  destruct (Z.eqb_spec (len amps) 0) as [E|_]; [|reflexivity].
  destruct amps; [contradiction | discriminate].
Qed.

Lemma averageAmps_empty i s :
  averageAmps [] i s =
    (log s (puts (queue (self s)) [MInt i]),
     Raise (ZeroDivisionError "integer division or modulo by zero")).
Proof.
  unfold averageAmps.
  now rewrite (bind_Ok _ _ _ _ _ (queue_put_run _ _)).
Qed.

Lemma relativeScale_run a hRatio i s :
  relativeScale a hRatio i s =
    (log s (puts (queue (self s)) [MInt i]),
     Ok (float_mul (float_of_int a) hRatio)).
Proof.
  unfold relativeScale.
  now rewrite (bind_Ok _ _ _ _ _ (queue_put_run _ _)).
Qed.

Lemma index_loop {A B} (body : A -> Z -> M F B) (g : A -> B) (l : list A) s :
  (forall a i s, a ∈ l ->
     body a i s = (log s (puts (queue (self s)) [MInt i]), Ok (g a))) ->
  mapM (fun i => a ← getitem l i; body a i) (xrange (len l)) s
  = (log s (puts (queue (self s)) (map MInt (xrange (len l)))), Ok (map g l)).
Proof.
  intros Hbody. apply (index_loop_from body g l Hbody l [] s). reflexivity.
Qed.

Lemma len_map {A B} (f : A -> B) l : len (map f l) = len l.
Proof. unfold len. now rewrite length_map. Qed.

Lemma len_xrange n : 0 <= n -> len (xrange n) = n.
Proof. intros. unfold len, xrange. rewrite length_seqZ. lia. Qed.

Lemma bucket_bytes_length w vs i n :
  1 <= _framesize w -> 0 <= vs -> 0 <= i < n ->
  n * vs * _framesize w <= len (_data_chunk w) ->
  length (bucket_bytes w vs i) = Z.to_nat (vs * _framesize w).
Proof.
  intros Hfs Hvs Hi Hlen. unfold bucket_bytes.
  rewrite length_take, length_drop. unfold len in Hlen.
  revert Hfs Hlen. generalize (_framesize w). intros fs Hfs Hlen.
  assert (0 <= i * vs * fs) by (repeat apply Z.mul_nonneg_nonneg; lia).
  assert (0 <= vs * fs) by (apply Z.mul_nonneg_nonneg; lia).
  assert (H1 : (i + 1) * (vs * fs) <= n * (vs * fs))
    by (apply Z.mul_le_mono_nonneg_r; lia).
  replace ((i + 1) * (vs * fs))
    with (i * vs * fs + vs * fs) in H1 by ring.
  replace (n * (vs * fs)) with (n * vs * fs) in H1 by ring.
  lia.
Qed.

Lemma bucket_samples_nonempty w vs i n :
  1 <= _framesize w -> Z.even (_framesize w) = true -> 1 <= vs -> 0 <= i < n ->
  n * vs * _framesize w <= len (_data_chunk w) ->
  bucket_samples w vs i <> [].
Proof.
  intros Hfs Heven Hvs Hi Hlen E.
  pose proof (bucket_bytes_length w vs i n Hfs ltac:(lia) Hi Hlen) as Hb.
  apply Z.even_spec in Heven. destruct Heven as [k Hk].
  assert (Hl : length (bucket_bytes w vs i) = (2 * Z.to_nat (vs * k))%nat).
  { rewrite Hb, Hk. nia. }
  apply shorts_length in Hl. unfold bucket_samples in E. rewrite E in Hl.
  simpl in Hl. nia.
Qed.

Lemma stage_eq q label n :
  stage q label n = puts q [MTuple label n] ++ puts q (map MInt (xrange n)).
Proof. unfold stage. now destruct q. Qed.

Lemma elem_of_buckets w vs n (a : list Z) :
  1 <= _framesize w -> Z.even (_framesize w) = true -> 1 <= vs -> 0 <= n ->
  n * vs * _framesize w <= len (_data_chunk w) ->
  a ∈ map (fun i => bucket_samples w vs i) (xrange n) -> a <> [].
Proof.
  intros Hfs Heven Hvs Hn Hlen Hin.
  apply list_elem_of_In, in_map_iff in Hin. destruct Hin as (i & <- & Hi).
  apply list_elem_of_In, elem_of_seqZ in Hi.
  apply (bucket_samples_nonempty w vs i n); auto; lia.
Qed.

(** The first half computes the bucket means of the specification. *)
Lemma rawAveragedValues_run nvtx negative s vs :
  float_is_zero (float_of_int nvtx) = false ->
  float_trunc (float_div (float_of_int (_nframes (wave (self s))))
                         (float_of_int nvtx)) = vs ->
  opened (self s) -> Z.even (_framesize (wave (self s))) = true ->
  1 <= nvtx -> 1 <= vs -> nvtx * vs <= _nframes (wave (self s)) ->
  rawAveragedValues nvtx negative s =
    (after_pass s nvtx vs
       (reading (queue (self s)) nvtx vs
        ++ (if negative then []
            else stage (queue (self s)) "Converting all Values to Positive" nvtx)
        ++ stage (queue (self s)) "Averaging Amplitude values" nvtx),
     Ok (map (fun i => bucket_mean negative (bucket_samples (wave (self s)) vs i))
             (xrange nvtx))).
Proof.
  intros Hz Htr [(Hnch & Hsw & Hnf & Hdata) Hfmt] Heven Hn Hvs Hfit.
  set (w := wave (self s)) in *. set (q := queue (self s)).
  assert (Hfs : 1 <= _framesize w) by (unfold _framesize; nia).
  assert (Hlen : nvtx * vs * _framesize w <= len (_data_chunk w)).
  { transitivity (_nframes w * _framesize w); [|exact Hdata].
    apply Z.mul_le_mono_nonneg_r; lia. }
  unfold rawAveragedValues.
  erewrite bind_Ok by reflexivity.
  erewrite bind_Ok by reflexivity.
  cbn [self wave with_wave _nframes seek].
  fold w. unfold py_float_div. rewrite Hz.
  erewrite bind_Ok by reflexivity. rewrite Htr.
  erewrite bind_Ok by reflexivity.
  erewrite bind_Ok by apply queue_put_run.
  cbn [self trace queue with_vtxsample with_wave log]. fold q.
  unfold xrange at 1. rewrite <- (Z2Nat.id nvtx) at 1 by lia.
  erewrite bind_Ok; cycle 1.
  { apply (read_loop (Z.to_nat nvtx) 0 _ vs (_framesize w)); cbn;
      try reflexivity; try assumption; lia. }
  cbn [self trace queue with_vtxsample with_wave wave seek
       _nchannels _sampwidth _framerate _nframes _data_chunk].
  rewrite Z2Nat.id by lia. rewrite Z.add_0_l. fold q. fold (xrange nvtx).
  change (fun i => shorts (bucket_bytes ?w' vs i))
    with (fun i => bucket_samples w vs i).
  set (allAmps := map (fun i => bucket_samples w vs i) (xrange nvtx)).
  assert (Hall : len allAmps = nvtx).
  { unfold allAmps. rewrite len_map. apply len_xrange. lia. }
  assert (Hne : forall a, a ∈ allAmps -> a <> []).
  { intros a. apply elem_of_buckets; auto; lia. }
  simpl_world. fold q.
  destruct negative; cbn [negb].
  - erewrite bind_Ok by reflexivity.
    erewrite bind_Ok by apply queue_put_run.
    rewrite (index_loop averageAmps (fun a => py_sum a / len a) allAmps).
    2:{ intros a i s0 Hin. apply averageAmps_run. now apply Hne. }
    simpl_world. fold q.
    rewrite Hall. unfold after_pass, reading. fold w q.
    rewrite stage_eq, <- !app_assoc.
    f_equal.
    + unfold log; cbn [self trace app]. now rewrite <- !app_assoc.
    + unfold allAmps. rewrite map_map. reflexivity.
  - erewrite bind_Ok; cycle 1.
    { erewrite bind_Ok by apply queue_put_run.
      apply (index_loop convertAbsolute (map Z.abs) allAmps).
      intros a i s0 _. apply convertAbsolute_run. }
    erewrite bind_Ok by apply queue_put_run.
    rewrite (index_loop averageAmps (fun a => py_sum a / len a) (map (map Z.abs) allAmps)).
    2:{ intros a i s0 Hin. apply averageAmps_run.
        apply list_elem_of_In, in_map_iff in Hin. destruct Hin as (b & <- & Hb).
        apply list_elem_of_In, Hne in Hb. now destruct b. }
    simpl_world. fold q.
    rewrite len_map, Hall. unfold after_pass, reading. fold w q.
    rewrite !stage_eq, <- !app_assoc.
    f_equal.
    + unfold log; cbn [self trace app]. now rewrite <- !app_assoc.
    + unfold allAmps. rewrite !map_map. f_equal.
      apply map_ext. intros i. unfold bucket_mean. now rewrite len_map.
Qed.
Lemma scaleToMagnitude_run allAmps vheight s :
  allAmps <> [] ->
  float_is_zero (float_of_int (maximum allAmps)) = false ->
  scaleToMagnitude allAmps vheight s =
    (log s (stage (queue (self s)) "Scaling to Magnitude Value" (len allAmps)),
     Ok (heights vheight allAmps)).
Proof.
  intros Hne Hz. unfold scaleToMagnitude.
  destruct allAmps as [|x l]; [contradiction|].
  erewrite bind_Ok by reflexivity.
  unfold py_float_div. change (fold_left Z.max l x) with (maximum (x :: l)).
  rewrite Hz.
  erewrite bind_Ok by reflexivity.
  erewrite bind_Ok by apply queue_put_run.
  rewrite (index_loop
             (fun a i => relativeScale a
                (float_div vheight (float_of_int (maximum (x :: l)))) i)
             (fun a => float_mul (float_of_int a)
                (float_div vheight (float_of_int (maximum (x :: l)))))
             (x :: l)).
  2:{ intros a i s0 _. apply relativeScale_run. }
  rewrite log_log, stage_eq. reflexivity.
Qed.

Lemma scaleToMagnitude_zero allAmps vheight s :
  allAmps <> [] ->
  float_is_zero (float_of_int (maximum allAmps)) = true ->
  scaleToMagnitude allAmps vheight s =
    (s, Raise (ZeroDivisionError "float division by zero")).
Proof.
  intros Hne Hz. unfold scaleToMagnitude.
  destruct allAmps as [|x l]; [contradiction|].
  erewrite bind_Ok by reflexivity.
  unfold py_float_div. change (fold_left Z.max l x) with (maximum (x :: l)).
  rewrite Hz. reflexivity.
Qed.

Lemma after_pass_log s n vs evs evs' :
  log (after_pass s n vs evs) evs' = after_pass s n vs (evs ++ evs').
Proof. unfold log, after_pass. cbn [self trace]. now rewrite app_assoc. Qed.

Lemma xrange_nonempty n : 1 <= n -> xrange n <> [].
Proof. intros Hn E. apply (f_equal length) in E. unfold xrange in E.
  rewrite length_seqZ in E. simpl in E. lia. Qed.

Lemma createheightvals_run nvtx vheight negative s vs :
  float_is_zero (float_of_int nvtx) = false ->
  float_trunc (float_div (float_of_int (_nframes (wave (self s))))
                         (float_of_int nvtx)) = vs ->
  opened (self s) -> Z.even (_framesize (wave (self s))) = true ->
  1 <= nvtx -> 1 <= vs -> nvtx * vs <= _nframes (wave (self s)) ->
  let avgs := map (fun i => bucket_mean negative
                              (bucket_samples (wave (self s)) vs i))
                  (xrange nvtx) in
  createheightvals nvtx vheight negative s =
    if float_is_zero (float_of_int (maximum avgs))
    then (after_pass s nvtx vs
            (reading (queue (self s)) nvtx vs
             ++ (if negative then []
                 else stage (queue (self s)) "Converting all Values to Positive" nvtx)
             ++ stage (queue (self s)) "Averaging Amplitude values" nvtx),
          Raise (ZeroDivisionError "float division by zero"))
    else (after_pass s nvtx vs (sampling (queue (self s)) nvtx vs negative),
          Ok (heights vheight avgs)).
Proof.
  intros Hz Htr Hop Heven Hn Hvs Hfit avgs. rewrite createheightvals_split.
  rewrite (bind_Ok _ _ _ _ _
             (rawAveragedValues_run nvtx negative s vs Hz Htr Hop Heven Hn Hvs Hfit)).
  fold avgs.
  assert (Hne : avgs <> []).
  { unfold avgs. intros E. apply map_eq_nil in E. now apply xrange_nonempty in E. }
  destruct (float_is_zero (float_of_int (maximum avgs))) eqn:Hm.
  - now rewrite scaleToMagnitude_zero.
  - rewrite scaleToMagnitude_run by assumption.
    rewrite after_pass_log. cbn [self after_pass queue with_wave with_vtxsample].
    replace (len avgs) with nvtx.
    2:{ unfold avgs. rewrite len_map, len_xrange; lia. }
    unfold sampling. now rewrite <- !app_assoc.
Qed.

End Loops.

(** ** Exact arithmetic *)

Lemma Qtrunc_div_int n v :
  v <> 0 -> Qtrunc (inject_Z n / inject_Z v) = Z.quot n v.
Proof.
  intros Hv. unfold Qtrunc, Qdiv, Qinv, inject_Z. simpl.
  destruct v as [|p|p]; [contradiction| |]; simpl.
  - now rewrite Z.mul_1_r.
  - replace (n * Z.neg 1) with (- n) by lia.
    change (Z.neg p) with (- Z.pos p).
    now rewrite Z.quot_opp_l, Z.quot_opp_r by lia.
Qed.

Lemma Q_is_zero_0 : float_is_zero (F:=Q) (float_of_int 0) = true.
Proof. reflexivity. Qed.

Lemma Q_is_zero_int n :
  n <> 0 -> float_is_zero (F:=Q) (float_of_int n) = false.
Proof. intros H. now apply Z.eqb_neq. Qed.

Lemma framesPerBucket_Q_small (w : Wave_read) nvtx :
  0 <= _nframes w < nvtx ->
  float_trunc (F:=Q) (float_div (float_of_int (_nframes w)) (float_of_int nvtx)) = 0.
Proof.
  intros Hn.
  change (Qtrunc (inject_Z (_nframes w) / inject_Z nvtx) = 0).
  rewrite Qtrunc_div_int by lia. apply Z.quot_small. lia.
Qed.

Lemma framesPerBucket_Q (w : Wave_read) nvtx :
  0 <= _nframes w -> 1 <= nvtx ->
  float_trunc (F:=Q) (float_div (float_of_int (_nframes w)) (float_of_int nvtx))
  = framesPerBucket w nvtx.
Proof.
  intros Hnf Hn.
  change (Qtrunc (inject_Z (_nframes w) / inject_Z nvtx) = framesPerBucket w nvtx).
  rewrite Qtrunc_div_int by lia.
  unfold framesPerBucket. apply Z.quot_div_nonneg; lia.
Qed.

Lemma framesPerBucket_fits (w : Wave_read) nvtx :
  1 <= nvtx <= _nframes w ->
  1 <= framesPerBucket w nvtx /\ nvtx * framesPerBucket w nvtx <= _nframes w.
Proof.
  intros Hn. unfold framesPerBucket. split.
  - assert (0 < _nframes w / nvtx) by (apply Z.div_str_pos; lia). lia.
  - apply Z.mul_div_le. lia.
Qed.

(** The outcome of a call on a decodable stream, in exact arithmetic:
    [ZeroDivisionError] at the ratio when the largest raw averaged value is
    0, the scaled values of the specification's buckets otherwise. *)
Lemma createheightvals_Q nvtx (vheight : Q) negative (s : world Q) :
  opened (self s) -> Z.even (_framesize (wave (self s))) = true ->
  1 <= nvtx <= _nframes (wave (self s)) ->
  let w := wave (self s) in
  let vs := framesPerBucket w nvtx in
  let avgs := spec_rawAveragedValues w nvtx negative in
  createheightvals nvtx vheight negative s =
    if maximum avgs =? 0
    then (after_pass s nvtx vs
            (reading (queue (self s)) nvtx vs
             ++ (if negative then []
                 else stage (queue (self s)) "Converting all Values to Positive" nvtx)
             ++ stage (queue (self s)) "Averaging Amplitude values" nvtx),
          Raise (ZeroDivisionError "float division by zero"))
    else (after_pass s nvtx vs (sampling (queue (self s)) nvtx vs negative),
          Ok (heights vheight avgs)).
Proof.
  intros Hop Heven Hn w vs avgs.
  destruct (framesPerBucket_fits w nvtx Hn) as [Hvs Hfit].
  assert (Hz : float_is_zero (F:=Q) (float_of_int nvtx) = false)
    by (apply Z.eqb_neq; cbn; lia).
  exact (createheightvals_run nvtx vheight negative s vs Hz
           (framesPerBucket_Q w nvtx ltac:(apply Hop) ltac:(lia))
           Hop Heven ltac:(lia) Hvs Hfit).
Qed.

(** ** Sums and maxima *)

Lemma fold_left_max_ge (l : list Z) : forall x,
  x <= fold_left Z.max l x /\ Forall (fun y => y <= fold_left Z.max l x) l.
Proof.
  induction l as [|y l IH]; intros x; simpl.
  - split; [lia | constructor].
  - destruct (IH (Z.max x y)) as [H1 H2]. split; [lia|].
    constructor; [lia | exact H2].
Qed.

Lemma fold_left_max_in (l : list Z) : forall x,
  fold_left Z.max l x = x \/ In (fold_left Z.max l x) l.
Proof.
  induction l as [|y l IH]; intros x; simpl; [now left|].
  destruct (IH (Z.max x y)) as [H|H]; [|now right; right].
  rewrite H. destruct (Z.max_spec x y) as [[_ E]|[_ E]]; rewrite E; auto.
Qed.

Lemma maximum_ge (l : list Z) : Forall (fun y => y <= maximum l) l.
Proof.
  destruct l as [|x l]; [constructor|]. simpl.
  destruct (fold_left_max_ge l x). now constructor.
Qed.

Lemma maximum_in (l : list Z) : l <> [] -> In (maximum l) l.
Proof.
  destruct l as [|x l]; [contradiction|]. intros _. simpl.
  destruct (fold_left_max_in l x) as [H|H]; [left; now rewrite H | now right].
Qed.

Lemma fold_left_add (l : list Z) : forall a,
  fold_left Z.add l a = a + fold_left Z.add l 0.
Proof.
  induction l as [|x l IH]; intros a; simpl; [lia|].
  rewrite (IH (a + x)), (IH (0 + x)). lia.
Qed.

Lemma py_sum_cons x (l : list Z) : py_sum (x :: l) = x + py_sum l.
Proof. unfold py_sum. simpl. apply fold_left_add. Qed.

Lemma py_sum_nonneg (l : list Z) : Forall (fun x => 0 <= x) l -> 0 <= py_sum l.
Proof.
  induction 1 as [|x l Hx _ IH]; [reflexivity|]. rewrite py_sum_cons. lia.
Qed.


Lemma bucket_mean_nonneg b : 0 <= bucket_mean false b.
Proof.
  unfold bucket_mean. apply Z_div_nonneg_nonneg; [|unfold len; lia].
  apply py_sum_nonneg. apply List.Forall_forall. intros x Hx.
  apply in_map_iff in Hx. destruct Hx as (y & <- & _). lia.
Qed.

(** ** Magnitude of the output, in exact arithmetic *)

Lemma inject_Z_pos z : 0 < z -> (0 < inject_Z z)%Q.
Proof. intros H. unfold Qlt. simpl. lia. Qed.

Lemma inject_Z_nonneg z : 0 <= z -> (0 <= inject_Z z)%Q.
Proof. intros H. unfold Qle. simpl. lia. Qed.

Lemma inject_Z_nonzero z : z <> 0 -> ~ (inject_Z z == 0)%Q.
Proof. intros H E. unfold Qeq in E. simpl in E. lia. Qed.

Lemma heights_le (vheight : Q) (l : list Z) :
  (0 < vheight)%Q -> 0 < maximum l ->
  Forall (fun h => h <= vheight)%Q (heights vheight l).
Proof.
  intros Hv Hm. unfold heights. apply List.Forall_forall. intros h Hh.
  apply in_map_iff in Hh. destruct Hh as (a & <- & Ha).
  pose proof (proj1 (List.Forall_forall _ _) (maximum_ge l) a Ha) as Hle; cbv beta in Hle.
  cbn [float_mul float_div float_of_int Q_float].
  assert (HM : (0 < inject_Z (maximum l))%Q) by (apply inject_Z_pos; lia).
  assert (Ha' : (inject_Z a <= inject_Z (maximum l))%Q) by (now rewrite <- Zle_Qle).
  assert (Hr : (0 < vheight / inject_Z (maximum l))%Q) by (apply Qlt_shift_div_l; [exact HM | lra]).
  apply Qle_trans with (inject_Z (maximum l) * (vheight / inject_Z (maximum l)))%Q.
  - apply Qmult_le_compat_r; [exact Ha' | apply Qlt_le_weak; exact Hr].
  - assert (E : (inject_Z (maximum l) * (vheight / inject_Z (maximum l)) == vheight)%Q)
      by (field; lra).
    rewrite E. apply Qle_refl.
Qed.

Lemma heights_nonneg (vheight : Q) (l : list Z) :
  (0 < vheight)%Q -> 0 < maximum l -> Forall (fun a => 0 <= a) l ->
  Forall (fun h => 0 <= h)%Q (heights vheight l).
Proof.
  intros Hv Hm Hl. unfold heights. apply List.Forall_forall. intros h Hh.
  apply in_map_iff in Hh. destruct Hh as (a & <- & Ha).
  pose proof (proj1 (List.Forall_forall _ _) Hl a Ha) as Hle; cbv beta in Hle.
  cbn [float_mul float_div float_of_int Q_float].
  assert (HM : (0 < inject_Z (maximum l))%Q) by (apply inject_Z_pos; lia).
  assert (Ha' : (0 <= inject_Z a)%Q) by (apply inject_Z_nonneg; lia).
  assert (Hr : (0 < vheight / inject_Z (maximum l))%Q) by (apply Qlt_shift_div_l; [exact HM | lra]).
  apply Qmult_le_0_compat; [exact Ha' | apply Qlt_le_weak; exact Hr].
Qed.

Lemma heights_attained (vheight : Q) (l : list Z) :
  l <> [] -> maximum l <> 0 ->
  Exists (fun h => h == vheight)%Q (heights vheight l).
Proof.
  intros Hne Hm. unfold heights. apply List.Exists_exists.
  exists (inject_Z (maximum l) * (vheight / inject_Z (maximum l)))%Q. split.
  - apply in_map_iff. exists (maximum l). split; [reflexivity | now apply maximum_in].
  - field. now apply inject_Z_nonzero.
Qed.

Lemma heights_ge (vheight : Q) (l : list Z) :
  (0 < vheight)%Q -> maximum l < 0 ->
  Forall (fun h => vheight <= h)%Q (heights vheight l).
Proof.
  intros Hv Hm. unfold heights. apply List.Forall_forall. intros h Hh.
  apply in_map_iff in Hh. destruct Hh as (a & <- & Ha).
  pose proof (proj1 (List.Forall_forall _ _) (maximum_ge l) a Ha) as Hle; cbv beta in Hle.
  cbn [float_mul float_div float_of_int Q_float].
  set (M := inject_Z (maximum l)).
  assert (HM : (M < 0)%Q) by (unfold M, Qlt; simpl; lia).
  assert (Ha' : (inject_Z a <= M)%Q) by (unfold M; now rewrite <- Zle_Qle).
  assert (E : (M * (vheight / M) == vheight)%Q) by (field; lra).
  assert (Hr : (vheight / M < 0)%Q).
  { apply Qnot_le_lt. intros Hge.
    assert (H0 : (M * (vheight / M) <= 0)%Q).
    { rewrite <- (Qmult_0_l (vheight / M)).
      apply Qmult_le_compat_r; [apply Qlt_le_weak; exact HM | exact Hge]. }
    rewrite E in H0. lra. }
  revert E Hr. generalize (vheight / M)%Q. intros r E Hr.
  generalize dependent (inject_Z a). intros x Hx. nra.
Qed.

Example song_1_m5_init q : __init__ wave_1_m5 q = Ok (song_1_m5 q).
Proof. reflexivity. Qed.

(** [__init__] on a well-formed reader gives an opened object; every
    16-bit stream has an even frame size. *)
Lemma __init___opened {F} `{PyFloat F} (w : Wave_read) q (o : TerrainWaveFile F) :
  wf_wave w -> __init__ w q = Ok o -> opened o.
Proof.
  intros Hwf. unfold __init__.
  destruct (float_is_zero (float_of_int (_framerate w))); [discriminate|].
  intros [= <-]. split; [exact Hwf | reflexivity].
Qed.

Lemma sampwidth_2_even (w : Wave_read) :
  _sampwidth w = 2 -> Z.even (_framesize w) = true.
Proof.
  intros H. unfold _framesize. rewrite H, Z.even_mul. apply orb_true_r.
Qed.

Lemma spec_rawAveragedValues_nonempty w nvtx negative :
  1 <= nvtx -> spec_rawAveragedValues w nvtx negative <> [].
Proof.
  intros Hn E. apply map_eq_nil in E. now apply xrange_nonempty in E.
Qed.

Lemma spec_rawAveragedValues_len w nvtx negative :
  0 <= nvtx -> len (spec_rawAveragedValues w nvtx negative) = nvtx.
Proof.
  intros Hn. unfold spec_rawAveragedValues. now rewrite len_map, len_xrange.
Qed.

Lemma spec_rawAveragedValues_nonneg w nvtx :
  Forall (fun a => 0 <= a) (spec_rawAveragedValues w nvtx false).
Proof.
  apply List.Forall_forall. intros a Ha. apply in_map_iff in Ha.
  destruct Ha as (i & <- & _). apply bucket_mean_nonneg.
Qed.

(** ** Frames of odd size: the state left *)

Section OddRun.
Context {F : Type} {PF : PyFloat F}.
Implicit Types (s : world F).

(** A frame of odd size cannot be unpacked as shorts: the bucket is read,
    the cursor moves past it, and [struct.unpack] raises. *)
Lemma parsedata_odd_run i s vs :
  opened (self s) -> Z.even (_framesize (wave (self s))) = false ->
  vtxsample (self s) = vs -> 1 <= vs ->
  chunk_pos (wave (self s)) = 0 ->
  vs * _framesize (wave (self s)) <= len (_data_chunk (wave (self s))) ->
  parsedata i s =
    (mkWorld (with_wave (self s)
                (seek (wave (self s)) (vs * _framesize (wave (self s)))
                      (_soundpos (wave (self s)) + vs)))
             (trace s ++ puts (queue (self s)) [MInt i]
                ++ [EReadframes (_soundpos (wave (self s))) vs]),
     Raise (struct_error "unpack requires a string argument of the format's size")).
Proof.
  intros [(Hnch & Hsw & Hnf & Hdata) Hfmt] Hodd Hvs Hvs1 Hp Hlen.
  assert (Hfs : 1 <= _framesize (wave (self s))) by (unfold _framesize; nia).
  assert (H0 : 0 <= vs * _framesize (wave (self s))) by nia.
  unfold parsedata.
  rewrite (bind_Ok _ _ _ _ _ (queue_put_run _ _)).
  unfold get_self at 1. unfold mbind at 1, M_bind at 1.
  change (self (log s ?e)) with (self s).
  rewrite Hvs, Hfmt.
  rewrite (bind_Ok _ _ _ _ _
             (readframes_run vs (log s (puts (queue (self s)) [MInt i]))
                ltac:(lia) H0 ltac:(simpl; lia))).
  cbv zeta. simpl self. simpl trace. rewrite Hp.
  assert (Hdata' : length (take (Z.to_nat (vs * _framesize (wave (self s))))
             (drop (Z.to_nat 0) (_data_chunk (wave (self s)))))
             = Z.to_nat (vs * _framesize (wave (self s)))).
  { rewrite length_take, length_drop. unfold len in Hlen. lia. }
  unfold struct_unpack, str_mul. rewrite str_repeat_h_mul.
  rewrite unpack_h_mismatch.
  - unfold raise. unfold len at 1 2. rewrite Hdata'.
    rewrite Z2Nat.id by lia.
    replace (vs * _framesize (wave (self s)) / _framesize (wave (self s))) with vs
      by (rewrite Z.div_mul; lia).
    rewrite Z.add_0_l, <- app_assoc. reflexivity.
  - rewrite Hdata'.
    fold (_framesize (wave (self s))).
    assert (Hq : _framesize (wave (self s)) = 2 * (_framesize (wave (self s)) / 2) + 1).
    { rewrite <- Z.negb_odd in Hodd. apply negb_false_iff in Hodd.
      apply Z.odd_spec in Hodd. destruct Hodd as [k Hk]. rewrite Hk at 2.
      replace (2 * k + 1) with (1 + k * 2) by lia.
      rewrite Z.div_add by lia. change (1 / 2) with 0. lia. }
    nia.
Qed.

End OddRun.

(** The outcome of a call on a stream of odd frame size (8-bit mono, for
    one), in exact arithmetic: [struct.error] at the first bucket, after
    its [readframes]. *)
Lemma createheightvals_odd_run nvtx (vheight : Q) negative (s : world Q) :
  opened (self s) -> Z.even (_framesize (wave (self s))) = false ->
  1 <= nvtx <= _nframes (wave (self s)) ->
  createheightvals nvtx vheight negative s =
    (after_odd s nvtx (framesPerBucket (wave (self s)) nvtx),
     Raise (struct_error "unpack requires a string argument of the format's size")).
Proof.
  intros Hop Hodd Hn.
  destruct (framesPerBucket_fits (wave (self s)) nvtx Hn) as [Hvs Hfit].
  assert (Hz : float_is_zero (F:=Q) (float_of_int nvtx) = false)
    by (apply Z.eqb_neq; cbn; lia).
  pose proof (framesPerBucket_Q (wave (self s)) nvtx
                ltac:(apply Hop) ltac:(lia)) as Htr.
  set (vs := framesPerBucket (wave (self s)) nvtx) in *.
  set (s1 := log (mkWorld (with_vtxsample (with_wave (self s) (seek (wave (self s)) 0 0)) vs)
                    (trace s))
                 (puts (queue (self s)) [MTuple "Reading WAV Data" nvtx])).
  pose proof (parsedata_odd_run 0 s1 vs) as Hparse.
  specialize (Hparse Hop Hodd eq_refl Hvs eq_refl).
  assert (Hlen : vs * _framesize (wave (self s1)) <= len (_data_chunk (wave (self s1)))).
  { destruct Hop as [(Hnch & Hsw & Hnf & Hdata) _].
    cbn. unfold len, _framesize in *.
    transitivity (_nframes (wave (self s)) * (_nchannels (wave (self s)) * _sampwidth (wave (self s))));
      [|exact Hdata].
    apply Z.mul_le_mono_nonneg_r; nia. }
  specialize (Hparse Hlen).
  rewrite createheightvals_split. unfold rawAveragedValues.
  erewrite bind_Raise; [reflexivity|].
  erewrite bind_Ok by reflexivity.
  erewrite bind_Ok by reflexivity.
  cbn [self wave with_wave _nframes seek].
  unfold py_float_div. rewrite Hz.
  erewrite bind_Ok by reflexivity. rewrite Htr.
  erewrite bind_Ok by reflexivity.
  erewrite bind_Ok by apply queue_put_run.
  cbn [self trace queue with_vtxsample with_wave]. fold s1.
  erewrite bind_Raise; [reflexivity|].
  change (xrange nvtx) with (seqZ 0 nvtx). rewrite (seqZ_cons 0 nvtx) by lia.
  cbn [mapM]. erewrite bind_Raise; [reflexivity|].
  rewrite Hparse. unfold after_odd, s1. cbn.
  f_equal. f_equal.
  rewrite <- !app_assoc. f_equal. destruct (queue (self s)); reflexivity.
Qed.




(** C1, as the code has it.  On a decodable, non-silent stream with
    [1 <= nvtx <= _nframes] and [vheight > 0] the call returns, and one
    of the values equals [vheight] (in exact arithmetic).  Without
    [negative] every value lies in [[0, vheight]].  With [negative] the
    ratio is taken against [max(allAmps)], the largest signed mean:
    [vheight] is the maximum of the values when that mean is positive and
    their minimum when it is negative (the docstring's "maximum or minimum
    value of 'vheight'"), and nothing confines the values to
    [[- vheight, vheight]]. *)
Theorem createheightvals_magnitude nvtx (vheight : Q) negative (s : world Q) :
  opened (self s) -> Z.even (_framesize (wave (self s))) = true ->
  1 <= nvtx <= _nframes (wave (self s)) ->
  (0 < vheight)%Q ->
  maximum (spec_rawAveragedValues (wave (self s)) nvtx negative) <> 0 ->
  exists s' hs,
    createheightvals nvtx vheight negative s = (s', Ok hs) /\
    Exists (fun h => h == vheight)%Q hs /\
    (negative = false -> Forall (fun h => 0 <= h /\ h <= vheight)%Q hs) /\
    (0 < maximum (spec_rawAveragedValues (wave (self s)) nvtx negative) ->
     Forall (fun h => h <= vheight)%Q hs) /\
    (maximum (spec_rawAveragedValues (wave (self s)) nvtx negative) < 0 ->
     Forall (fun h => vheight <= h)%Q hs).
Proof.
  intros Hop Heven Hn Hv Hmax.
  rewrite (createheightvals_Q nvtx vheight negative s Hop Heven Hn).
  pose proof Hmax as Hmax'. apply Z.eqb_neq in Hmax'. rewrite Hmax'.
  eexists _, _. split; [reflexivity|].
  set (avgs := spec_rawAveragedValues (wave (self s)) nvtx negative) in *.
  assert (Hne : avgs <> []) by (apply spec_rawAveragedValues_nonempty; lia).
  split; [now apply heights_attained|]. split.
  - intros ->.
    pose proof (spec_rawAveragedValues_nonneg (wave (self s)) nvtx) as Hnn. fold avgs in Hnn.
    assert (Hpos : 0 < maximum avgs).
    { pose proof (maximum_in avgs Hne) as Hin.
      pose proof (proj1 (List.Forall_forall _ _) Hnn _ Hin) as H0. cbv beta in H0. lia. }
    pose proof (heights_nonneg vheight avgs Hv Hpos Hnn) as H1.
    pose proof (heights_le vheight avgs Hv Hpos) as H2.
    apply List.Forall_forall. intros h Hh. split.
    + exact (proj1 (List.Forall_forall _ _) H1 h Hh).
    + exact (proj1 (List.Forall_forall _ _) H2 h Hh).
  - split; intros Hsign; [now apply heights_le | now apply heights_ge].
Qed.

Lemma createheightvals_magnitude_witness :
  exists s' hs,
    createheightvals 2 (3 # 1) false (mkWorld (song_1_m5 (Some 0%nat)) [])
    = (s', Ok hs) /\
    Exists (fun h => h == 3 # 1)%Q hs /\
    (false = false -> Forall (fun h => 0 <= h /\ h <= 3 # 1)%Q hs) /\
    (0 < maximum (spec_rawAveragedValues wave_1_m5 2 false) ->
     Forall (fun h => h <= 3 # 1)%Q hs) /\
    (maximum (spec_rawAveragedValues wave_1_m5 2 false) < 0 ->
     Forall (fun h => 3 # 1 <= h)%Q hs).
Proof.
  apply createheightvals_magnitude.
  - opened_by_computation.
  - reflexivity.
  - split; vm_compute; discriminate.
  - reflexivity.
  - vm_compute. discriminate.
Defined.

(** The frames 1 and -5, two vertices, magnitude 1, signed values kept:
    the result is (1, -5), and -5 is below -1. *)
Lemma createheightvals_magnitude_counterexample :
  (createheightvals 2 (1 # 1) true (mkWorld (song_1_m5 None) [])).2
  = Ok [1 # 1; -5 # 1]%Q /\
  ~ (- (1 # 1) <= -5 # 1)%Q.
Proof. split; [vm_compute; reflexivity | vm_compute; intros H; now apply H]. Qed.

(** ** Reading the trace *)

Lemma reads_app tr1 tr2 : reads (tr1 ++ tr2) = reads tr1 ++ reads tr2.
Proof.
  induction tr1 as [|[q m|p n] tr1 IH]; simpl; [reflexivity | exact IH | now rewrite IH].
Qed.

Lemma reads_puts q ms : reads (puts q ms) = [].
Proof. destruct q; simpl; [|reflexivity]. induction ms; simpl; auto. Qed.

Lemma reads_stage q label n : reads (stage q label n) = [].
Proof. apply reads_puts. Qed.

Lemma reads_flat_map q (f : Z -> Z * Z) (l : list Z) :
  reads (flat_map (fun i => puts q [MInt i] ++ [EReadframes (f i).1 (f i).2]) l)
  = map f l.
Proof.
  induction l as [|i l IH]; simpl; [reflexivity|].
  rewrite <- app_assoc, reads_app, reads_puts. simpl. rewrite IH.
  now destruct (f i).
Qed.

Lemma reads_reading q n vs :
  reads (reading q n vs) = map (fun i => (i * vs, vs)) (xrange n).
Proof.
  unfold reading. rewrite reads_app, reads_puts. simpl.
  apply (reads_flat_map q (fun i => (i * vs, vs))).
Qed.

Lemma queue_contents_app q tr1 tr2 :
  queue_contents q (tr1 ++ tr2) = queue_contents q tr1 ++ queue_contents q tr2.
Proof.
  induction tr1 as [|[q' m|p n] tr1 IH]; simpl; [reflexivity | | exact IH].
  destruct (Nat.eqb q q'); simpl; now rewrite IH.
Qed.

Lemma queue_contents_puts q ms : queue_contents q (puts (Some q) ms) = ms.
Proof.
  induction ms as [|m ms IH]; simpl; [reflexivity|].
  rewrite Nat.eqb_refl. now f_equal.
Qed.

Lemma queue_contents_reading q n vs :
  queue_contents q (reading (Some q) n vs)
  = MTuple "Reading WAV Data" n :: map MInt (xrange n).
Proof.
  unfold reading. rewrite queue_contents_app. simpl. rewrite Nat.eqb_refl.
  simpl. f_equal.
  induction (xrange n) as [|i l IH]; simpl; [reflexivity|].
  rewrite Nat.eqb_refl. now f_equal.
Qed.

(** C6, as the code has it.  On an opened stream, for
    [1 <= nvtx <= _nframes], the frames per bucket are
    [floor(_nframes / nvtx)], at least 1, and [nvtx] buckets of that many
    frames fit in the stream.  When the frame size is even (every 16-bit
    stream) the pass makes exactly [nvtx] reads of that many frames, the
    i-th at frame [i * vs], starting from frame 0, and the cursor ends at
    [nvtx * vs] frames: the remainder is never read, whether the scaling
    then succeeds or meets a silent stream.  When the frame size is odd
    (8-bit mono) only the first bucket is read: the call raises
    [struct.error] with the cursor at [vs]. *)
Theorem createheightvals_buckets nvtx (vheight : Q) negative (s : world Q) :
  opened (self s) -> 1 <= nvtx <= _nframes (wave (self s)) ->
  let fs := _framesize (wave (self s)) in
  let vs := _nframes (wave (self s)) / nvtx in
  exists s' r,
    createheightvals nvtx vheight negative s = (s', r) /\
    vtxsample (self s') = vs /\ 1 <= vs /\ nvtx * vs <= _nframes (wave (self s)) /\
    if Z.even fs then
      reads (trace s') = reads (trace s) ++ map (fun i => (i * vs, vs)) (xrange nvtx) /\
      _soundpos (wave (self s')) = nvtx * vs /\
      chunk_pos (wave (self s')) = nvtx * vs * fs
    else
      reads (trace s') = reads (trace s) ++ [(0, vs)] /\
      _soundpos (wave (self s')) = vs /\
      chunk_pos (wave (self s')) = vs * fs /\
      r = Raise (struct_error "unpack requires a string argument of the format's size").
Proof.
  intros Hop Hn fs vs.
  fold (framesPerBucket (wave (self s)) nvtx) in vs.
  destruct (framesPerBucket_fits (wave (self s)) nvtx Hn) as [Hvs Hfit]. fold vs in Hvs, Hfit.
  destruct (Z.even fs) eqn:Heven.
  - rewrite (createheightvals_Q nvtx vheight negative s Hop Heven Hn). fold vs.
    destruct (maximum _ =? 0); eexists _, _; (split; [reflexivity|]);
      cbn [after_pass self trace wave vtxsample with_wave with_vtxsample seek
           chunk_pos _soundpos];
      (split; [reflexivity|]); (split; [exact Hvs|]); (split; [exact Hfit|]);
      (split; [|split; reflexivity]).
    + rewrite !reads_app, reads_reading, reads_stage.
      destruct negative; rewrite ?reads_stage; simpl; now rewrite ?app_nil_r.
    + unfold sampling. rewrite !reads_app, reads_reading, !reads_stage.
      destruct negative; rewrite ?reads_stage; simpl; now rewrite ?app_nil_r.
  - rewrite (createheightvals_odd_run nvtx vheight negative s Hop Heven Hn). fold vs.
    eexists _, _. split; [reflexivity|].
    cbn [after_odd self trace wave vtxsample with_wave with_vtxsample seek
         chunk_pos _soundpos].
    split; [reflexivity|]. split; [exact Hvs|]. split; [exact Hfit|].
    split; [|repeat split].
    rewrite !reads_app, reads_puts. reflexivity.
Qed.

Lemma createheightvals_buckets_witness :
  let s := mkWorld (song_1_m5 None) [] in
  let fs := _framesize (wave (self s)) in
  let vs := _nframes (wave (self s)) / 2 in
  exists s' r,
    createheightvals 2 (3 # 1) false s = (s', r) /\
    vtxsample (self s') = vs /\ 1 <= vs /\ 2 * vs <= _nframes (wave (self s)) /\
    if Z.even fs then
      reads (trace s') = reads (trace s) ++ map (fun i => (i * vs, vs)) (xrange 2) /\
      _soundpos (wave (self s')) = 2 * vs /\
      chunk_pos (wave (self s')) = 2 * vs * fs
    else
      reads (trace s') = reads (trace s) ++ [(0, vs)] /\
      _soundpos (wave (self s')) = vs /\
      chunk_pos (wave (self s')) = vs * fs /\
      r = Raise (struct_error "unpack requires a string argument of the format's size").
Proof.
  apply (createheightvals_buckets 2 (3 # 1) false (mkWorld (song_1_m5 None) [])).
  - opened_by_computation.
  - split; vm_compute; discriminate.
Defined.

(** The 8-bit mono stream of two frames, two vertices: one frame per
    bucket, but a single read, of the frame 0, is made and the cursor
    stops at 1, not at 2 (exact arithmetic and binary64). *)
Lemma createheightvals_buckets_counterexample :
  let r := createheightvals 2 (1 # 1) false (mkWorld (song_8_mono None) []) in
  1 <= 2 <= _nframes wave_8_mono /\
  _nframes wave_8_mono / 2 = 1 /\
  vtxsample (self r.1) = 1 /\
  reads (trace r.1) = [(0, 1)] /\
  _soundpos (wave (self r.1)) = 1 /\
  r.2 = Raise (struct_error "unpack requires a string argument of the format's size") /\
  match song_b64 wave_8_mono None with
  | Some s =>
      let r' := createheightvals 2 1%float false s in
      reads (trace r'.1) = [(0, 1)] /\ _soundpos (wave (self r'.1)) = 1 /\
      r'.2 = Raise (struct_error "unpack requires a string argument of the format's size")
  | None => False
  end.
Proof.
  cbv zeta. split; [split; vm_compute; discriminate|].
  repeat split; vm_compute; reflexivity.
Qed.

(** ** The remainder is never read *)

Lemma bucket_bytes_prefix (w w' : Wave_read) vs i n :
  _framesize w = _framesize w' -> 0 <= vs -> 0 <= i < n ->
  take (Z.to_nat (n * vs * _framesize w)) (_data_chunk w)
  = take (Z.to_nat (n * vs * _framesize w)) (_data_chunk w') ->
  bucket_bytes w vs i = bucket_bytes w' vs i.
Proof.
  intros Hfs Hvs Hi Hpre. unfold bucket_bytes. rewrite <- Hfs.
  revert Hpre. generalize (_framesize w). intros fs Hpre.
  destruct (Z.le_gt_cases 0 fs) as [Hfs0|Hfs0].
  - rewrite !take_drop_commute.
    assert (Hle : (Z.to_nat (i * vs * fs) + Z.to_nat (vs * fs)
                   <= Z.to_nat (n * vs * fs))%nat).
    { assert (0 <= i * vs * fs) by (repeat apply Z.mul_nonneg_nonneg; lia).
      assert (0 <= vs * fs) by (apply Z.mul_nonneg_nonneg; lia).
      assert ((i + 1) * (vs * fs) <= n * (vs * fs))
        by (apply Z.mul_le_mono_nonneg_r; lia).
      nia. }
    rewrite <- (Nat.min_l _ _ Hle), <- !take_take, Hpre. reflexivity.
  - replace (Z.to_nat (vs * fs)) with 0%nat by nia. reflexivity.
Qed.

(** Two streams with the same header that agree on the frames of the
    [nvtx] buckets give the same outcome: the bytes after them have no
    influence. *)
Lemma createheightvals_ignores_remainder nvtx (vheight : Q) negative
    (s1 s2 : world Q) :
  opened (self s1) -> opened (self s2) ->
  Z.even (_framesize (wave (self s1))) = true ->
  1 <= nvtx <= _nframes (wave (self s1)) ->
  _nchannels (wave (self s2)) = _nchannels (wave (self s1)) ->
  _sampwidth (wave (self s2)) = _sampwidth (wave (self s1)) ->
  _nframes (wave (self s2)) = _nframes (wave (self s1)) ->
  (let used := Z.to_nat (nvtx * (_nframes (wave (self s1)) / nvtx)
                         * _framesize (wave (self s1))) in
   take used (_data_chunk (wave (self s1)))
   = take used (_data_chunk (wave (self s2)))) ->
  (createheightvals nvtx vheight negative s1).2
  = (createheightvals nvtx vheight negative s2).2.
Proof.
  intros Hop1 Hop2 Heven Hn Hnch Hsw Hnf Hpre. cbv zeta in Hpre.
  assert (Hfs : _framesize (wave (self s1)) = _framesize (wave (self s2)))
    by (unfold _framesize; now rewrite Hnch, Hsw).
  rewrite (createheightvals_Q nvtx vheight negative s1 Hop1 Heven Hn).
  rewrite (createheightvals_Q nvtx vheight negative s2 Hop2
             ltac:(now rewrite <- Hfs) ltac:(now rewrite Hnf)).
  assert (Hraw : spec_rawAveragedValues (wave (self s1)) nvtx negative
                 = spec_rawAveragedValues (wave (self s2)) nvtx negative).
  { unfold spec_rawAveragedValues, framesPerBucket. rewrite Hnf.
    apply map_ext_in. intros i Hi. apply list_elem_of_In, elem_of_seqZ in Hi.
    unfold bucket_samples. f_equal. f_equal.
    apply (bucket_bytes_prefix _ _ _ i nvtx); try assumption; try lia.
    apply Z.div_pos; lia. }
  rewrite Hraw. now destruct (maximum _ =? 0).
Qed.

Section NoFrames.
Context {F : Type} {PF : PyFloat F}.
Implicit Types (s : world F) (o : TerrainWaveFile F) (w : Wave_read).

Lemma map_replicate {A B} (f : A -> B) n x : map f (replicate n x) = replicate n (f x).
Proof. induction n; simpl; congruence. Qed.

(** No frame per bucket: every bucket is read empty and the first mean
    divides by zero. *)
Lemma createheightvals_no_frames nvtx vheight negative s :
  float_is_zero (float_of_int nvtx) = false ->
  float_trunc (float_div (float_of_int (_nframes (wave (self s))))
                         (float_of_int nvtx)) = 0 ->
  1 <= nvtx ->
  createheightvals nvtx vheight negative s =
    (mkWorld (with_vtxsample (with_wave (self s) (seek (wave (self s)) 0 0)) 0)
       (trace s
        ++ puts (queue (self s)) [MTuple "Reading WAV Data" nvtx]
        ++ flat_map (fun i => puts (queue (self s)) [MInt i] ++ [EReadframes 0 0])
                    (xrange nvtx)
        ++ (if negative then []
            else stage (queue (self s)) "Converting all Values to Positive" nvtx)
        ++ puts (queue (self s)) [MTuple "Averaging Amplitude values" nvtx; MInt 0]),
     Raise (ZeroDivisionError "integer division or modulo by zero")).
Proof.
  intros Hz Htr Hn. set (q := queue (self s)).
  rewrite createheightvals_split. unfold rawAveragedValues.
  erewrite bind_Raise; [reflexivity|].
  erewrite bind_Ok by reflexivity.
  erewrite bind_Ok by reflexivity.
  cbn [self wave with_wave _nframes seek].
  unfold py_float_div. rewrite Hz.
  erewrite bind_Ok by reflexivity. rewrite Htr.
  erewrite bind_Ok by reflexivity.
  erewrite bind_Ok by apply queue_put_run.
  cbn [self trace queue with_vtxsample with_wave log]. fold q.
  unfold xrange at 1. rewrite <- (Z2Nat.id nvtx) at 1 by lia.
  erewrite bind_Ok by (apply read_loop_empty; reflexivity).
  cbn [self trace queue with_vtxsample with_wave wave seek log
       _nchannels _sampwidth _framerate _nframes _data_chunk _soundpos].
  rewrite Z2Nat.id by lia. fold q. fold (xrange nvtx).
  set (allAmps := replicate (Z.to_nat nvtx) (@nil Z)).
  assert (Hall : len allAmps = nvtx).
  { unfold allAmps, len. rewrite length_replicate. lia. }
  assert (Hx : seqZ 0 nvtx = 0 :: seqZ 1 (Z.pred nvtx)).
  { now rewrite seqZ_cons by lia. }
  assert (Hhd : forall l : list (list Z), l = replicate (Z.to_nat nvtx) [] ->
                forall s0 : world F, getitem l 0 s0 = (s0, Ok [])).
  { intros l -> s0. apply (getitem_lookup _ 0%nat).
    destruct (Z.to_nat nvtx) eqn:E; [lia | reflexivity]. }
  destruct negative; cbn [negb].
  - erewrite bind_Ok by reflexivity.
    erewrite bind_Ok by apply queue_put_run.
    rewrite Hall, Hx. cbn [mapM].
    erewrite bind_Raise; cycle 1.
    { erewrite bind_Ok by (apply Hhd; reflexivity). apply averageAmps_empty. }
    cbn [self trace queue with_vtxsample with_wave wave seek log].
    fold q. unfold log; cbn [self trace app]. rewrite <- !app_assoc.
    now destruct q.
  - erewrite bind_Ok; cycle 1.
    { erewrite bind_Ok by apply queue_put_run.
      apply (index_loop convertAbsolute (map Z.abs) allAmps).
      intros a i s0 _. apply convertAbsolute_run. }
    erewrite bind_Ok by apply queue_put_run.
    assert (Hmap : map (map Z.abs) allAmps = allAmps)
      by (unfold allAmps; now rewrite map_replicate).
    rewrite Hmap.
    rewrite Hall, Hx. cbn [mapM].
    erewrite bind_Raise; cycle 1.
    { erewrite bind_Ok by (apply Hhd; reflexivity). apply averageAmps_empty. }
    cbn [self trace queue with_vtxsample with_wave wave seek log].
    fold q. unfold log; cbn [self trace app]. rewrite stage_eq, <- !app_assoc.
    now destruct q.
Qed.

(** No bucket at all: a vertex count of 0 fails at the division, a
    negative one at the [max] of the empty list. *)
Lemma createheightvals_zero_count vheight negative s :
  float_is_zero (float_of_int 0) = true ->
  exists s',
    createheightvals 0 vheight negative s
    = (s', Raise (ZeroDivisionError "float division by zero")).
Proof.
  intros Hz. rewrite createheightvals_split. unfold rawAveragedValues.
  eexists. erewrite bind_Raise; [reflexivity|].
  erewrite bind_Ok by reflexivity.
  erewrite bind_Ok by reflexivity.
  unfold py_float_div. rewrite Hz. reflexivity.
Qed.

Lemma createheightvals_negative_count nvtx vheight negative s :
  float_is_zero (float_of_int nvtx) = false -> nvtx < 0 ->
  exists s',
    createheightvals nvtx vheight negative s
    = (s', Raise (ValueError "max() arg is an empty sequence")).
Proof.
  intros Hz Hn. rewrite createheightvals_split. unfold rawAveragedValues.
  destruct negative; eexists.
  - erewrite bind_Ok; cycle 1.
    { erewrite bind_Ok by reflexivity.
      erewrite bind_Ok by reflexivity.
      unfold py_float_div. rewrite Hz.
      erewrite bind_Ok by reflexivity.
      erewrite bind_Ok by reflexivity.
      erewrite bind_Ok by apply queue_put_run.
      change (xrange nvtx) with (seqZ 0 nvtx). rewrite (seqZ_nil 0 nvtx) by lia.
      cbn [mapM negb].
      erewrite bind_Ok by reflexivity.
      erewrite bind_Ok by reflexivity.
      erewrite bind_Ok by apply queue_put_run. reflexivity. }
    reflexivity.
  - erewrite bind_Ok; cycle 1.
    { erewrite bind_Ok by reflexivity.
      erewrite bind_Ok by reflexivity.
      unfold py_float_div. rewrite Hz.
      erewrite bind_Ok by reflexivity.
      erewrite bind_Ok by reflexivity.
      erewrite bind_Ok by apply queue_put_run.
      change (xrange nvtx) with (seqZ 0 nvtx). rewrite (seqZ_nil 0 nvtx) by lia.
      cbn [mapM negb].
      erewrite bind_Ok by reflexivity.
      erewrite bind_Ok; cycle 1.
      { erewrite bind_Ok by apply queue_put_run. reflexivity. }
      erewrite bind_Ok by apply queue_put_run. reflexivity. }
    reflexivity.
Qed.

End NoFrames.

Lemma map_const_replicate {A B} (c : B) (l : list A) :
  map (fun _ => c) l = replicate (length l) c.
Proof. induction l; simpl; congruence. Qed.

(** C3, as the code has it.  With more vertices than frames the frames
    per bucket truncate to 0 and the call fails, but not before reading:
    it makes [nvtx] zero-length reads at frame 0, and the failure is the
    [ZeroDivisionError] of the mean of the first, empty, bucket. *)
Theorem createheightvals_insufficient nvtx (vheight : Q) negative (s : world Q) :
  0 <= _nframes (wave (self s)) < nvtx ->
  exists s',
    createheightvals nvtx vheight negative s
    = (s', Raise (ZeroDivisionError "integer division or modulo by zero")) /\
    vtxsample (self s') = 0 /\
    reads (trace s') = reads (trace s) ++ replicate (Z.to_nat nvtx) (0, 0).
Proof.
  intros Hn.
  rewrite (createheightvals_no_frames nvtx vheight negative s
             (Q_is_zero_int nvtx ltac:(lia))
             (framesPerBucket_Q_small (wave (self s)) nvtx Hn) ltac:(lia)).
  eexists. split; [reflexivity|]. cbn [self trace vtxsample with_vtxsample].
  split; [reflexivity|].
  rewrite !reads_app, !reads_puts.
  rewrite (reads_flat_map _ (fun _ => (0, 0))), map_const_replicate.
  unfold xrange. rewrite length_seqZ.
  destruct negative; rewrite ?reads_stage; simpl; now rewrite ?app_nil_r.
Qed.

Lemma createheightvals_insufficient_witness :
  exists s',
    createheightvals 3 (1 # 1) false (mkWorld (song_1_m5 None) [])
    = (s', Raise (ZeroDivisionError "integer division or modulo by zero")) /\
    vtxsample (self s') = 0 /\
    reads (trace s') = [] ++ replicate 3 (0, 0).
Proof.
  apply createheightvals_insufficient.
  split; [vm_compute; discriminate | reflexivity].
Defined.

(** Two frames, three vertices: three reads of no frame are made before
    the call fails. *)
Lemma createheightvals_insufficient_counterexample :
  _nframes wave_1_m5 < 3 /\
  createheightvals 3 (1 # 1) false (mkWorld (song_1_m5 None) [])
  = (mkWorld (with_vtxsample (song_1_m5 None) 0)
       [EReadframes 0 0; EReadframes 0 0; EReadframes 0 0],
     Raise (ZeroDivisionError "integer division or modulo by zero")).
Proof. split; [reflexivity | vm_compute; reflexivity]. Qed.

(** C5, as the code has it.  A vertex count [nvtx <= 0] makes the call
    fail: with the [ZeroDivisionError] of [float(_nframes) / nvtx] when
    [nvtx = 0], with the [ValueError] of [max] on the empty list when
    [nvtx < 0].  The target magnitude is not checked. *)
Theorem createheightvals_bad_count nvtx (vheight : Q) negative (s : world Q) :
  nvtx <= 0 ->
  exists s',
    createheightvals nvtx vheight negative s
    = (s', Raise (if nvtx =? 0
                  then ZeroDivisionError "float division by zero"
                  else ValueError "max() arg is an empty sequence")).
Proof.
  intros Hn. destruct (Z.eqb_spec nvtx 0) as [->|Hne].
  - apply createheightvals_zero_count, Q_is_zero_0.
  - apply createheightvals_negative_count; [|lia].
    apply Q_is_zero_int. lia.
Qed.

Lemma createheightvals_bad_count_witness :
  exists s',
    createheightvals (-2) (1 # 1) false (mkWorld (song_1_m5 None) [])
    = (s', Raise (if -2 =? 0
                  then ZeroDivisionError "float division by zero"
                  else ValueError "max() arg is an empty sequence")).
Proof. apply createheightvals_bad_count. vm_compute; discriminate. Defined.

(** A target magnitude of -1 is accepted: the values are scaled by it. *)
Lemma createheightvals_bad_magnitude_counterexample :
  (-1 # 1 <= 0)%Q /\
  (createheightvals 2 (-1 # 1)%Q false (mkWorld (song_1_m5 None) [])).2
  = Ok [-1 # 5; -5 # 5]%Q.
Proof. split; [vm_compute; discriminate | vm_compute; reflexivity]. Qed.

(** ** Frames of odd size *)

Section OddFrames.
Context {F : Type} {PF : PyFloat F}.
Implicit Types (s : world F).

(** A frame of odd size cannot be unpacked as shorts: the first bucket
    raises [struct.error]. *)
Lemma parsedata_odd i s vs :
  opened (self s) -> Z.even (_framesize (wave (self s))) = false ->
  vtxsample (self s) = vs -> 1 <= vs ->
  chunk_pos (wave (self s)) = 0 ->
  vs * _framesize (wave (self s)) <= len (_data_chunk (wave (self s))) ->
  exists s' m, parsedata i s = (s', Raise (struct_error m)).
Proof.
  intros [(Hnch & Hsw & Hnf & Hdata) Hfmt] Hodd Hvs Hvs1 Hp Hlen.
  assert (Hfs : 1 <= _framesize (wave (self s))) by (unfold _framesize; nia).
  assert (H0 : 0 <= vs * _framesize (wave (self s))) by nia.
  unfold parsedata.
  rewrite (bind_Ok _ _ _ _ _ (queue_put_run _ _)).
  unfold get_self at 1. unfold mbind at 1, M_bind at 1.
  change (self (log s ?e)) with (self s).
  rewrite Hvs, Hfmt.
  rewrite (bind_Ok _ _ _ _ _
             (readframes_run vs (log s (puts (queue (self s)) [MInt i]))
                ltac:(lia) H0 ltac:(simpl; lia))).
  cbv zeta. simpl self. simpl trace. rewrite Hp.
  unfold struct_unpack, str_mul. rewrite str_repeat_h_mul.
  rewrite unpack_h_mismatch; [eexists _, _; reflexivity|].
  rewrite length_take, length_drop. unfold len in Hlen.
  fold (_framesize (wave (self s))).
  assert (Hq : _framesize (wave (self s)) = 2 * (_framesize (wave (self s)) / 2) + 1).
  { rewrite <- Z.negb_odd in Hodd. apply negb_false_iff in Hodd.
    apply Z.odd_spec in Hodd. destruct Hodd as [k Hk]. rewrite Hk at 2.
    replace (2 * k + 1) with (1 + k * 2) by lia.
    rewrite Z.div_add by lia. change (1 / 2) with 0. lia. }
  nia.
Qed.

End OddFrames.

(** On a stream of odd frame size (8-bit mono, for one) the call fails with
    [struct.error] at the first bucket. *)
Lemma createheightvals_odd nvtx (vheight : Q) negative (s : world Q) :
  opened (self s) -> Z.even (_framesize (wave (self s))) = false ->
  1 <= nvtx <= _nframes (wave (self s)) ->
  exists s' m,
    createheightvals nvtx vheight negative s = (s', Raise (struct_error m)).
Proof.
  intros Hop Hodd Hn.
  destruct (framesPerBucket_fits (wave (self s)) nvtx Hn) as [Hvs Hfit].
  assert (Hz : float_is_zero (F:=Q) (float_of_int nvtx) = false)
    by (apply Z.eqb_neq; cbn; lia).
  pose proof (framesPerBucket_Q (wave (self s)) nvtx
                ltac:(apply Hop) ltac:(lia)) as Htr.
  set (vs := framesPerBucket (wave (self s)) nvtx) in *.
  set (s1 := log (mkWorld (with_vtxsample (with_wave (self s) (seek (wave (self s)) 0 0)) vs)
                    (trace s))
                 (puts (queue (self s)) [MTuple "Reading WAV Data" nvtx])).
  destruct (parsedata_odd 0 s1 vs) as (s' & m & Hparse); try assumption; try reflexivity.
  { destruct Hop as [(Hnch & Hsw & Hnf & Hdata) _].
    cbn. unfold len, _framesize in *.
    transitivity (_nframes (wave (self s)) * (_nchannels (wave (self s)) * _sampwidth (wave (self s))));
      [|exact Hdata].
    apply Z.mul_le_mono_nonneg_r; nia. }
  exists s', m.
  rewrite createheightvals_split. unfold rawAveragedValues.
  erewrite bind_Raise; [reflexivity|].
  erewrite bind_Ok by reflexivity.
  erewrite bind_Ok by reflexivity.
  cbn [self wave with_wave _nframes seek].
  unfold py_float_div. rewrite Hz.
  erewrite bind_Ok by reflexivity. rewrite Htr.
  erewrite bind_Ok by reflexivity.
  erewrite bind_Ok by apply queue_put_run.
  cbn [self trace queue with_vtxsample with_wave]. fold s1.
  erewrite bind_Raise; [reflexivity|].
  change (xrange nvtx) with (seqZ 0 nvtx). rewrite (seqZ_cons 0 nvtx) by lia.
  cbn [mapM]. erewrite bind_Raise; [reflexivity | exact Hparse].
Qed.

(** ** Silence *)







(** On the two silent frames the failure is the one at the ratio. *)
Example createheightvals_silence_ratio :
  (createheightvals 2 (3 # 1) false (mkWorld (song_silent None) [])).2
  = Raise (ZeroDivisionError "float division by zero").
Proof. vm_compute. reflexivity. Qed.

(** ** Linearity in the target magnitude *)

Lemma heights_scaled (k vheight : Q) (l : list Z) :
  Forall2 (fun a b => b == k * a)%Q (heights vheight l) (heights (k * vheight)%Q l).
Proof.
  unfold heights. generalize (maximum l). intros m.
  induction l as [|a l IH]; simpl; constructor; [|exact IH].
  unfold Qdiv. ring.
Qed.

(** In exact arithmetic: from the same state, the call with target
    magnitude [2 * m] leaves the same state as the call with [m]; either
    both raise the same exception, or both return and the values of the
    first, scaled by 2, are the values of the second. *)
Lemma createheightvals_linear_exact nvtx (m : Q) negative (s : world Q) :
  let r1 := createheightvals nvtx m negative s in
  let r2 := createheightvals nvtx (2 * m)%Q negative s in
  r1.1 = r2.1 /\ scaled_by 2 r1.2 r2.2.
Proof.
  rewrite !createheightvals_split. unfold mbind, M_bind.
  destruct (rawAveragedValues nvtx negative s) as [s1 [l|e]]; [|now split].
  destruct l as [|x l]; [now split|].
  destruct (float_is_zero (F:=Q) (float_of_int (maximum (x :: l)))) eqn:Hz.
  - rewrite !scaleToMagnitude_zero by (auto; discriminate). now split.
  - rewrite !scaleToMagnitude_run by (auto; discriminate). split; [reflexivity|].
    apply heights_scaled.
Qed.

Section Linear.
Context {F : Type} {PF : PyFloat F}.
Implicit Types (s : world F).



End Linear.

(** In exact arithmetic doubling is always exact. *)
Lemma Q_doubling_exact (m : Q) (l : list Z) : doubling_exact m l.
Proof.
  unfold doubling_exact. cbv zeta. cbn [float_div float_mul float_of_int Q_float].
  generalize (inject_Z (maximum l)). intros mx.
  split.
  - unfold Qdiv, Qmult, inject_Z. cbn [Qnum Qden]. f_equal. ring.
  - apply List.Forall_forall. intros a _.
    unfold Qdiv, Qmult, inject_Z. cbn [Qnum Qden]. f_equal. ring.
Qed.




Example createheightvals_linear_returns :
  exists s1 h1 s2 h2,
    createheightvals 2 (3 # 1) true (mkWorld (song_1_m5 None) []) = (s1, Ok h1) /\
    createheightvals 2 (2 * (3 # 1))%Q true (mkWorld (song_1_m5 None) []) = (s2, Ok h2).
Proof. eexists _, _, _, _. split; vm_compute; reflexivity. Qed.

(** C10.  [getmaxamplitude] never returns: it reads [self._maxamplitude],
    an attribute that no constructor sets ([__init__] stores the value
    under [_maxamplidtude]), and raises [AttributeError]. *)
Theorem getmaxamplitude_raises {F} `{PyFloat F} (o : TerrainWaveFile F) :
  getmaxamplitude o = Raise (AttributeError "_maxamplitude").
Proof. reflexivity. Qed.

(** The value the accessor is meant to return, [2^(_samplesize - 1)], is
    stored by [__init__] under the name [_maxamplidtude]. *)
Lemma __init___maxamplidtude {F} `{PyFloat F} (w : Wave_read) q (o : TerrainWaveFile F) :
  1 <= _sampwidth w -> __init__ w q = Ok o ->
  _maxamplidtude o = 2 ^ (_samplesize o - 1) /\
  _samplesize o = _sampwidth w * 8 /\
  getattr o "_maxamplidtude" = Ok (VInt (2 ^ (_samplesize o - 1))).
Proof.
  intros Hsw. unfold __init__.
  destruct (float_is_zero (float_of_int (_framerate w))); [discriminate|].
  intros [= <-]. cbn [_maxamplidtude _samplesize].
  assert (E : 2 ^ (_sampwidth w * 8) / 2 = 2 ^ (_sampwidth w * 8 - 1)).
  { replace (_sampwidth w * 8) with (_sampwidth w * 8 - 1 + 1) at 1 by lia.
    rewrite Z.pow_add_r, Z.pow_1_r by lia. apply Z.div_mul. lia. }
  repeat split; [exact E|].
  unfold getattr. cbn. now rewrite E.
Qed.

(** ** Frames and channels *)

Lemma shorts_drop (a : nat) : forall data : list byte,
  shorts (drop (2 * a) data) = drop a (shorts data).
Proof.
  induction a as [|a IH]; intros data; [reflexivity|].
  replace (2 * S a)%nat with (S (S (2 * a))) by lia.
  destruct data as [|lo [|hi data]]; simpl; rewrite ?drop_nil; try reflexivity.
  apply IH.
Qed.

Lemma shorts_take (a : nat) : forall data : list byte,
  shorts (take (2 * a) data) = take a (shorts data).
Proof.
  induction a as [|a IH]; intros data; [reflexivity|].
  replace (2 * S a)%nat with (S (S (2 * a))) by lia.
  destruct data as [|lo [|hi data]]; simpl; rewrite ?take_nil; try reflexivity.
  f_equal. apply IH.
Qed.

(** C7, as the code has it.  On a 16-bit stream ([_sampwidth = 2]) a
    read of [vs] frames decodes into [vs * _nchannels] signed integers in
    [[-2^15, 2^15 - 1]]; the [_nchannels] integers of frame [k] are the
    little-endian shorts of the bytes of that frame. *)
Theorem parsedata_frames i (s : world Q) vs :
  opened (self s) -> _sampwidth (wave (self s)) = 2 ->
  vtxsample (self s) = vs -> 1 <= vs ->
  0 <= chunk_pos (wave (self s)) ->
  chunk_pos (wave (self s)) + vs * _framesize (wave (self s))
    <= len (_data_chunk (wave (self s))) ->
  let w := wave (self s) in
  exists s' amps,
    parsedata i s = (s', Ok amps) /\
    len amps = vs * _nchannels w /\
    Forall (fun x => - 2 ^ (_sampwidth w * 8 - 1) <= x
                     <= 2 ^ (_sampwidth w * 8 - 1) - 1) amps /\
    forall k, 0 <= k < vs ->
      take (Z.to_nat (_nchannels w)) (drop (Z.to_nat (k * _nchannels w)) amps)
      = shorts (take (Z.to_nat (_framesize w))
                     (drop (Z.to_nat (chunk_pos w + k * _framesize w))
                           (_data_chunk w))) /\
      len (shorts (take (Z.to_nat (_framesize w))
                     (drop (Z.to_nat (chunk_pos w + k * _framesize w))
                           (_data_chunk w)))) = _nchannels w.
Proof.
  intros [(Hnch & Hsw' & Hnf & Hdata) Hfmt] Hsw Hvs Hvs1 Hp Hlen w.
  fold w in Hnch, Hsw', Hnf, Hdata, Hfmt, Hsw, Hp, Hlen.
  assert (Hfs : _framesize w = 2 * _nchannels w) by (unfold _framesize; lia).
  assert (Heven : Z.even (_framesize w) = true).
  { rewrite Hfs. apply Z.even_spec. now exists (_nchannels w). }
  rewrite (parsedata_run i s vs (_framesize w) (chunk_pos w) Hvs eq_refl eq_refl
             Hvs1 ltac:(lia) Heven Hfmt Hp Hlen).
  fold w. set (D := take (Z.to_nat (vs * _framesize w))
                         (drop (Z.to_nat (chunk_pos w)) (_data_chunk w))).
  assert (HD : length D = (2 * Z.to_nat (vs * _nchannels w))%nat).
  { unfold D. rewrite length_take, length_drop. unfold len in Hlen. nia. }
  eexists _, _. split; [reflexivity|]. split; [|split].
  - unfold len. rewrite (shorts_length D _ HD). nia.
  - rewrite Hsw. change (2 ^ (2 * 8 - 1)) with 32768.
    eapply Forall_impl; [apply shorts_range|]. intros x Hx; cbv beta in Hx. lia.
  - intros k Hk.
    assert (Hk1 : 0 <= k * _nchannels w) by nia.
    assert (Hk2 : (k + 1) * _nchannels w <= vs * _nchannels w) by nia.
    assert (Hfr : take (Z.to_nat (_framesize w))
                    (drop (Z.to_nat (chunk_pos w + k * _framesize w)) (_data_chunk w))
                  = take (2 * Z.to_nat (_nchannels w))
                      (drop (2 * Z.to_nat (k * _nchannels w)) D)).
    { unfold D.
      replace (Z.to_nat (vs * _framesize w))
        with (2 * Z.to_nat (k * _nchannels w)
              + (Z.to_nat (vs * _framesize w) - 2 * Z.to_nat (k * _nchannels w)))%nat
        by nia.
      rewrite <- take_drop_commute, take_take, drop_drop.
      f_equal; [nia|]. f_equal. nia. }
    rewrite Hfr, shorts_take, shorts_drop. split; [reflexivity|].
    unfold len. rewrite length_take, length_drop, (shorts_length D _ HD). nia.
Qed.

Lemma parsedata_frames_witness :
  let s := mkWorld (with_vtxsample (song_1_m5 None) 2) [] in
  let w := wave (self s) in
  exists s' amps,
    parsedata 0 s = (s', Ok amps) /\
    len amps = 2 * _nchannels w /\
    Forall (fun x => - 2 ^ (_sampwidth w * 8 - 1) <= x
                     <= 2 ^ (_sampwidth w * 8 - 1) - 1) amps /\
    forall k, 0 <= k < 2 ->
      take (Z.to_nat (_nchannels w)) (drop (Z.to_nat (k * _nchannels w)) amps)
      = shorts (take (Z.to_nat (_framesize w))
                     (drop (Z.to_nat (chunk_pos w + k * _framesize w))
                           (_data_chunk w))) /\
      len (shorts (take (Z.to_nat (_framesize w))
                     (drop (Z.to_nat (chunk_pos w + k * _framesize w))
                           (_data_chunk w)))) = _nchannels w.
Proof.
  apply (parsedata_frames 0 (mkWorld (with_vtxsample (song_1_m5 None) 2) []) 2).
  - opened_by_computation.
  - reflexivity.
  - reflexivity.
  - vm_compute; discriminate.
  - vm_compute; discriminate.
  - vm_compute; discriminate.
Defined.

Example song_8_stereo_init q : __init__ wave_8_stereo q = Ok (song_8_stereo q).
Proof. reflexivity. Qed.

(** One 8-bit stereo frame, the bytes 0 and 1: a single value, 256, for
    the two channels. *)
Lemma parsedata_frames_counterexample :
  _nchannels wave_8_stereo = 2 /\ _sampwidth wave_8_stereo = 1 /\
  exists s',
    parsedata 0 (mkWorld (with_vtxsample (song_8_stereo None) 1) [])
    = (s', Ok [256]) /\
    len [256] <> 1 * _nchannels wave_8_stereo /\
    ~ (256 <= 2 ^ (_sampwidth wave_8_stereo * 8 - 1) - 1).
Proof.
  split; [reflexivity|]. split; [reflexivity|].
  eexists. split; [vm_compute; reflexivity|].
  split; vm_compute; [discriminate | intros H; now apply H].
Qed.

(** ** Progress messages *)

Lemma queue_contents_stage q label n :
  queue_contents q (stage (Some q) label n) = stage_msgs label n.
Proof. apply queue_contents_puts. Qed.

Lemma queue_contents_sampling q n vs negative :
  queue_contents q (sampling (Some q) n vs negative) = progress n negative.
Proof.
  unfold sampling, progress.
  rewrite !queue_contents_app, queue_contents_reading, !queue_contents_stage.
  destruct negative; [reflexivity|]. now rewrite queue_contents_stage.
Qed.

(** C9, as the code has it.  A successful pass with a queue attached
    puts on it, in order, the stage messages ['Reading WAV Data'],
    ['Converting all Values to Positive'] (only without [negative]),
    ['Averaging Amplitude values'] and ['Scaling to Magnitude Value'], each
    with total [nvtx] and each followed by the ints [0 .. nvtx - 1].  The
    sampler puts no final string: ['Complete'] is put by [music_displace],
    after [move_vtx_positions] has returned. *)
Theorem createheightvals_progress
    (move_vtx_positions : list Q -> option loc -> M Q unit)
    nvtx (vheight : Q) negative q (s : world Q) :
  opened (self s) -> Z.even (_framesize (wave (self s))) = true ->
  1 <= nvtx <= _nframes (wave (self s)) ->
  maximum (spec_rawAveragedValues (wave (self s)) nvtx negative) <> 0 ->
  queue (self s) = Some q ->
  exists s1 hs,
    createheightvals nvtx vheight negative s = (s1, Ok hs) /\
    queue_contents q (trace s1)
    = queue_contents q (trace s) ++ progress nvtx negative /\
    forall s2,
      move_vtx_positions hs (Some q) s1 = (s2, Ok tt) ->
      music_displace move_vtx_positions nvtx vheight negative (Some q) s
      = (log s2 [EPut q (MStr "Complete")], Ok tt).
Proof.
  intros Hop Heven Hn Hmax Hq.
  pose proof (createheightvals_Q nvtx vheight negative s Hop Heven Hn) as Hrun.
  cbv zeta in Hrun. apply Z.eqb_neq in Hmax. rewrite Hmax, Hq in Hrun.
  eexists _, _. split; [exact Hrun|]. split.
  - cbn [after_pass trace]. now rewrite queue_contents_app, queue_contents_sampling.
  - intros s2 Hmove. unfold music_displace.
    rewrite (bind_Ok _ _ _ _ _ Hrun). rewrite (bind_Ok _ _ _ _ _ Hmove).
    reflexivity.
Qed.

Lemma createheightvals_progress_witness :
  exists s1 hs,
    createheightvals 2 (3 # 1) false (mkWorld (song_1_m5 (Some 0%nat)) [])
    = (s1, Ok hs) /\
    queue_contents 0%nat (trace s1)
    = queue_contents 0%nat [] ++ progress 2 false /\
    forall s2,
      move_one_axis "Y" 2 hs (Some 0%nat) s1 = (s2, Ok tt) ->
      music_displace (move_one_axis "Y" 2) 2 (3 # 1) false (Some 0%nat)
        (mkWorld (song_1_m5 (Some 0%nat)) [])
      = (log s2 [EPut 0%nat (MStr "Complete")], Ok tt).
Proof.
  apply (createheightvals_progress (move_one_axis "Y" 2)).
  - opened_by_computation.
  - reflexivity.
  - split; vm_compute; discriminate.
  - vm_compute. discriminate.
  - reflexivity.
Defined.

(** Two vertices without [negative]: four stage messages, and the last
    message of the sampler is an int. *)
Lemma createheightvals_progress_counterexample :
  queue_contents 0%nat
    (trace (createheightvals 2 (3 # 1) false
              (mkWorld (song_1_m5 (Some 0%nat)) [])).1)
  = [MTuple "Reading WAV Data" 2; MInt 0; MInt 1;
     MTuple "Converting all Values to Positive" 2; MInt 0; MInt 1;
     MTuple "Averaging Amplitude values" 2; MInt 0; MInt 1;
     MTuple "Scaling to Magnitude Value" 2; MInt 0; MInt 1] /\
  (createheightvals 2 (3 # 1) false (mkWorld (song_1_m5 (Some 0%nat)) [])).2
  = Ok [3 # 5; 15 # 5]%Q.
Proof. split; vm_compute; reflexivity. Qed.

Section Returns.
Context {F : Type} {PF : PyFloat F}.
Implicit Types (s : world F).

(** *** What a returned sequence tells *)

Lemma bind_Ok_inv {A B} (m : M F A) (f : A -> M F B) s s' b :
  (m ≫= f) s = (s', Ok b) ->
  exists s1 a, m s = (s1, Ok a) /\ f a s1 = (s', Ok b).
Proof.
  unfold mbind, M_bind. destruct (m s) as [s1 [a|e]]; [|discriminate].
  intros E. now exists s1, a.
Qed.

Lemma mapM_length {A B} (f : A -> M F B) (l : list A) : forall s s' r,
  mapM f l s = (s', Ok r) -> length r = length l.
Proof.
  induction l as [|x l IH]; intros s s' r; cbn [mapM].
  - intros [= _ <-]. reflexivity.
  - intros E. apply bind_Ok_inv in E. destruct E as (s1 & y & _ & E).
    apply bind_Ok_inv in E. destruct E as (s2 & k & Hk & E).
    injection E as _ <-. simpl. f_equal. exact (IH _ _ _ Hk).
Qed.

Lemma mapM_xrange_len {A B} (f : Z -> M F B) (l : list A) s s' r :
  mapM f (xrange (len l)) s = (s', Ok r) -> length r = length l.
Proof.
  intros E. apply mapM_length in E. rewrite E. unfold xrange, len.
  rewrite length_seqZ. lia.
Qed.

(** Whatever the stream and the state, a sequence that is returned has
    [nvtx] elements, and [nvtx] is at least 1. *)
Lemma createheightvals_returns_length nvtx vheight negative s s' hs :
  createheightvals nvtx vheight negative s = (s', Ok hs) ->
  1 <= nvtx /\ len hs = nvtx.
Proof.
  rewrite createheightvals_split. intros E.
  apply bind_Ok_inv in E. destruct E as (s1 & avgs & Hraw & Hscale).
  assert (Havgs : length avgs = Z.to_nat nvtx).
  { unfold rawAveragedValues in Hraw.
    apply bind_Ok_inv in Hraw. destruct Hraw as (? & ? & _ & Hraw).
    apply bind_Ok_inv in Hraw. destruct Hraw as (? & ? & _ & Hraw).
    apply bind_Ok_inv in Hraw. destruct Hraw as (? & ? & _ & Hraw).
    apply bind_Ok_inv in Hraw. destruct Hraw as (? & ? & _ & Hraw).
    apply bind_Ok_inv in Hraw. destruct Hraw as (? & ? & _ & Hraw).
    apply bind_Ok_inv in Hraw. destruct Hraw as (? & amps & Hread & Hraw).
    apply mapM_length in Hread. unfold xrange in Hread. rewrite length_seqZ in Hread.
    apply bind_Ok_inv in Hraw. destruct Hraw as (? & amps' & Habs & Hraw).
    apply bind_Ok_inv in Hraw. destruct Hraw as (? & ? & _ & Hraw).
    apply mapM_xrange_len in Hraw. rewrite Hraw.
    destruct negative; cbn [negb] in Habs.
    - injection Habs as _ <-. exact Hread.
    - apply bind_Ok_inv in Habs. destruct Habs as (? & ? & _ & Habs).
      apply mapM_xrange_len in Habs. now rewrite Habs. }
  unfold scaleToMagnitude in Hscale.
  apply bind_Ok_inv in Hscale. destruct Hscale as (? & m & Hmax & Hscale).
  apply bind_Ok_inv in Hscale. destruct Hscale as (? & ? & _ & Hscale).
  apply bind_Ok_inv in Hscale. destruct Hscale as (? & ? & _ & Hscale).
  apply mapM_xrange_len in Hscale.
  destruct avgs as [|a avgs]; [discriminate Hmax|].
  simpl in Havgs. unfold len. rewrite Hscale. simpl. lia.
Qed.

(** A pass leaves the object opened: the theorems apply to later calls. *)
Lemma after_pass_opened s n vs evs :
  opened (self s) -> opened (self (after_pass s n vs evs)).
Proof. intros H. exact H. Qed.

End Returns.

(** ** The same calls in IEEE binary64

    The calls of the examples above, run with binary64 floats: the same
    exceptions and, on these inputs, the same values. *)

Example b64_signed :
  b64_call (createheightvals 2 1%float true) wave_1_m5
  = Some (Ok [1%float; (-5)%float]).
Proof. vm_compute. reflexivity. Qed.

Example b64_unsigned :
  b64_call (createheightvals 2 3%float false) wave_1_m5
  = Some (Ok [(1 * (3 / 5))%float; 3%float]).
Proof. vm_compute. reflexivity. Qed.

(** The sample 49 scaled to magnitude 1: [49 * (1 / 49)] is below 1 in
    binary64 (the maximum equals the magnitude only up to rounding), and
    is 1 in exact arithmetic. *)
Example b64_rounding :
  b64_call (createheightvals 1 1%float false) wave_49
  = Some (Ok [(49 * (1 / 49))%float]) /\
  PrimFloat.ltb (49 * (1 / 49)) 1 = true.
Proof. split; vm_compute; reflexivity. Qed.

Example Q_no_rounding :
  exists s' h,
    createheightvals 1 (1 # 1) false (mkWorld (song_49 None) []) = (s', Ok [h]) /\
    (h == 1)%Q.
Proof. eexists _, _. split; vm_compute; reflexivity. Qed.

Example b64_insufficient :
  b64_call (createheightvals 3 1%float false) wave_1_m5
  = Some (Raise (ZeroDivisionError "integer division or modulo by zero")).
Proof. vm_compute. reflexivity. Qed.

Example b64_negative_magnitude :
  b64_call (createheightvals 2 (-1)%float false) wave_1_m5
  = Some (Ok [(1 * (-1 / 5))%float; (-1)%float]).
Proof. vm_compute. reflexivity. Qed.

Example b64_silence :
  b64_call (createheightvals 2 3%float false) wave_silent
  = Some (Raise (ZeroDivisionError "float division by zero")).
Proof. vm_compute. reflexivity. Qed.

Example b64_doubling :
  b64_call (createheightvals 2 6%float false) wave_1_m5
  = Some (Ok [(2 * (1 * (3 / 5)))%float; (2 * 3)%float]).
Proof. vm_compute. reflexivity. Qed.

Example b64_8_stereo :
  b64_call (set_vtxsample 1;; parsedata 0) wave_8_stereo = Some (Ok [256]).
Proof. vm_compute. reflexivity. Qed.

(** * What a sampling pass leaves alone

    Two closure arguments over the monad: every method keeps the song
    and only appends events ([keeps]), and no method looks at the trace
    ([framed]). *)

Section Frame.
Context {F : Type} {PF : PyFloat F}.
Implicit Types (s : world F) (o : TerrainWaveFile F) (P : option loc -> event -> Prop).

Lemma song_of_queue o o' : song_of o = song_of o' -> queue o = queue o'.
Proof. intros E. exact (f_equal queue E). Qed.

Lemma extends_refl P s : extends P s s.
Proof. split; [reflexivity|]. exists []. now rewrite app_nil_r. Qed.

Lemma extends_trans P s1 s2 s3 : extends P s1 s2 -> extends P s2 s3 -> extends P s1 s3.
Proof.
  intros [E1 (ev1 & T1 & F1)] [E2 (ev2 & T2 & F2)].
  split; [congruence|]. exists (ev1 ++ ev2). split.
  - rewrite T2, T1. now rewrite app_assoc.
  - apply Forall_app. split; [exact F1|].
    now rewrite <- (song_of_queue _ _ E1).
Qed.

Lemma keeps_ret {A} P (a : A) s : keeps P (mret a) s.
Proof. apply extends_refl. Qed.

Lemma keeps_raise {A} P e s : keeps P (raise (A:=A) e) s.
Proof. apply extends_refl. Qed.

Lemma keeps_get_self P s : keeps P get_self s.
Proof. apply extends_refl. Qed.

Lemma keeps_emit P e s : P (queue (self s)) e -> keeps P (emit e) s.
Proof. intros H. split; [reflexivity|]. exists [e]. split; [reflexivity|]. now constructor. Qed.

Lemma keeps_set_vtxsample P v s : keeps P (set_vtxsample v) s.
Proof. split; [reflexivity|]. exists []. simpl. now rewrite app_nil_r. Qed.

Lemma keeps_set_wave P s p sp : keeps P (set_wave (seek (wave (self s)) p sp)) s.
Proof. split; [reflexivity|]. exists []. simpl. now rewrite app_nil_r. Qed.

Lemma keeps_bind {A B} P (m : M F A) (f : A -> M F B) s :
  keeps P m s ->
  (forall s' a, m s = (s', Ok a) -> extends P s s' -> keeps P (f a) s') ->
  keeps P (m ≫= f) s.
Proof.
  unfold keeps, mbind, M_bind. intros Hm Hf.
  destruct (m s) as [s1 [a|e]] eqn:E; [|exact Hm].
  eapply extends_trans; [exact Hm|]. now apply (Hf s1 a).
Qed.

Lemma keeps_mapM {A B} P (f : A -> M F B) (l : list A) :
  (forall x s, x ∈ l -> keeps P (f x) s) -> forall s, keeps P (mapM f l) s.
Proof.
  induction l as [|x l IH]; intros Hf s; cbn [mapM].
  - apply keeps_ret.
  - apply keeps_bind; [apply Hf; left|]. intros s1 y _ _.
    apply keeps_bind; [apply IH; intros; apply Hf; now right|].
    intros. apply keeps_ret.
Qed.

Lemma keeps_queue_put P m s :
  (forall q, queue (self s) = Some q -> P (Some q) (EPut q m)) -> keeps P (queue_put m) s.
Proof.
  intros H. unfold queue_put. apply keeps_bind; [apply keeps_get_self|].
  intros s' o [= <- <-] _. destruct (queue (self s)) as [q|] eqn:E.
  - apply keeps_emit. rewrite E. now apply H.
  - apply keeps_ret.
Qed.

Lemma keeps_py_float_div P x y s : keeps P (py_float_div x y) s.
Proof. unfold py_float_div. destruct (float_is_zero y); [apply keeps_raise | apply keeps_ret]. Qed.

Lemma keeps_getitem {A} P (l : list A) i s : keeps P (getitem l i) s.
Proof.
  unfold getitem. cbv zeta.
  destruct (_ || _); [apply keeps_raise|].
  destruct (l !! _); [apply keeps_ret | apply keeps_raise].
Qed.

Lemma keeps_py_max P l s : keeps P (py_max l) s.
Proof. destruct l; [apply keeps_raise | apply keeps_ret]. Qed.

Lemma keeps_rewind P s : keeps P rewind s.
Proof.
  unfold rewind. apply keeps_bind; [apply keeps_get_self|].
  intros s' o [= <- <-] _. apply keeps_set_wave.
Qed.

Lemma keeps_readframes P n s :
  (forall p, P (queue (self s)) (EReadframes p n)) -> keeps P (readframes n) s.
Proof.
  intros H. unfold readframes. apply keeps_bind; [apply keeps_get_self|].
  intros s' o [= <- <-] _. cbv zeta.
  apply keeps_bind; [apply keeps_emit, H|].
  intros s1 [] [= <-] _.
  destruct (n =? 0); [apply keeps_ret|].
  destruct (_ =? 0).
  - apply keeps_bind; [apply (keeps_set_wave P (log s _))|]. intros. apply keeps_raise.
  - apply keeps_bind; [apply (keeps_set_wave P (log s _))|]. intros. apply keeps_ret.
Qed.

Lemma keeps_struct_unpack P fmt data s : keeps P (struct_unpack fmt data) s.
Proof. unfold struct_unpack. destruct (unpack fmt data); [apply keeps_ret | apply keeps_raise]. Qed.


Lemma keeps_parsedata P i s :
  (forall p n, P (queue (self s)) (EReadframes p n)) ->
  (forall q, queue (self s) = Some q -> P (Some q) (EPut q (MInt i))) ->
  keeps P (parsedata i) s.
Proof.
  intros Hr Hp. unfold parsedata.
  apply keeps_bind; [now apply keeps_queue_put|]. intros s1 [] _ X1.
  apply keeps_bind; [apply keeps_get_self|]. intros s2 o [= <- <-] _. cbv zeta.
  apply keeps_bind.
  - apply keeps_readframes. intros p.
    rewrite (song_of_queue _ _ (proj1 X1)). apply Hr.
  - intros. apply keeps_struct_unpack.
Qed.

Lemma keeps_convertAbsolute P amps i s :
  (forall q, queue (self s) = Some q -> P (Some q) (EPut q (MInt i))) ->
  keeps P (convertAbsolute amps i) s.
Proof.
  intros Hp. unfold convertAbsolute.
  apply keeps_bind; [now apply keeps_queue_put|]. intros. apply keeps_ret.
Qed.

Lemma keeps_averageAmps P amps i s :
  (forall q, queue (self s) = Some q -> P (Some q) (EPut q (MInt i))) ->
  keeps P (averageAmps amps i) s.
Proof.
  intros Hp. unfold averageAmps.
  apply keeps_bind; [now apply keeps_queue_put|]. intros.
  destruct (_ =? 0); [apply keeps_raise | apply keeps_ret].
Qed.

Lemma keeps_relativeScale P amps hRatio i s :
  (forall q, queue (self s) = Some q -> P (Some q) (EPut q (MInt i))) ->
  keeps P (relativeScale amps hRatio i) s.
Proof.
  intros Hp. unfold relativeScale.
  apply keeps_bind; [now apply keeps_queue_put|]. intros. apply keeps_ret.
Qed.

(** A comprehension over the indices of a list. *)
Lemma keeps_index_loop {A B} P (body : A -> Z -> M F B) (l : list A) n s :
  (forall a i s', 0 <= i < n -> keeps P (body a i) s') ->
  len l <= n ->
  keeps P (mapM (fun i => a ← getitem l i; body a i) (xrange (len l))) s.
Proof.
  intros Hb Hn. apply keeps_mapM. intros i s' Hi.
  apply keeps_bind; [apply keeps_getitem|]. intros s1 a _ _.
  apply Hb. unfold xrange in Hi. apply elem_of_seqZ in Hi. lia.
Qed.

Lemma createheightvals_keeps P nvtx vheight negative s :
  (forall q p n, P q (EReadframes p n)) ->
  (forall q label, P (Some q) (EPut q (MTuple label nvtx))) ->
  (forall q label, P (Some q) (EPut q (MTuple label (Z.max 0 nvtx)))) ->
  (forall q i, 0 <= i < nvtx -> P (Some q) (EPut q (MInt i))) ->
  keeps P (createheightvals nvtx vheight negative) s.
Proof.
  intros Hr Ht Ht0 Hi. unfold createheightvals.
  apply keeps_bind; [apply keeps_rewind|]. intros s1 [] _ _.
  apply keeps_bind; [apply keeps_get_self|]. intros s2 o _ _.
  apply keeps_bind; [apply keeps_py_float_div|]. intros s3 q _ _.
  apply keeps_bind; [apply keeps_set_vtxsample|]. intros s4 [] _ _.
  apply keeps_bind; [apply keeps_queue_put; intros; apply Ht|]. intros s5 [] _ _.
  apply keeps_bind.
  { apply keeps_mapM. intros i s' Hin. unfold xrange in Hin.
    apply elem_of_seqZ in Hin.
    apply keeps_parsedata; intros; [apply Hr | apply Hi; lia]. }
  intros s6 allAmps Hread _.
  assert (Hlen : len allAmps = Z.max 0 nvtx).
  { apply mapM_length in Hread. unfold len, xrange in *.
    rewrite Hread, length_seqZ. lia. }
  assert (Hle : len allAmps <= Z.max 0 nvtx) by lia.
  apply keeps_bind.
  { destruct negative; cbn [negb]; [apply keeps_ret|].
    apply keeps_bind; [apply keeps_queue_put; intros; rewrite Hlen; apply Ht0|].
    intros. apply keeps_index_loop with (n := Z.max 0 nvtx); [|exact Hle].
    intros. apply keeps_convertAbsolute. intros. apply Hi. lia. }
  intros s7 allAmps' Habs _.
  assert (Hlen' : len allAmps' = Z.max 0 nvtx).
  { destruct negative; cbn [negb] in Habs.
    - injection Habs as _ <-. exact Hlen.
    - apply bind_Ok_inv in Habs. destruct Habs as (? & ? & _ & Habs).
      apply mapM_xrange_len in Habs. unfold len in *. now rewrite Habs. }
  apply keeps_bind; [apply keeps_queue_put; intros; rewrite Hlen'; apply Ht0|].
  intros s8 [] _ _.
  apply keeps_bind.
  { apply keeps_index_loop with (n := Z.max 0 nvtx); [|lia].
    intros. apply keeps_averageAmps. intros. apply Hi. lia. }
  intros s9 avgs Havg _.
  assert (Hlen'' : len avgs = Z.max 0 nvtx).
  { apply mapM_xrange_len in Havg. unfold len in *. now rewrite Havg. }
  apply keeps_bind; [apply keeps_py_max|]. intros s10 m _ _.
  apply keeps_bind; [apply keeps_py_float_div|]. intros s11 hRatio _ _.
  apply keeps_bind; [apply keeps_queue_put; intros; rewrite Hlen''; apply Ht0|].
  intros s12 [] _ _.
  apply keeps_index_loop with (n := Z.max 0 nvtx); [|lia].
  intros. apply keeps_relativeScale. intros. apply Hi. lia.
Qed.

End Frame.

Section Framed.
Context {F : Type} {PF : PyFloat F}.
Implicit Types (s : world F) (o : TerrainWaveFile F).

Lemma framed_ret {A} (a : A) : framed (F:=F) (mret a).
Proof. intros tr s. reflexivity. Qed.

Lemma framed_raise {A} e : framed (F:=F) (raise (A:=A) e).
Proof. intros tr s. reflexivity. Qed.

Lemma framed_get_self : framed (F:=F) get_self.
Proof. intros tr s. reflexivity. Qed.

Lemma framed_emit e : framed (F:=F) (emit e).
Proof. intros tr s. unfold emit, log, prepend. simpl. now rewrite app_assoc. Qed.

Lemma framed_set_vtxsample v : framed (F:=F) (set_vtxsample v).
Proof. intros tr s. reflexivity. Qed.

Lemma framed_set_wave w : framed (F:=F) (set_wave w).
Proof. intros tr s. reflexivity. Qed.

Lemma framed_bind {A B} (m : M F A) (f : A -> M F B) :
  framed m -> (forall a, framed (f a)) -> framed (m ≫= f).
Proof.
  intros Hm Hf tr s. unfold mbind, M_bind. rewrite (Hm tr s).
  destruct (m s) as [s1 [a|e]]; simpl; [apply Hf | reflexivity].
Qed.

Lemma framed_self {A} (k : TerrainWaveFile F -> M F A) :
  (forall o, framed (k o)) -> framed (o ← get_self; k o).
Proof. intros Hk tr s. exact (Hk (self s) tr s). Qed.

Lemma framed_mapM {A B} (f : A -> M F B) (l : list A) :
  (forall x, framed (f x)) -> framed (mapM f l).
Proof.
  intros Hf. induction l as [|x l IH]; cbn [mapM].
  - apply framed_ret.
  - apply framed_bind; [apply Hf|]. intros y.
    apply framed_bind; [apply IH|]. intros k. apply framed_ret.
Qed.

Lemma framed_queue_put m : framed (F:=F) (queue_put m).
Proof.
  unfold queue_put. apply framed_self. intros o.
  destruct (queue o); [apply framed_emit | apply framed_ret].
Qed.

Lemma framed_py_float_div x y : framed (F:=F) (py_float_div x y).
Proof. unfold py_float_div. destruct (float_is_zero y); [apply framed_raise | apply framed_ret]. Qed.

Lemma framed_getitem {A} (l : list A) i : framed (F:=F) (getitem l i).
Proof.
  unfold getitem. cbv zeta.
  destruct (_ || _); [apply framed_raise|].
  destruct (l !! _); [apply framed_ret | apply framed_raise].
Qed.

Lemma framed_py_max l : framed (F:=F) (py_max l).
Proof. destruct l; [apply framed_raise | apply framed_ret]. Qed.

Lemma framed_rewind : framed (F:=F) rewind.
Proof. unfold rewind. apply framed_self. intros o. apply framed_set_wave. Qed.

Lemma framed_readframes n : framed (F:=F) (readframes n).
Proof.
  unfold readframes. apply framed_self. intros o. cbv zeta.
  apply framed_bind; [apply framed_emit|]. intros [].
  destruct (n =? 0); [apply framed_ret|].
  destruct (_ =? 0); (apply framed_bind; [apply framed_set_wave|]; intros []);
    [apply framed_raise | apply framed_ret].
Qed.

Lemma framed_struct_unpack fmt data : framed (F:=F) (struct_unpack fmt data).
Proof. unfold struct_unpack. destruct (unpack fmt data); [apply framed_ret | apply framed_raise]. Qed.

Lemma framed_parsedata i : framed (F:=F) (parsedata i).
Proof.
  unfold parsedata. apply framed_bind; [apply framed_queue_put|]. intros [].
  apply framed_self. intros o. cbv zeta.
  apply framed_bind; [apply framed_readframes|]. intros data. apply framed_struct_unpack.
Qed.

Lemma framed_convertAbsolute amps i : framed (F:=F) (convertAbsolute amps i).
Proof.
  unfold convertAbsolute. apply framed_bind; [apply framed_queue_put|].
  intros []. apply framed_ret.
Qed.

Lemma framed_averageAmps amps i : framed (F:=F) (averageAmps amps i).
Proof.
  unfold averageAmps. apply framed_bind; [apply framed_queue_put|]. intros [].
  destruct (_ =? 0); [apply framed_raise | apply framed_ret].
Qed.

Lemma framed_relativeScale amps hRatio i : framed (F:=F) (relativeScale amps hRatio i).
Proof.
  unfold relativeScale. apply framed_bind; [apply framed_queue_put|].
  intros []. apply framed_ret.
Qed.

Lemma framed_index_loop {A B} (body : A -> Z -> M F B) (l : list A) :
  (forall a i, framed (body a i)) ->
  framed (mapM (fun i => a ← getitem l i; body a i) (xrange (len l))).
Proof.
  intros Hb. apply framed_mapM. intros i.
  apply framed_bind; [apply framed_getitem|]. intros a. apply Hb.
Qed.

Lemma createheightvals_framed nvtx vheight negative :
  framed (F:=F) (createheightvals nvtx vheight negative).
Proof.
  unfold createheightvals.
  apply framed_bind; [apply framed_rewind|]. intros [].
  apply framed_self. intros o.
  apply framed_bind; [apply framed_py_float_div|]. intros q.
  apply framed_bind; [apply framed_set_vtxsample|]. intros [].
  apply framed_bind; [apply framed_queue_put|]. intros [].
  apply framed_bind; [apply framed_mapM; intros; apply framed_parsedata|]. intros allAmps.
  apply framed_bind.
  { destruct negative; cbn [negb]; [apply framed_ret|].
    apply framed_bind; [apply framed_queue_put|]. intros [].
    apply framed_index_loop. intros. apply framed_convertAbsolute. }
  intros allAmps'.
  apply framed_bind; [apply framed_queue_put|]. intros [].
  apply framed_bind; [apply framed_index_loop; intros; apply framed_averageAmps|].
  intros avgs.
  apply framed_bind; [apply framed_py_max|]. intros m.
  apply framed_bind; [apply framed_py_float_div|]. intros hRatio.
  apply framed_bind; [apply framed_queue_put|]. intros [].
  apply framed_index_loop. intros. apply framed_relativeScale.
Qed.

(** The first four statements of [createheightvals]: the pass starts from
    the song alone. *)
Lemma createheightvals_start {A} (K : M F A) nvtx s :
  (rewind;; o ← get_self;
   q ← py_float_div (float_of_int (_nframes (wave o))) (float_of_int nvtx);
   set_vtxsample (float_trunc q);; K) s
  = if float_is_zero (float_of_int nvtx)
    then (mkWorld (with_wave (self s) (seek (wave (self s)) 0 0)) (trace s),
          Raise (ZeroDivisionError "float division by zero"))
    else K (mkWorld (with_vtxsample (song_of (self s))
                       (float_trunc (float_div
                          (float_of_int (_nframes (wave (song_of (self s)))))
                          (float_of_int nvtx))))
                    (trace s)).
Proof.
  unfold rewind, get_self, set_wave, set_vtxsample, py_float_div, raise,
    mbind, M_bind, mret, M_ret. simpl.
  destruct (float_is_zero (float_of_int nvtx)); reflexivity.
Qed.

Lemma createheightvals_song_of nvtx vheight negative s1 s2 :
  song_of (self s1) = song_of (self s2) -> trace s1 = trace s2 ->
  (createheightvals nvtx vheight negative s1).2
  = (createheightvals nvtx vheight negative s2).2 /\
  trace (createheightvals nvtx vheight negative s1).1
  = trace (createheightvals nvtx vheight negative s2).1.
Proof.
  intros E T. unfold createheightvals.
  rewrite !createheightvals_start. rewrite E, T.
  destruct (float_is_zero (float_of_int nvtx)); simpl; split; reflexivity.
Qed.

End Framed.

(** ** Consequences for [createheightvals] *)

Section General.
Context {F : Type} {PF : PyFloat F}.
Implicit Types (s : world F) (o : TerrainWaveFile F).

Lemma song_of_idem o : song_of (song_of o) = song_of o.
Proof. reflexivity. Qed.

Lemma createheightvals_canonical nvtx vheight negative s :
  let r := createheightvals nvtx vheight negative (mkWorld (song_of (self s)) []) in
  (createheightvals nvtx vheight negative s).2 = r.2 /\
  trace (createheightvals nvtx vheight negative s).1 = trace s ++ trace r.1.
Proof.
  cbv zeta.
  pose proof (createheightvals_framed nvtx vheight negative (trace s)
                (mkWorld (song_of (self s)) [])) as Hf.
  destruct (createheightvals_song_of nvtx vheight negative s
              (prepend (trace s) (mkWorld (song_of (self s)) []))) as [E1 E2].
  - reflexivity.
  - unfold prepend. simpl. now rewrite app_nil_r.
  - rewrite E1, E2, Hf. split; reflexivity.
Qed.

Lemma queue_contents_other q0 q evs :
  q0 <> Some q ->
  Forall (fun e => match e with EPut q' _ => q0 = Some q' | _ => True end) evs ->
  queue_contents q evs = [].
Proof.
  intros Hq. induction 1 as [|e evs He _ IH]; [reflexivity|].
  destruct e as [q' m|]; simpl; [|exact IH].
  destruct (Nat.eqb_spec q q') as [->|_]; [contradiction | exact IH].
Qed.

Lemma queue_contents_pass n q evs :
  Forall (fun e => match e with EPut _ m => pass_msg n m | _ => True end) evs ->
  Forall (pass_msg n) (queue_contents q evs).
Proof.
  induction 1 as [|e evs He _ IH]; [constructor|].
  destruct e as [q' m|]; simpl; [|exact IH].
  destruct (Nat.eqb q q'); [now constructor | exact IH].
Qed.

End General.

(** X1. A sampling pass never modifies the song: whatever the stream, the
    arguments and the outcome, the header fields, the data, the unpack
    format, the queue and the other attributes [__init__] set are the
    same afterwards (only the cursor and [vtxsample] are assigned). *)
Theorem createheightvals_preserves_song {F} `{PyFloat F} nvtx vheight negative
    (s : world F) :
  let o := self s in
  let o' := self (createheightvals nvtx vheight negative s).1 in
  _nchannels (wave o') = _nchannels (wave o) /\
  _sampwidth (wave o') = _sampwidth (wave o) /\
  _framerate (wave o') = _framerate (wave o) /\
  _nframes (wave o') = _nframes (wave o) /\
  _data_chunk (wave o') = _data_chunk (wave o) /\
  _samplesize o' = _samplesize o /\
  _songlength o' = _songlength o /\
  _unpackstructval o' = _unpackstructval o /\
  _maxamplidtude o' = _maxamplidtude o /\
  stop o' = stop o /\
  queue o' = queue o.
Proof.
  cbv zeta.
  destruct (createheightvals_keeps (fun _ _ => True) nvtx vheight negative s)
    as [E _]; try (intros; exact I).
  set (o' := self (createheightvals nvtx vheight negative s).1) in *.
  repeat split.
  - exact (f_equal (fun o => _nchannels (wave o)) E).
  - exact (f_equal (fun o => _sampwidth (wave o)) E).
  - exact (f_equal (fun o => _framerate (wave o)) E).
  - exact (f_equal (fun o => _nframes (wave o)) E).
  - exact (f_equal (fun o => _data_chunk (wave o)) E).
  - exact (f_equal _samplesize E).
  - exact (f_equal _songlength E).
  - exact (f_equal _unpackstructval E).
  - exact (f_equal _maxamplidtude E).
  - exact (f_equal stop E).
  - exact (f_equal queue E).
Qed.

(** X2. A sampling pass only appends to the trace, and puts nothing on a
    queue that is not the one of the object: with no queue at all, no
    message is put anywhere. *)
Theorem createheightvals_other_queues {F} `{PyFloat F} nvtx vheight negative
    (s : world F) q :
  queue (self s) <> Some q ->
  let s' := (createheightvals nvtx vheight negative s).1 in
  (exists evs, trace s' = trace s ++ evs) /\
  queue_contents q (trace s') = queue_contents q (trace s).
Proof.
  intros Hq. cbv zeta.
  destruct (createheightvals_keeps
              (fun q0 e => match e with EPut q' _ => q0 = Some q' | _ => True end)
              nvtx vheight negative s)
    as [_ (evs & T & Hevs)]; try (intros; exact I); try reflexivity.
  split; [now exists evs|].
  rewrite T, queue_contents_app.
  rewrite (queue_contents_other _ _ _ Hq Hevs). apply app_nil_r.
Qed.

Lemma createheightvals_other_queues_witness :
  let s' := (createheightvals 2 (3 # 1) false (mkWorld (song_1_m5 None) [EPut 0%nat (MStr "x")])).1 in
  (exists evs, trace s' = [EPut 0%nat (MStr "x")] ++ evs) /\
  queue_contents 0%nat (trace s') = [MStr "x"].
Proof.
  apply (createheightvals_other_queues 2 (3 # 1) false
           (mkWorld (song_1_m5 None) [EPut 0%nat (MStr "x")]) 0%nat).
  simpl. discriminate.
Defined.

(** X3. For a vertex count [nvtx >= 0], whatever the stream and whether
    the pass returns or raises, every message it puts is a stage tuple
    whose total is [nvtx] or a bucket index [i] with [0 <= i < nvtx];
    it never puts a string. *)
Theorem createheightvals_messages {F} `{PyFloat F} nvtx vheight negative
    (s : world F) q :
  0 <= nvtx ->
  exists ms,
    queue_contents q (trace (createheightvals nvtx vheight negative s).1)
    = queue_contents q (trace s) ++ ms /\
    Forall (pass_msg nvtx) ms.
Proof.
  intros Hn.
  destruct (createheightvals_keeps
              (fun _ e => match e with EPut _ m => pass_msg nvtx m | _ => True end)
              nvtx vheight negative s)
    as [_ (evs & T & Hevs)]; try (intros; exact I); try (intros; simpl; lia).
  exists (queue_contents q evs). split.
  - now rewrite T, queue_contents_app.
  - now apply queue_contents_pass.
Qed.

Lemma createheightvals_messages_witness :
  exists ms,
    queue_contents 0%nat
      (trace (createheightvals 3 (1 # 1) false (mkWorld (song_1_m5 (Some 0%nat)) [])).1)
    = queue_contents 0%nat [] ++ ms /\
    Forall (pass_msg 3) ms.
Proof.
  apply (createheightvals_messages 3 (1 # 1) false (mkWorld (song_1_m5 (Some 0%nat)) []) 0%nat).
  lia.
Defined.

(** X4. Sampling is repeatable: a second call with the same arguments,
    made on the state the first one left, has the same outcome (the same
    values or the same exception) and performs the same effects. *)
Theorem createheightvals_repeatable {F} `{PyFloat F} nvtx vheight negative
    (s : world F) :
  let s1 := (createheightvals nvtx vheight negative s).1 in
  let s2 := (createheightvals nvtx vheight negative s1).1 in
  (createheightvals nvtx vheight negative s1).2
  = (createheightvals nvtx vheight negative s).2 /\
  exists evs, trace s1 = trace s ++ evs /\ trace s2 = trace s1 ++ evs.
Proof.
  cbv zeta.
  destruct (createheightvals_keeps (fun _ _ => True) nvtx vheight negative s)
    as [E _]; try (intros; exact I).
  destruct (createheightvals_canonical nvtx vheight negative s) as [R1 T1].
  destruct (createheightvals_canonical nvtx vheight negative
              (createheightvals nvtx vheight negative s).1) as [R2 T2].
  cbv zeta in *. rewrite E in R2, T2.
  split; [congruence|]. eexists. split; [exact T1 | exact T2].
Qed.

(** X5. The outcome and the effects of a pass do not depend on where the
    cursor was, on the frames per bucket of an earlier call, or on the
    events already in the trace: the pass rewinds first. *)
Theorem createheightvals_cursor_independent {F} `{PyFloat F} nvtx vheight negative
    (o : TerrainWaveFile F) pos soundpos vs tr :
  let s := mkWorld (with_vtxsample (with_wave o (seek (wave o) pos soundpos)) vs) tr in
  (createheightvals nvtx vheight negative s).2
  = (createheightvals nvtx vheight negative (mkWorld o [])).2 /\
  trace (createheightvals nvtx vheight negative s).1
  = tr ++ trace (createheightvals nvtx vheight negative (mkWorld o [])).1.
Proof.
  cbv zeta.
  destruct (createheightvals_canonical nvtx vheight negative
    (mkWorld (with_vtxsample (with_wave o (seek (wave o) pos soundpos)) vs) tr)) as [R1 T1].
  destruct (createheightvals_canonical nvtx vheight negative (mkWorld o [])) as [R2 T2].
  cbv zeta in *. simpl self in *. simpl trace in *.
  change (song_of (with_vtxsample (with_wave o (seek (wave o) pos soundpos)) vs))
    with (song_of o) in *.
  split; [congruence|]. rewrite T1, T2. reflexivity.
Qed.

(** * The methods one by one *)

Lemma py_sum_bounds lo hi (l : list Z) :
  Forall (fun x => lo <= x <= hi) l -> len l * lo <= py_sum l <= len l * hi.
Proof.
  induction 1 as [|x l Hx _ IH]; [unfold len, py_sum; simpl; lia|].
  rewrite py_sum_cons. unfold len in *. simpl length. lia.
Qed.

(** X6. On 16-bit samples [convertAbsolute] puts its index and returns
    the absolute values, elementwise ([~x+1] is [-x]); they lie in
    [0, 32768]: the sample -32768 becomes 32768, which is not a 16-bit
    value. *)
Theorem convertAbsolute_absolute {F} `{PyFloat F} amps i (s : world F) :
  Forall (fun x => -32768 <= x <= 32767) amps ->
  exists l,
    convertAbsolute amps i s = (log s (puts (queue (self s)) [MInt i]), Ok l) /\
    Forall2 (fun x y => y = Z.abs x) amps l /\
    Forall (fun y => 0 <= y <= 32768) l.
Proof.
  intros Hr. exists (map Z.abs amps). split; [apply convertAbsolute_run|]. split.
  - induction amps; constructor; [reflexivity|]. apply IHamps. now inversion Hr.
  - induction Hr; constructor; [lia | assumption].
Qed.

Lemma convertAbsolute_absolute_witness :
  exists l,
    convertAbsolute [-32768; 5] 0 (mkWorld (song_1_m5 None) [])
    = (log (mkWorld (song_1_m5 None) []) (puts None [MInt 0]), Ok l) /\
    Forall2 (fun x y => y = Z.abs x) [-32768; 5] l /\
    Forall (fun y => 0 <= y <= 32768) l.
Proof.
  apply (convertAbsolute_absolute [-32768; 5] 0 (mkWorld (song_1_m5 None) [])).
  repeat constructor; vm_compute; discriminate.
Defined.

(** X7. [averageAmps] returns the floor of the mean, which lies between
    any bounds of the samples, and raises [ZeroDivisionError] exactly on
    the empty tuple. *)
Theorem averageAmps_floor_mean {F} `{PyFloat F} amps i (s : world F) lo hi :
  Forall (fun x => lo <= x <= hi) amps ->
  match (averageAmps amps i s).2 with
  | Ok m => amps <> [] /\
            len amps * m <= py_sum amps < len amps * (m + 1) /\
            lo <= m <= hi
  | Raise e => amps = [] /\
               e = ZeroDivisionError "integer division or modulo by zero"
  end.
Proof.
  intros Hb. destruct amps as [|a amps].
  - rewrite averageAmps_empty. now split.
  - rewrite averageAmps_run by discriminate. cbn [snd].
    split; [discriminate|].
    pose proof (py_sum_bounds lo hi _ Hb) as Hs.
    set (l := a :: amps) in *. set (n := len l) in *.
    assert (Hn : 0 < n) by (unfold n, len, l; simpl; lia).
    pose proof (Z.mul_div_le (py_sum l) n Hn).
    pose proof (Z.mul_succ_div_gt (py_sum l) n Hn).
    split; [lia|]. split.
    + apply Z.div_le_lower_bound; lia.
    + apply Z.div_le_upper_bound; lia.
Qed.

Lemma averageAmps_floor_mean_witness :
  match (averageAmps [-1; 0] 0 (mkWorld (song_1_m5 None) [])).2 with
  | Ok m => [-1; 0] <> [] /\
            len [-1; 0] * m <= py_sum [-1; 0] < len [-1; 0] * (m + 1) /\
            -1 <= m <= 0
  | Raise e => [-1; 0] = [] /\
               e = ZeroDivisionError "integer division or modulo by zero"
  end.
Proof.
  apply (averageAmps_floor_mean [-1; 0] 0 (mkWorld (song_1_m5 None) []) (-1) 0).
  repeat constructor; vm_compute; discriminate.
Defined.

(** X8. The constructor, in any float arithmetic in which the frame
    rate of the header converts to 0.0 only when it is 0 (the rationals,
    and binary64 on every rate a header holds).  It fails, with
    [ZeroDivisionError], exactly when the frame rate is 0.  Otherwise the
    sample size read back is 8 times the sample width, the song length
    is the quotient [float(nframes) / framerate] as the arithmetic
    computes it, and the queue is the one passed.  The unpack format
    decodes the byte strings of [2 * floor(framesize / 2)] bytes, as
    little-endian shorts, and no other: a whole frame can be decoded
    exactly when the frame size is even. *)
Theorem __init___outcome {F} `{PyFloat F} (w : Wave_read) q :
  float_is_zero (float_of_int (_framerate w)) = (_framerate w =? 0) ->
  match __init__ w q with
  | Ok o =>
      _framerate w <> 0 /\
      wave o = w /\
      getsamplesize o = Ok (VInt (8 * _sampwidth w)) /\
      getsonglength o
      = Ok (VFloat (float_div (float_of_int (_nframes w))
                              (float_of_int (_framerate w)))) /\
      (forall data : list byte,
         unpack (_unpackstructval o) data
         = if decide (length data = (2 * Z.to_nat (_framesize w / 2))%nat)
           then Some (shorts data) else None) /\
      (forall frame : list byte,
         0 <= _framesize w -> len frame = _framesize w ->
         (unpack (_unpackstructval o) frame <> None
          <-> Z.even (_framesize w) = true)) /\
      queue o = q /\ vtxsample o = 0 /\ stop o = false
  | Raise e =>
      _framerate w = 0 /\ e = ZeroDivisionError "float division by zero"
  end.
Proof.
  intros Hz. unfold __init__. rewrite Hz.
  destruct (Z.eqb_spec (_framerate w) 0) as [E|E]; [now split|].
  assert (Hunpack : forall data : list byte,
    unpack (str_mul "h" (_nchannels w * _sampwidth w / 2)) data
    = if decide (length data = (2 * Z.to_nat (_framesize w / 2))%nat)
      then Some (shorts data) else None).
  { intros data. unfold str_mul. fold (_framesize w).
    destruct (decide _) as [Hl|Hl]; [now apply unpack_h | now apply unpack_h_mismatch]. }
  split; [exact E|]. split; [reflexivity|]. split.
  { unfold getsamplesize, getattr. cbn. do 2 f_equal. lia. }
  split; [reflexivity|]. split; [exact Hunpack|]. split; [|repeat split].
  intros frame Hfs Hlen. cbn [_unpackstructval]. rewrite Hunpack.
  unfold len in Hlen.
  destruct (Z.even (_framesize w)) eqn:Heven.
  - apply Z.even_spec in Heven. destruct Heven as [k Hk].
    assert (_framesize w / 2 = k) by (rewrite Hk, Z.mul_comm; apply Z.div_mul; lia).
    destruct (decide _) as [Hl|Hl]; [split; [reflexivity | discriminate]|].
    exfalso. apply Hl. lia.
  - rewrite <- Z.negb_odd in Heven. apply negb_false_iff, Z.odd_spec in Heven.
    destruct Heven as [k Hk].
    assert (_framesize w / 2 = k).
    { rewrite Hk. replace (2 * k + 1) with (1 + k * 2) by lia.
      rewrite Z.div_add by lia. change (1 / 2) with 0. lia. }
    destruct (decide _) as [Hl|Hl]; [exfalso; lia|].
    split; [intros Hn; now contradiction Hn | discriminate].
Qed.

(** In binary64, on the frames 1 and -5 at 44100 Hz. *)
Lemma __init___outcome_witness :
  match __init__ (F:=float) wave_1_m5 None with
  | Ok o =>
      _framerate wave_1_m5 <> 0 /\
      wave o = wave_1_m5 /\
      getsamplesize o = Ok (VInt (8 * _sampwidth wave_1_m5)) /\
      getsonglength o
      = Ok (VFloat (float_div (float_of_int (_nframes wave_1_m5))
                              (float_of_int (_framerate wave_1_m5)))) /\
      (forall data : list byte,
         unpack (_unpackstructval o) data
         = if decide (length data = (2 * Z.to_nat (_framesize wave_1_m5 / 2))%nat)
           then Some (shorts data) else None) /\
      (forall frame : list byte,
         0 <= _framesize wave_1_m5 -> len frame = _framesize wave_1_m5 ->
         (unpack (_unpackstructval o) frame <> None
          <-> Z.even (_framesize wave_1_m5) = true)) /\
      queue o = None /\ vtxsample o = 0 /\ stop o = false
  | Raise e =>
      _framerate wave_1_m5 = 0 /\ e = ZeroDivisionError "float division by zero"
  end.
Proof.
  apply (__init___outcome (F:=float) wave_1_m5 None). reflexivity.
Defined.

(** The song length of 13 frames at 44100 Hz: the binary64 quotient
    times the frame rate is not 13, as it is in exact arithmetic. *)
Example b64_songlength :
  let x := float_div (F:=float) (float_of_int 13) (float_of_int 44100) in
  PrimFloat.eqb (x * 44100) 13 = false /\
  (float_div (F:=Q) (float_of_int 13) (float_of_int 44100) * 44100 == 13)%Q.
Proof. split; vm_compute; reflexivity. Qed.

(** X9. On a stream whose frame size is odd (8-bit mono, for one) no call
    of [createheightvals] returns, whatever the arguments; for
    [1 <= nvtx <= nframes] the exception is [struct.error]. *)
Theorem createheightvals_odd_frame_size nvtx (vheight : Q) negative (s : world Q) :
  opened (self s) -> Z.even (_framesize (wave (self s))) = false ->
  exists s' e,
    createheightvals nvtx vheight negative s = (s', Raise e) /\
    (1 <= nvtx <= _nframes (wave (self s)) -> exists m, e = struct_error m).
Proof.
  intros Hop Hodd.
  destruct (Z.le_gt_cases nvtx 0) as [Hn0|Hn1].
  { destruct (Z.eq_dec nvtx 0) as [->|Hne].
    - destruct (createheightvals_zero_count vheight negative s Q_is_zero_0)
        as [s' E].
      eexists _, _. split; [exact E | lia].
    - destruct (createheightvals_negative_count nvtx vheight negative s
                  (Q_is_zero_int nvtx Hne) ltac:(lia)) as [s' E].
      eexists _, _. split; [exact E | lia]. }
  destruct (Z.lt_ge_cases (_nframes (wave (self s))) nvtx) as [Hfew|Hfit].
  { eexists _, _. split; [|lia].
    apply createheightvals_no_frames; [apply Q_is_zero_int; lia | | lia].
    apply framesPerBucket_Q_small. destruct Hop as [(_ & _ & Hnf & _) _]. lia. }
  destruct (createheightvals_odd nvtx vheight negative s Hop Hodd ltac:(lia))
    as (s' & m & E).
  eexists _, _. split; [exact E | intros _; now exists m].
Qed.

Lemma createheightvals_odd_frame_size_witness :
  exists s' e,
    createheightvals 2 (1 # 1) false (mkWorld (song_8_mono None) []) = (s', Raise e) /\
    (1 <= 2 <= _nframes wave_8_mono -> exists m, e = struct_error m).
Proof.
  apply (createheightvals_odd_frame_size 2 (1 # 1) false (mkWorld (song_8_mono None) [])).
  - opened_by_computation.
  - reflexivity.
Defined.

(** X10. From the constructor to the values: on a well-formed 16-bit
    stream with a non-zero frame rate, for [1 <= nvtx <= nframes] and a
    largest bucket mean that is not 0, the object is built and the pass
    on it returns, for each bucket, its mean times [vheight / max]; its
    effects are those of [sampling], with [nframes / nvtx] frames per
    bucket. *)
Theorem createheightvals_after_init (w : Wave_read) q nvtx (vheight : Q) negative :
  wf_wave w -> _sampwidth w = 2 -> _framerate w <> 0 ->
  1 <= nvtx <= _nframes w ->
  maximum (spec_rawAveragedValues w nvtx negative) <> 0 ->
  exists o s',
    __init__ w q = Ok o /\
    createheightvals nvtx vheight negative (mkWorld o [])
    = (s', Ok (heights vheight (spec_rawAveragedValues w nvtx negative))) /\
    trace s' = sampling q nvtx (_nframes w / nvtx) negative /\
    vtxsample (self s') = _nframes w / nvtx.
Proof.
  intros Hwf Hsw Hfr Hn Hmax.
  destruct (__init__ (F:=Q) w q) as [o|e] eqn:Hinit.
  2:{ unfold __init__ in Hinit. rewrite (Q_is_zero_int _ Hfr) in Hinit. discriminate. }
  pose proof (__init___opened w q o Hwf Hinit) as Hop.
  assert (Hw : wave o = w).
  { unfold __init__ in Hinit. rewrite (Q_is_zero_int _ Hfr) in Hinit.
    now injection Hinit as <-. }
  assert (Hq : queue o = q).
  { unfold __init__ in Hinit. rewrite (Q_is_zero_int _ Hfr) in Hinit.
    now injection Hinit as <-. }
  assert (Heven : Z.even (_framesize (wave (self (mkWorld o [])))) = true).
  { simpl. rewrite Hw. now apply sampwidth_2_even. }
  pose proof (createheightvals_Q nvtx vheight negative (mkWorld o []) Hop Heven) as Hrun.
  simpl self in Hrun. rewrite Hw in Hrun. specialize (Hrun Hn). cbv zeta in Hrun.
  apply Z.eqb_neq in Hmax. rewrite Hmax in Hrun.
  eexists _, _. split; [reflexivity|]. split; [exact Hrun|].
  split; simpl; [now rewrite Hq | reflexivity].
Qed.

Lemma createheightvals_after_init_witness :
  exists o s',
    __init__ wave_1_m5 (Some 0%nat) = Ok o /\
    createheightvals 2 (3 # 1) false (mkWorld o [])
    = (s', Ok (heights (3 # 1) (spec_rawAveragedValues wave_1_m5 2 false))) /\
    trace s' = sampling (Some 0%nat) 2 (_nframes wave_1_m5 / 2) false /\
    vtxsample (self s') = _nframes wave_1_m5 / 2.
Proof.
  apply (createheightvals_after_init wave_1_m5 (Some 0%nat) 2 (3 # 1) false).
  - repeat split; vm_compute; discriminate.
  - reflexivity.
  - discriminate.
  - split; vm_compute; discriminate.
  - vm_compute. discriminate.
Defined.

(** * The helpers of [mayaFuncs.py]

    ** [find_empty_entry_value] *)

Lemma list_getitem_lookup {A} (l : list A) (i : nat) a :
  l !! i = Some a -> list_getitem l (Z.of_nat i) = Ok a.
Proof.
  intros Hl. unfold list_getitem, len.
  pose proof (lookup_lt_Some _ _ _ Hl) as Hlt.
  assert (E1 : (Z.of_nat i <? 0) = false) by (apply Z.ltb_ge; lia).
  assert (E2 : (Z.of_nat (length l) <=? Z.of_nat i) = false) by (apply Z.leb_gt; lia).
  cbv zeta. rewrite !E1, E2. simpl. rewrite Nat2Z.id, Hl. reflexivity.
Qed.

Lemma find_gap_spec (eList : list Z) :
  increasing eList ->
  forall n j,
    (1 <= j)%nat -> (j + n)%nat = length eList ->
    (forall k, (k < j)%nat -> eList !! k = Some (Z.of_nat k)) ->
    exists v,
      find_gap eList (seqZ (Z.of_nat j) (Z.of_nat n)) = Ok v /\
      0 <= v <= len eList /\ (v ∉ eList) /\
      forall k, 0 <= k < v -> k ∈ eList.
Proof.
  intros Hinc. induction n as [|n IH]; intros j Hj Hlen Hpre.
  - exists (len eList). simpl. split; [reflexivity|].
    assert (Hl : len eList = Z.of_nat j) by (unfold len; lia).
    split; [lia|]. split.
    + intros Hin. apply list_elem_of_lookup in Hin. destruct Hin as [k Hk].
      pose proof (lookup_lt_Some _ _ _ Hk) as Hlt.
      rewrite Hpre in Hk by lia. injection Hk as Hk. lia.
    + intros k Hk. apply list_elem_of_lookup. exists (Z.to_nat k).
      rewrite Hpre by lia. f_equal. lia.
  - rewrite seqZ_cons by lia. cbn [find_gap].
    replace (Z.of_nat j - 1) with (Z.of_nat (j - 1)) by lia.
    rewrite (list_getitem_lookup eList (j - 1) (Z.of_nat (j - 1)))
      by (apply Hpre; lia).
    cbn [mbind result_bind].
    destruct (lookup_lt_is_Some_2 eList j ltac:(lia)) as [b Hb].
    rewrite (list_getitem_lookup eList j b Hb). cbn [mbind result_bind].
    assert (Hlt : Z.of_nat (j - 1) < b).
    { apply (Hinc (j - 1)%nat j); [lia | apply Hpre; lia | exact Hb]. }
    destruct (Z.eqb_spec (Z.of_nat (j - 1) + 1) b) as [E|E]; cbn [negb].
    + replace (Z.succ (Z.of_nat j)) with (Z.of_nat (S j)) by lia.
      replace (Z.pred (Z.of_nat (S n))) with (Z.of_nat n) by lia.
      apply IH; [lia | lia |].
      intros k Hk. destruct (Nat.eq_dec k j) as [->|Hne]; [|apply Hpre; lia].
      rewrite Hb. f_equal. lia.
    + exists (Z.of_nat (j - 1) + 1). split; [reflexivity|].
      split; [unfold len; lia|]. split.
      * intros Hin. apply list_elem_of_lookup in Hin. destruct Hin as [k Hk].
        destruct (Nat.lt_ge_cases k j) as [Hkj|Hkj].
        { rewrite Hpre in Hk by lia. injection Hk as Hk. lia. }
        destruct (Nat.eq_dec k j) as [->|Hne].
        { rewrite Hb in Hk. injection Hk as Hk. lia. }
        pose proof (Hinc j k _ _ ltac:(lia) Hb Hk). lia.
      * intros k Hk. apply list_elem_of_lookup. exists (Z.to_nat k).
        rewrite Hpre by lia. f_equal. lia.
Qed.

(** X11. On a strictly increasing list of non-negative indices (what the
    host lists for a multi-attribute) [find_empty_entry_value] returns
    the lowest index not in use: it is not in the list, every smaller
    non-negative index is, and it is at most the length of the list.  On
    the empty list it raises [IndexError]. *)
Theorem find_empty_entry_value_lowest (eList : list Z) :
  increasing eList -> Forall (fun x => 0 <= x) eList ->
  match find_empty_entry_value eList with
  | Ok v => eList <> [] /\ 0 <= v <= len eList /\ (v ∉ eList) /\
            forall k, 0 <= k < v -> k ∈ eList
  | Raise e => eList = [] /\ e = IndexError "list index out of range"
  end.
Proof.
  intros Hinc Hpos. destruct eList as [|x l]; [now split|].
  unfold find_empty_entry_value.
  assert (E0 : list_getitem (x :: l) 0 = Ok x)
    by exact (list_getitem_lookup (x :: l) 0%nat x eq_refl).
  rewrite E0. cbn [mbind result_bind].
  destruct (Z.eqb_spec x 0) as [->|Hx]; cbn [negb].
  - unfold range.
    destruct (find_gap_spec (0 :: l) Hinc (length l) 1) as (v & E & Hv);
      [lia | reflexivity | |].
    { intros k Hk. now replace k with 0%nat by lia. }
    replace (len (0 :: l) - 1) with (Z.of_nat (length l))
      by (unfold len; simpl length; lia).
    change 1 with (Z.of_nat 1) at 1. rewrite E. split; [discriminate | exact Hv].
  - split; [discriminate|]. split; [unfold len; simpl length; lia|]. split.
    + intros Hin. apply list_elem_of_lookup in Hin. destruct Hin as [k Hk].
      destruct k as [|k]; [simpl in Hk; congruence|].
      pose proof (Hinc 0%nat (S k) x 0 ltac:(lia) eq_refl Hk) as Hlt.
      inversion Hpos; subst. lia.
    + intros k Hk. lia.
Qed.

Lemma find_empty_entry_value_lowest_witness :
  match find_empty_entry_value [0; 1; 3] with
  | Ok v => [0; 1; 3] <> [] /\ 0 <= v <= len [0; 1; 3] /\ (v ∉ [0; 1; 3]) /\
            forall k, 0 <= k < v -> k ∈ [0; 1; 3]
  | Raise e => [0; 1; 3] = [] /\ e = IndexError "list index out of range"
  end.
Proof.
  apply (find_empty_entry_value_lowest [0; 1; 3]).
  - intros [|[|[|i]]] [|[|[|j]]] a b Hij; simpl; intros [= <-] [= <-];
      try lia; try discriminate.
  - repeat constructor; vm_compute; discriminate.
Defined.

(** ** [closest_colour] *)

Lemma result_mapM_ok {A B} (f : A -> result B) (g : A -> B) (l : list A) :
  (forall x, x ∈ l -> f x = Ok (g x)) -> mapM f l = Ok (map g l).
Proof.
  induction l as [|x l IH]; intros Hf; [reflexivity|].
  cbn [mapM]. rewrite Hf by left. cbn [mbind result_bind].
  rewrite IH by (intros; apply Hf; now right). reflexivity.
Qed.

(** *** The comparisons of binary64 and of the rationals *)

(** The order of two finite values of the same sign: exponents first. *)
Lemma SFcompare_finite_spec (e1 e2 : Z) (m1 m2 : positive) :
  match (match e1 ?= e2 with
         | Lt => Lt
         | Gt => Gt
         | Eq => Pos.compare_cont Eq m1 m2
         end) with
  | Lt => e1 < e2 \/ (e1 = e2 /\ (m1 < m2)%positive)
  | Eq => e1 = e2 /\ m1 = m2
  | Gt => e2 < e1 \/ (e1 = e2 /\ (m2 < m1)%positive)
  end.
Proof.
  change (Pos.compare_cont Eq m1 m2) with (m1 ?= m2)%positive.
  destruct (Z.compare_spec e1 e2); [|lia|lia].
  destruct (Pos.compare_spec m1 m2); [auto | right; auto | right; split; [auto | lia]].
Qed.

Lemma SFcompare_negative (e1 e2 : Z) (m1 m2 : positive) :
  match e1 ?= e2 with
  | Lt => Gt
  | Gt => Lt
  | Eq => CompOpp (Pos.compare_cont Eq m1 m2)
  end
  = CompOpp (match e1 ?= e2 with
             | Lt => Lt
             | Gt => Gt
             | Eq => Pos.compare_cont Eq m1 m2
             end).
Proof. now destruct (e1 ?= e2). Qed.

Ltac SFcompare_cases :=
  rewrite ?SFcompare_negative in *;
  repeat match goal with
  | H : context [match ?e1 ?= ?e2 with
                 | Lt => _
                 | Gt => _
                 | Eq => Pos.compare_cont Eq ?m1 ?m2
                 end] |- _ =>
      let X := fresh in
      pose proof (SFcompare_finite_spec e1 e2 m1 m2) as X;
      destruct (match e1 ?= e2 with
                | Lt => Lt
                | Gt => Gt
                | Eq => Pos.compare_cont Eq m1 m2
                end)
  | |- context [match ?e1 ?= ?e2 with
                | Lt => _
                | Gt => _
                | Eq => Pos.compare_cont Eq ?m1 ?m2
                end] =>
      let X := fresh in
      pose proof (SFcompare_finite_spec e1 e2 m1 m2) as X;
      destruct (match e1 ?= e2 with
                | Lt => Lt
                | Gt => Gt
                | Eq => Pos.compare_cont Eq m1 m2
                end)
  end.

Lemma SFcompare_refl x : SFcompare x x = None \/ SFcompare x x = Some Eq.
Proof.
  destruct x as [s|s| |s m e]; simpl; auto; destruct s; auto.
  all: right; f_equal; rewrite Z.compare_refl;
    change (Pos.compare_cont Eq m m) with (m ?= m)%positive;
    now rewrite Pos.compare_refl.
Qed.

Lemma SFcompare_sym x y :
  SFcompare y x = option_map CompOpp (SFcompare x y).
Proof.
  destruct x as [s1|s1| |s1 m1 e1], y as [s2|s2| |s2 m2 e2]; simpl; try reflexivity;
    try (destruct s1; reflexivity); try (destruct s2; reflexivity);
    try (destruct s1, s2; reflexivity).
  destruct s1, s2; try reflexivity; f_equal;
    rewrite (Z.compare_antisym e1 e2);
    change (Pos.compare_cont Eq m2 m1) with (m2 ?= m1)%positive;
    change (Pos.compare_cont Eq m1 m2) with (m1 ?= m2)%positive;
    rewrite (Pos.compare_antisym m1 m2);
    destruct (e1 ?= e2); simpl; try reflexivity;
    destruct (m1 ?= m2)%positive; reflexivity.
Qed.

Lemma SFcompare_Lt_trans x y z :
  SFcompare x y = Some Lt -> SFcompare y z = Some Lt -> SFcompare x z = Some Lt.
Proof.
  destruct x as [s1|s1| |s1 m1 e1], y as [s2|s2| |s2 m2 e2], z as [s3|s3| |s3 m3 e3];
    simpl; try discriminate; try reflexivity;
    try (destruct s1; try discriminate; try reflexivity);
    try (destruct s2; try discriminate; try reflexivity);
    try (destruct s3; try discriminate; try reflexivity);
    intros H1 H2; injection H1 as H1; injection H2 as H2; f_equal;
    SFcompare_cases; cbn [CompOpp] in *; cbv beta iota in *;
    try discriminate; try reflexivity; lia.
Qed.

Lemma SFcompare_Eq_l x y z :
  SFcompare x y = Some Eq -> SFcompare x z = SFcompare y z.
Proof.
  destruct x as [s1|s1| |s1 m1 e1], y as [s2|s2| |s2 m2 e2], z as [s3|s3| |s3 m3 e3];
    simpl; try discriminate; try reflexivity;
    try (destruct s1; try discriminate; try reflexivity);
    try (destruct s2; try discriminate; try reflexivity);
    try (destruct s3; try discriminate; try reflexivity);
    intros H1; injection H1 as H1;
    SFcompare_cases; cbn [CompOpp] in *; cbv beta iota in *;
    try discriminate; try reflexivity;
    try (exfalso; lia); f_equal;
    match goal with H : _ = _ /\ _ = _ |- _ => destruct H as [-> ->] end; reflexivity.
Qed.

Lemma SFcompare_Eq_r x y z :
  SFcompare x y = Some Eq -> SFcompare z x = SFcompare z y.
Proof.
  intros E. rewrite (SFcompare_sym x z), (SFcompare_sym y z).
  now rewrite (SFcompare_Eq_l x y z E).
Qed.

(** The comparisons of binary64 are those of its specification
    ([SFcompare]), which orders finite values by sign, exponent and
    mantissa and answers nothing on [nan]. *)
#[export] Instance b64_float_ord_laws : PyFloatOrdLaws float.
Proof.
  split; cbn [float_ltb float_eqb b64_float_ord]; intros x;
    [|intros y z|intros y z|intros y z|intros y];
    rewrite ?FloatAxioms.ltb_spec, ?FloatAxioms.eqb_spec; unfold SFltb, SFeqb.
  - destruct (SFcompare_refl (Prim2SF x)) as [-> | ->]; reflexivity.
  - destruct (SFcompare (Prim2SF x) (Prim2SF y)) as [[| |]|] eqn:E1; try discriminate.
    destruct (SFcompare (Prim2SF y) (Prim2SF z)) as [[| |]|] eqn:E2; try discriminate.
    now rewrite (SFcompare_Lt_trans _ _ _ E1 E2).
  - destruct (SFcompare (Prim2SF x) (Prim2SF y)) as [[| |]|] eqn:E1; try discriminate.
    now rewrite (SFcompare_Eq_l _ _ (Prim2SF z) E1).
  - destruct (SFcompare (Prim2SF x) (Prim2SF y)) as [[| |]|] eqn:E1; try discriminate.
    now rewrite (SFcompare_Eq_r _ _ (Prim2SF z) E1).
  - rewrite (SFcompare_sym (Prim2SF x) (Prim2SF y)).
    destruct (Prim2SF x) as [s1|s1| |s1 m1 e1] eqn:Ex; try discriminate;
      destruct (Prim2SF y) as [s2|s2| |s2 m2 e2] eqn:Ey; try discriminate;
      intros _ _; destruct (SFcompare _ _) as [[| |]|] eqn:E; try discriminate;
      try reflexivity; simpl in E; destruct s1; try destruct s2; discriminate.
Qed.

#[export] Instance Q_float_ord_laws : PyFloatOrdLaws Q.
Proof.
  split; cbn [float_ltb float_eqb Q_float_ord].
  - intros x. apply negb_false_iff, Qle_bool_iff, Qle_refl.
  - intros x y z H1 H2. apply negb_true_iff in H1, H2. apply negb_true_iff.
    destruct (Qle_bool z x) eqn:E; [|reflexivity].
    apply Qle_bool_iff in E.
    assert (Hyx : ~ (y <= x)%Q) by (intros H'; apply Qle_bool_iff in H'; congruence).
    assert (Hzy : ~ (z <= y)%Q) by (intros H'; apply Qle_bool_iff in H'; congruence).
    lra.
  - intros x y z H. apply Qeq_bool_iff in H. f_equal.
    destruct (Qle_bool z x) eqn:E1, (Qle_bool z y) eqn:E2; try reflexivity.
    + apply Qle_bool_iff in E1.
      assert (~ (z <= y)%Q) by (intros H'; apply Qle_bool_iff in H'; congruence). lra.
    + apply Qle_bool_iff in E2.
      assert (~ (z <= x)%Q) by (intros H'; apply Qle_bool_iff in H'; congruence). lra.
  - intros x y z H. apply Qeq_bool_iff in H. f_equal.
    destruct (Qle_bool x z) eqn:E1, (Qle_bool y z) eqn:E2; try reflexivity.
    + apply Qle_bool_iff in E1.
      assert (~ (y <= z)%Q) by (intros H'; apply Qle_bool_iff in H'; congruence). lra.
    + apply Qle_bool_iff in E2.
      assert (~ (x <= z)%Q) by (intros H'; apply Qle_bool_iff in H'; congruence). lra.
  - intros x y _ _ H1 H2. apply negb_false_iff, Qle_bool_iff in H1.
    apply negb_true_iff.
    destruct (Qle_bool x y) eqn:E; [|reflexivity].
    apply Qle_bool_iff in E.
    assert (~ (x == y)%Q) by (intros H'; apply Qeq_bool_iff in H'; congruence).
    lra.
Qed.

(** *** The call *)

Section ColourFacts.
Context {F : Type} {PF : PyFloat F} {PO : PyFloatOrd F}.

Lemma list_getitem_nth (c : list F) (i : nat) (d : F) :
  (i < length c)%nat -> list_getitem c (Z.of_nat i) = Ok (nth i c d).
Proof.
  intros Hi. apply list_getitem_lookup.
  destruct (lookup_lt_is_Some_2 c i Hi) as [a Ha]. rewrite Ha. f_equal.
  symmetry. apply nth_lookup_Some with (d := d). exact Ha.
Qed.

Lemma compare_run (colour : list F) (cColours : list (list F)) :
  (3 <= length colour)%nat -> Forall (fun c => (3 <= length c)%nat) cColours ->
  mapM (fun colC =>
          d ← mapM (fun i => a ← list_getitem colC i;
                             b ← list_getitem colour i;
                             mret (float_abs (float_sub a b)))
                   (range 0 3);
          mret (float_sum d))
       cColours
  = Ok (map (float_distance colour) cColours).
Proof.
  intros Hc Hall. apply result_mapM_ok. intros c Hin.
  pose proof (proj1 (Forall_forall _ _) Hall c Hin) as Hlen. cbv beta in Hlen.
  change (range 0 3) with [Z.of_nat 0; Z.of_nat 1; Z.of_nat 2].
  cbn [mapM].
  rewrite !(list_getitem_nth _ _ (float_of_int 0)) by lia. reflexivity.
Qed.

Context {PL : PyFloatOrdLaws F}.

(** [min] keeps an element of the list that none is [<] than. *)
Lemma float_min_from_spec (l : list F) : forall (pre : list F) (p : nat) (b : F),
  pre !! p = Some b ->
  Forall (fun y => float_ltb y b = false) pre ->
  exists p' b',
    float_min_from l (len pre) (Z.of_nat p, b) = (Z.of_nat p', b') /\
    (pre ++ l) !! p' = Some b' /\
    Forall (fun y => float_ltb y b' = false) (pre ++ l).
Proof.
  induction l as [|y l IH]; intros pre p b Hp Hall.
  - exists p, b. rewrite app_nil_r. now repeat split.
  - cbn [float_min_from snd].
    replace (len pre + 1) with (len (pre ++ [y])) by (rewrite len_app; reflexivity).
    replace (pre ++ y :: l) with ((pre ++ [y]) ++ l) by (now rewrite <- app_assoc).
    destruct (float_ltb y b) eqn:E.
    + change (len pre) with (Z.of_nat (length pre)).
      apply IH.
      * rewrite lookup_app_r by lia. now rewrite Nat.sub_diag.
      * apply Forall_app. split.
        -- apply Forall_forall. intros x Hx.
           destruct (float_ltb x y) eqn:Exy; [|reflexivity].
           pose proof (proj1 (Forall_forall _ _) Hall x Hx) as Hxb. cbv beta in Hxb.
           rewrite (float_ltb_trans x y b Exy E) in Hxb. discriminate.
        -- constructor; [apply float_ltb_irrefl | constructor].
    + apply IH.
      * apply lookup_app_l_Some. exact Hp.
      * apply Forall_app. split; [exact Hall|]. constructor; [exact E | constructor].
Qed.

Lemma float_min_spec (l : list F) :
  l <> [] ->
  exists p b,
    float_min l = Ok (Z.of_nat p, b) /\ l !! p = Some b /\
    Forall (fun y => float_ltb y b = false) l.
Proof.
  destruct l as [|x l]; [contradiction|]. intros _.
  destruct (float_min_from_spec l [x] 0%nat x eq_refl) as (p & b & E & Hp & Hall).
  { constructor; [apply float_ltb_irrefl | constructor]. }
  exists p, b. split; [|now split].
  cbn [float_min]. f_equal. exact E.
Qed.

(** [index] stops at the first element that is the object looked for or
    is equal to it. *)
Lemma float_index_from_spec (l : list F) : forall (i p : nat) (b : F),
  (i <= p)%nat -> l !! (p - i)%nat = Some b ->
  exists k,
    float_index_from l (Z.of_nat i) (Z.of_nat p, b) = Ok (Z.of_nat k) /\
    (i <= k <= p)%nat /\
    (k = p \/ exists y, l !! (k - i)%nat = Some y /\ float_eqb y b = true) /\
    forall j y, (i <= j < k)%nat -> l !! (j - i)%nat = Some y -> float_eqb y b = false.
Proof.
  induction l as [|y l IH]; intros i p b Hip Hp; [discriminate|].
  cbn [float_index_from fst snd].
  destruct (Z.eqb_spec (Z.of_nat i) (Z.of_nat p)) as [E|E]; cbn [orb].
  - exists i. split; [reflexivity|]. split; [lia|]. split; [left; lia | intros; lia].
  - destruct (float_eqb y b) eqn:Ey.
    + exists i. split; [reflexivity|]. split; [lia|]. split; [|intros; lia].
      right. exists y. rewrite Nat.sub_diag. now split.
    + destruct (IH (S i) p b) as (k & Ek & Hk & Hat & Hfirst); [lia | |].
      { replace (p - i)%nat with (S (p - S i)) in Hp by lia. exact Hp. }
      exists k. replace (Z.of_nat i + 1) with (Z.of_nat (S i)) by lia.
      split; [exact Ek|]. split; [lia|]. split.
      * destruct Hat as [->|(z & Hz & Ez)]; [now left|]. right. exists z.
        replace (k - i)%nat with (S (k - S i)) by lia. now split.
      * intros j z Hj Hz. destruct (Nat.eq_dec j i) as [->|Hne].
        -- rewrite Nat.sub_diag in Hz. injection Hz as <-. exact Ey.
        -- apply (Hfirst j z); [lia|].
           replace (j - i)%nat with (S (j - S i)) in Hz by lia. exact Hz.
Qed.

Lemma closest_colour_run (colour : list F) (cColours : list (list F)) :
  (3 <= length colour)%nat ->
  Forall (fun c => (3 <= length c)%nat) cColours ->
  cColours <> [] ->
  let d := float_distance colour in
  exists k c,
    closest_colour colour cColours = Ok c /\
    cColours !! k = Some c /\
    (forall c', c' ∈ cColours -> float_ltb (d c') (d c) = false) /\
    (Forall (fun c' => float_eqb (d c') (d c') = true) cColours ->
     forall j c', (j < k)%nat -> cColours !! j = Some c' ->
       float_ltb (d c) (d c') = true).
Proof.
  intros Hc Hall Hne d. unfold closest_colour.
  rewrite (compare_run colour cColours Hc Hall). cbn [mbind result_bind]. fold d.
  destruct (float_min_spec (map d cColours)) as (p & b & Em & Hp & Hmin).
  { destruct cColours; [contradiction | discriminate]. }
  rewrite Em. cbn [mbind result_bind].
  destruct (float_index_from_spec (map d cColours) 0 p b) as (k & Ek & Hk & Hat & Hfirst);
    [lia | now rewrite Nat.sub_0_r |].
  unfold float_index. change 0 with (Z.of_nat 0). rewrite Ek. cbn [mbind result_bind].
  rewrite list_lookup_fmap in Hp.
  destruct (cColours !! p) as [cp|] eqn:Hcp; [|discriminate]. injection Hp as <-.
  assert (Hck : exists c, cColours !! k = Some c /\
            (k = p \/ float_eqb (d c) (d cp) = true)).
  { destruct Hat as [->|(y & Hy & Ey)]; [exists cp; split; [exact Hcp | now left]|].
    rewrite Nat.sub_0_r, list_lookup_fmap in Hy.
    destruct (cColours !! k) as [c|] eqn:Hc'; [|discriminate]. injection Hy as <-.
    exists c. split; [reflexivity | now right]. }
  destruct Hck as (c & Hck & Hrel).
  assert (Heq_r : forall z, float_ltb z (d c) = float_ltb z (d cp)).
  { intros z. destruct Hrel as [->|E]; [|now apply float_eqb_ltb_r].
    rewrite Hcp in Hck. now injection Hck as <-. }
  assert (Heq_l : forall z, float_ltb (d c) z = float_ltb (d cp) z).
  { intros z. destruct Hrel as [->|E]; [|now apply float_eqb_ltb_l].
    rewrite Hcp in Hck. now injection Hck as <-. }
  exists k, c. split; [now apply list_getitem_lookup|]. split; [exact Hck|]. split.
  - intros c' Hc'. rewrite Heq_r.
    apply (proj1 (Forall_forall _ _) Hmin (d c')). now apply list_elem_of_fmap_2.
  - intros Hnan j c' Hj Hcj. rewrite Heq_l.
    apply float_ltb_total.
    + exact (proj1 (Forall_forall _ _) Hnan c' (list_elem_of_lookup_2 _ _ _ Hcj)).
    + exact (proj1 (Forall_forall _ _) Hnan cp (list_elem_of_lookup_2 _ _ _ Hcp)).
    + apply (proj1 (Forall_forall _ _) Hmin (d c')).
      apply list_elem_of_fmap_2. exact (list_elem_of_lookup_2 _ _ _ Hcj).
    + apply (Hfirst j (d c')); [lia|].
      rewrite Nat.sub_0_r, list_lookup_fmap, Hcj. reflexivity.
Qed.

End ColourFacts.

(** X12. In any float arithmetic whose comparisons are those of Python
    floats ([PyFloatOrdLaws]: binary64 and the rationals), on colours of
    at least three components, [closest_colour] returns a colour of
    [cColours] whose distance as line 116 computes it ([float_distance]:
    the sum of the absolute component differences, rounded as the
    arithmetic rounds) is the smallest: no colour of the tuple has a
    smaller computed distance.  When no computed distance is [nan], it is
    the first such colour: every earlier one has a larger computed
    distance.  On an empty tuple it raises the [ValueError] of [min]. *)
Theorem closest_colour_nearest {F} {PF : PyFloat F} {PO : PyFloatOrd F}
    {PL : PyFloatOrdLaws F} (colour : list F) (cColours : list (list F)) :
  (3 <= length colour)%nat ->
  Forall (fun c => (3 <= length c)%nat) cColours ->
  let d := float_distance colour in
  match closest_colour colour cColours with
  | Ok c =>
      exists k,
        cColours !! k = Some c /\
        (forall c', c' ∈ cColours -> float_ltb (d c') (d c) = false) /\
        (Forall (fun c' => float_eqb (d c') (d c') = true) cColours ->
         forall j c', (j < k)%nat -> cColours !! j = Some c' ->
           float_ltb (d c) (d c') = true)
  | Raise e =>
      cColours = [] /\ e = ValueError "min() arg is an empty sequence"
  end.
Proof.
  intros Hc Hall d. destruct cColours as [|c0 cColours]; [now split|].
  destruct (closest_colour_run colour (c0 :: cColours) Hc Hall ltac:(discriminate))
    as (k & c & E & Hk & Hle & Hlt).
  rewrite E. exists k. repeat split; assumption.
Qed.

(** In binary64, the colours (0.1, 0.2, 0.3) and (0.3, 0.2, 0.1 + 2^-56)
    compared with black. *)
Lemma closest_colour_nearest_witness :
  let colour := [0; 0; 0]%float in
  let cColours :=
    [[0x1.999999999999ap-4; 0x1.999999999999ap-3; 0x1.3333333333333p-2];
     [0x1.3333333333333p-2; 0x1.999999999999ap-3; 0x1.999999999999bp-4]]%float in
  let d := float_distance colour in
  match closest_colour colour cColours with
  | Ok c =>
      exists k,
        cColours !! k = Some c /\
        (forall c', c' ∈ cColours -> float_ltb (d c') (d c) = false) /\
        (Forall (fun c' => float_eqb (d c') (d c') = true) cColours ->
         forall j c', (j < k)%nat -> cColours !! j = Some c' ->
           float_ltb (d c) (d c') = true)
  | Raise e =>
      cColours = [] /\ e = ValueError "min() arg is an empty sequence"
  end.
Proof.
  apply (closest_colour_nearest (F:=float)).
  - simpl. lia.
  - repeat constructor.
Defined.

(** On those colours binary64 returns the second colour, whose computed
    distance 0.6 is below the 0.6000000000000001 computed for the first;
    the exact sums of the same components order the other way, and the
    call on them in exact arithmetic returns the first colour. *)
Example b64_closest_colour_rounding :
  let colour := [0; 0; 0]%float in
  let c1 := [0x1.999999999999ap-4; 0x1.999999999999ap-3; 0x1.3333333333333p-2]%float in
  let c2 := [0x1.3333333333333p-2; 0x1.999999999999ap-3; 0x1.999999999999bp-4]%float in
  closest_colour colour [c1; c2] = Ok c2 /\
  float_ltb (float_distance colour c2) (float_distance colour c1) = true /\
  (colour_distance (map b64_exact c1) (map b64_exact colour)
   < colour_distance (map b64_exact c2) (map b64_exact colour))%Q /\
  closest_colour (map b64_exact colour) [map b64_exact c1; map b64_exact c2]
  = Ok (map b64_exact c1).
Proof. cbv zeta. repeat split; vm_compute; reflexivity. Qed.

(** A distance that is [nan] is found by [index] at its own position:
    the call returns and does not raise. *)
Example b64_closest_colour_nan :
  closest_colour [nan; 0; 0]%float [[1; 1; 1]; [0; 0; 0]]%float = Ok [1; 1; 1]%float /\
  closest_colour [0; 0; 0]%float [[nan; 1; 1]; [1; 0; 0]; [0; 0; 0]]%float
  = Ok [nan; 1; 1]%float /\
  closest_colour [0; 0; 0]%float [[1; 1; 1]; [nan; 0; 0]; [0; 0; 0]]%float
  = Ok [0; 0; 0]%float.
Proof. repeat split; vm_compute; reflexivity. Qed.

(** *** Exact arithmetic *)







(** The same call in binary64. *)
Example b64_closest_colour :
  closest_colour [0.875; 0.75; 1]%float
    [[0.25; 0.5; 0.125]; [0.5; 0.25; 0.25]; [1; 1; 1]]%float
  = Ok [1; 1; 1]%float.
Proof. vm_compute. reflexivity. Qed.

(** ** [setup_graph_values] *)

Lemma str_split_nonempty sep s : str_split sep s <> [].
Proof.
  destruct s as [|c s]; simpl; [discriminate|].
  destruct (Ascii.eqb c sep); [discriminate|].
  destruct (str_split sep s); discriminate.
Qed.

Lemma str_split_len sep s : len (str_split sep s) = str_count sep s + 1.
Proof.
  induction s as [|c s IH]; [reflexivity|]. cbn [str_split str_count].
  destruct (Ascii.eqb c sep).
  - unfold len in *. simpl length. lia.
  - pose proof (str_split_nonempty sep s).
    destruct (str_split sep s); [contradiction|]. unfold len in *. simpl length in *. lia.
Qed.

Lemma str_join_split sep s : str_join (String sep "") (str_split sep s) = s.
Proof.
  induction s as [|c s IH]; [reflexivity|]. cbn [str_split].
  pose proof (str_split_nonempty sep s) as Hne.
  destruct (Ascii.eqb_spec c sep) as [->|Hc].
  - cbn [str_join]. destruct (str_split sep s) as [|h t]; [contradiction|].
    rewrite IH. reflexivity.
  - destruct (str_split sep s) as [|h t]; [contradiction|].
    cbn [str_join] in *. destruct t; rewrite <- IH; reflexivity.
Qed.

Lemma range_step_3 n :
  0 <= n -> range_step 0 (n + 3) 3 = 0 :: map (fun i => i + 3) (range_step 0 n 3).
Proof.
  intros Hn. unfold range_step.
  replace ((n + 3 - 0 + 3 - 1) / 3) with (Z.succ ((n - 0 + 3 - 1) / 3)).
  2:{ replace (n + 3 - 0 + 3 - 1) with ((n - 0 + 3 - 1) + 1 * 3) by lia.
      rewrite Z.div_add by lia. lia. }
  assert (Hk : 0 <= (n - 0 + 3 - 1) / 3) by (apply Z.div_pos; lia).
  rewrite seqZ_cons by lia. rewrite Z.pred_succ. cbn [map]. f_equal.
  change (Z.succ 0) with (1 + 0). rewrite <- fmap_add_seqZ.
  rewrite <- !list_fmap_compose.
  apply map_ext. intros k. simpl. lia.
Qed.

Lemma range_step_small n : 1 <= n <= 3 -> range_step 0 n 3 = [0].
Proof.
  intros Hn. unfold range_step.
  replace ((n - 0 + 3 - 1) / 3) with 1; [reflexivity|].
  apply Z.div_unique with (r := n - 1); lia.
Qed.

(** The comprehension over the slices of three, by the structure of the
    list. *)
Lemma slices_cons3 {A B} (f : list A -> B) (a b c : A) (l : list A) :
  map (fun i => f (slice (a :: b :: c :: l) i (i + 3))) (range_step 0 (len (a :: b :: c :: l)) 3)
  = f [a; b; c] :: map (fun i => f (slice l i (i + 3))) (range_step 0 (len l) 3).
Proof.
  replace (len (a :: b :: c :: l)) with (len l + 3) by (unfold len; simpl length; lia).
  rewrite range_step_3 by (unfold len; lia). cbn [map]. f_equal.
  rewrite <- list_fmap_compose. apply map_ext_in. intros i Hi. simpl.
  unfold range_step in Hi. apply in_map_iff in Hi. destruct Hi as (k & <- & Hk).
  apply list_elem_of_In, elem_of_seqZ in Hk.
  unfold slice. f_equal.
  replace (0 + k * 3 + 3 + 3 - (0 + k * 3 + 3)) with (0 + k * 3 + 3 - (0 + k * 3)) by lia.
  f_equal.
  replace (Z.to_nat (0 + k * 3 + 3)) with (3 + Z.to_nat (0 + k * 3))%nat by lia.
  reflexivity.
Qed.

Lemma slices_short {A B} (f : list A -> B) (l : list A) :
  (1 <= length l <= 3)%nat ->
  map (fun i => f (slice l i (i + 3))) (range_step 0 (len l) 3) = [f l].
Proof.
  intros Hl. rewrite range_step_small by (unfold len; lia). cbn [map]. do 2 f_equal.
  unfold slice. simpl. rewrite drop_0. apply take_ge. lia.
Qed.

Lemma slices_nil {A B} (f : list A -> B) :
  map (fun i => f (slice (@nil A) i (i + 3))) (range_step 0 (len (@nil A)) 3) = [].
Proof. reflexivity. Qed.

Lemma no_whitespace_app s t :
  no_whitespace (s +:+ t) = no_whitespace s && no_whitespace t.
Proof.
  induction s as [|c s IH]; [reflexivity|].
  change (String c s +:+ t) with (String c (s +:+ t)).
  cbn [no_whitespace]. rewrite IH. now rewrite andb_assoc.
Qed.

Lemma no_whitespace_split sep s :
  no_whitespace s = true ->
  Forall (fun p => no_whitespace p = true) (str_split sep s).
Proof.
  induction s as [|c s IH]; intros H; cbn [str_split].
  - now repeat constructor.
  - cbn [no_whitespace] in H. apply andb_true_iff in H. destruct H as [Hc Hs].
    specialize (IH Hs). destruct (Ascii.eqb c sep).
    + now constructor.
    + destruct (str_split sep s) as [|h t].
      * constructor; [|constructor]. cbn [no_whitespace]. now rewrite Hc.
      * inversion IH as [|? ? Hh Ht]; subst. constructor; [|assumption].
        cbn [no_whitespace]. now rewrite Hc, Hh.
Qed.

Lemma no_whitespace_join l :
  Forall (fun p => no_whitespace p = true) l ->
  no_whitespace (str_join "," l) = true.
Proof.
  induction 1 as [|x l Hx Hl IH]; [reflexivity|].
  cbn [str_join]. destruct l as [|y l]; [exact Hx|].
  rewrite !no_whitespace_app, Hx, IH. reflexivity.
Qed.

Lemma lstrip_id s : no_whitespace s = true -> lstrip s = s.
Proof.
  destruct s as [|c s]; [reflexivity|]. cbn [no_whitespace lstrip].
  intros H. apply andb_true_iff in H. destruct H as [Hc _].
  apply negb_true_iff in Hc. now rewrite Hc.
Qed.

Lemma rstrip_id s : no_whitespace s = true -> rstrip s = s.
Proof.
  induction s as [|c s IH]; [reflexivity|]. cbn [no_whitespace rstrip].
  intros H. apply andb_true_iff in H. destruct H as [Hc Hs].
  rewrite (IH Hs). apply negb_true_iff in Hc. rewrite Hc. now destruct s.
Qed.

Lemma strip_id s : no_whitespace s = true -> strip s = s.
Proof. intros H. unfold strip. rewrite (lstrip_id s H). now apply rstrip_id. Qed.

Lemma slices_nonempty {A B} (f : list A -> B) (l : list A) :
  l <> [] -> map (fun i => f (slice l i (i + 3))) (range_step 0 (len l) 3) <> [].
Proof.
  intros Hl. destruct l as [|a [|b [|c l]]]; [contradiction| | |].
  - rewrite slices_short by (simpl; lia). discriminate.
  - rewrite slices_short by (simpl; lia). discriminate.
  - rewrite slices_cons3. discriminate.
Qed.

Lemma str_join_cons sep x l :
  l <> [] -> str_join sep (x :: l) = x +:+ sep +:+ str_join sep l.
Proof. destruct l; [contradiction | reflexivity]. Qed.

Lemma string_app_assoc (a b c : string) : (a +:+ b) +:+ c = a +:+ (b +:+ c).
Proof.
  induction a as [|x a IH]; [reflexivity|].
  change (String x (a +:+ b) +:+ c = String x (a +:+ b +:+ c)).
  change (String x ((a +:+ b) +:+ c) = String x (a +:+ b +:+ c)).
  now rewrite IH.
Qed.

Lemma join_slices n : forall l : list string,
  (length l <= n)%nat -> l <> [] ->
  Forall (fun p => no_whitespace p = true) l ->
  str_join "," (map (fun i => strip (str_join "," (slice l i (i + 3))))
                    (range_step 0 (len l) 3))
  = str_join "," l.
Proof.
  induction n as [|n IH]; intros l Hlen Hne Hws.
  { destruct l; [contradiction | simpl in Hlen; lia]. }
  destruct l as [|a [|b [|c [|d l]]]]; [contradiction| | | |].
  - rewrite (slices_short (fun x => strip (str_join "," x))) by (simpl; lia). cbn [str_join].
    apply strip_id. now apply (no_whitespace_join [a]).
  - rewrite (slices_short (fun x => strip (str_join "," x))) by (simpl; lia). cbn [str_join].
    apply strip_id. now apply (no_whitespace_join [a; b]).
  - rewrite (slices_short (fun x => strip (str_join "," x))) by (simpl; lia). cbn [str_join].
    apply strip_id. now apply (no_whitespace_join [a; b; c]).
  - rewrite (slices_cons3 (fun x => strip (str_join "," x))).
    rewrite str_join_cons
      by (apply (slices_nonempty (fun x => strip (str_join "," x))); discriminate).
    rewrite IH; [| simpl in *; lia | discriminate |].
    2:{ inversion Hws as [|? ? _ H1]; subst. inversion H1 as [|? ? _ H2]; subst.
        now inversion H2. }
    rewrite strip_id.
    2:{ apply (no_whitespace_join [a; b; c]).
        inversion Hws as [|? ? Ha H1]; subst. inversion H1 as [|? ? Hb H2]; subst.
        inversion H2 as [|? ? Hc _]; subst. now repeat constructor. }
    cbn [str_join]. rewrite !string_app_assoc. reflexivity.
Qed.

(** X14. Round trip: for a graph string without whitespace, joining the
    points [setup_graph_values] returns with commas gives the string
    back. *)
Theorem setup_graph_values_join (gVals : string) :
  no_whitespace gVals = true ->
  str_join "," (setup_graph_values gVals) = gVals.
Proof.
  intros Hws. unfold setup_graph_values. cbv zeta.
  rewrite (join_slices (length (str_split "," gVals))).
  - apply str_join_split.
  - reflexivity.
  - apply str_split_nonempty.
  - now apply no_whitespace_split.
Qed.

Lemma setup_graph_values_join_witness :
  str_join "," (setup_graph_values "1,0,2,0,1,2,7") = "1,0,2,0,1,2,7".
Proof. apply (setup_graph_values_join "1,0,2,0,1,2,7"). reflexivity. Defined.

Lemma str_count_nonneg c s : 0 <= str_count c s.
Proof.
  induction s as [|c' s IH]; [reflexivity|]. cbn [str_count].
  destruct (Ascii.eqb c' c); lia.
Qed.

(** X15. [setup_graph_values] returns one point per three values: with
    [k] commas in the string, [(k + 3) // 3] points, and never none. *)
Theorem setup_graph_values_count (gVals : string) :
  len (setup_graph_values gVals) = (str_count "," gVals + 3) / 3 /\
  setup_graph_values gVals <> [].
Proof.
  unfold setup_graph_values. cbv zeta. split.
  - unfold len at 1, range_step. rewrite !length_map, length_seqZ.
    rewrite str_split_len.
    pose proof (str_count_nonneg "," gVals).
    replace (str_count "," gVals + 1 - 0 + 3 - 1) with (str_count "," gVals + 3) by lia.
    apply Z2Nat.id. apply Z.div_pos; lia.
  - apply (slices_nonempty (fun x => strip (str_join "," x))), str_split_nonempty.
Qed.

Lemma lstrip_head s c : str_head (lstrip s) = Some c -> is_whitespace c = false.
Proof.
  induction s as [|c' s IH]; [discriminate|]. cbn [lstrip].
  destruct (is_whitespace c') eqn:E; [exact IH|]. now intros [= <-].
Qed.

Lemma rstrip_head s c :
  (forall c', str_head s = Some c' -> is_whitespace c' = false) ->
  str_head (rstrip s) = Some c -> is_whitespace c = false.
Proof.
  destruct s as [|c' s]; [discriminate|]. intros H. cbn [rstrip].
  specialize (H c' eq_refl). rewrite H.
  destruct (rstrip s); now intros [= <-].
Qed.

Lemma rstrip_last s c : str_last (rstrip s) = Some c -> is_whitespace c = false.
Proof.
  induction s as [|c' s IH]; [discriminate|]. cbn [rstrip].
  destruct (rstrip s) as [|c'' r] eqn:E.
  - destruct (is_whitespace c') eqn:Ew; [discriminate|]. now intros [= <-].
  - cbn [str_last]. exact IH.
Qed.

(** X16. No point [setup_graph_values] returns begins or ends with a
    whitespace character. *)
Theorem setup_graph_values_stripped (gVals : string) :
  Forall (fun p => forall c, str_head p = Some c \/ str_last p = Some c ->
                             is_whitespace c = false)
         (setup_graph_values gVals).
Proof.
  unfold setup_graph_values. cbv zeta. apply Forall_forall. intros p Hp.
  apply list_elem_of_fmap in Hp. destruct Hp as (i & -> & _).
  intros c [Hc|Hc]; unfold strip in Hc.
  - eapply rstrip_head; [|exact Hc]. intros c'. apply lstrip_head.
  - eapply rstrip_last. exact Hc.
Qed.

(** The preset ['soft'] of [SSELECT_CURVES]. *)
Example setup_graph_values_soft :
  setup_graph_values "1,0,2, 0,1,2" = ["1,0,2"; "0,1,2"].
Proof. reflexivity. Qed.

(** * The reader of the progress queue *)

Lemma Qtrunc_floor (q : Q) : (0 <= q)%Q -> Qtrunc q = Qfloor q.
Proof.
  destruct q as [a b]. unfold Qle, Qtrunc, Qfloor. simpl. intros H.
  apply Z.quot_div_nonneg; lia.
Qed.

(** The percentage shown for bucket [i] of [n], in exact arithmetic. *)
Lemma percent_Q i n :
  0 <= i -> 1 <= n ->
  float_trunc (F:=Q) (float_mul (float_of_int i) (inject_Z 100 / inject_Z n)%Q)
  = 100 * i / n.
Proof.
  intros Hi Hn. cbn [float_trunc float_mul float_of_int Q_float].
  assert (Hq : (inject_Z i * (inject_Z 100 / inject_Z n)
                == inject_Z (100 * i) / inject_Z n)%Q).
  { rewrite inject_Z_mult. field. apply inject_Z_nonzero. lia. }
  rewrite Qtrunc_floor.
  - rewrite Hq. symmetry. apply Zdiv_Qdiv.
  - rewrite Hq. apply Qle_shift_div_l; [apply inject_Z_pos; lia|].
    rewrite Qmult_0_l. apply inject_Z_nonneg. lia.
Qed.

Section ReaderFacts.
Variable int_of_str : string -> result Z.
Implicit Types (st : progress_window Q).

Lemma drain_app st ms1 ms2 :
  generate_terrain_drain int_of_str st (ms1 ++ ms2)
  = (st' ← generate_terrain_drain int_of_str st ms1;
     generate_terrain_drain int_of_str st' ms2).
Proof.
  revert st. induction ms1 as [|m ms1 IH]; intros st; [reflexivity|].
  cbn [app generate_terrain_drain].
  destruct (generate_terrain_get int_of_str st m) as [st1| |]; cbn [mbind outcome_bind];
    [apply IH | reflexivity | reflexivity].
Qed.

Lemma last_cons_default {A} (l : list A) : forall x d,
  List.last (x :: l) d = List.last l x.
Proof.
  induction l as [|y l IH]; intros x d; [reflexivity|].
  change (List.last (y :: l) d = List.last (y :: l) x). now rewrite !IH.
Qed.

Lemma drain_pass n (ms : list msg) : forall st,
  1 <= n -> Forall (pass_msg n) ms ->
  exists st',
    generate_terrain_drain int_of_str st ms = Done st' /\
    complete st' = complete st.
Proof.
  induction ms as [|m ms IH]; intros st Hn Hms.
  - now exists st.
  - apply Forall_cons in Hms. destruct Hms as [Hm Hms'].
    cbn [generate_terrain_drain]. unfold generate_terrain_get.
    destruct m as [label total|i|s]; cbn [pass_msg] in Hm; [subst total| |contradiction].
    + rewrite (Q_is_zero_int n) by lia. cbn [mbind outcome_bind].
      match goal with |- context [generate_terrain_drain _ ?s _] =>
        destruct (IH s Hn Hms') as (st' & E & Hc) end.
      exists st'. split; [exact E | exact Hc].
    + cbn [mbind outcome_bind].
      match goal with |- context [generate_terrain_drain _ ?s _] =>
        destruct (IH s Hn Hms') as (st' & E & Hc) end.
      exists st'. split; [exact E | exact Hc].
Qed.

End ReaderFacts.

Section ReaderStage.
Context {F : Type} {PF : PyFloat F}.
Variable int_of_str : string -> result Z.
Implicit Types (st : progress_window F).

(** The indices of a stage, read with the ratio [r] of the stage. *)
Lemma drain_indices label (r : F) (l : list Z) : forall st,
  ratio st = NFloat r -> status_msg st = label ->
  let percent i := float_trunc (float_mul (float_of_int i) r) in
  exists st',
    generate_terrain_drain int_of_str st (map MInt l) = Done st' /\
    ratio st' = NFloat r /\ status_msg st' = label /\
    complete st' = complete st /\
    currentProgress st' = List.last (map percent l) (currentProgress st) /\
    progressWindow st'
    = progressWindow st
      ++ map (fun i => (percent i, format_status label (percent i))) l.
Proof.
  induction l as [|i l IH]; intros st Hr Hm percent.
  - exists st. cbn. rewrite app_nil_r. now repeat split.
  - cbn [map generate_terrain_drain]. unfold generate_terrain_get.
    rewrite Hr. cbn [mbind outcome_bind].
    cbn [ratio status_msg currentProgress completeMessage complete progressWindow].
    fold (percent i).
    match goal with |- context [generate_terrain_drain _ ?s _] =>
      destruct (IH s) as (st' & E & Hr' & Hm' & Hc' & Hp' & Hw') end;
      [reflexivity | exact Hm |].
    exists st'. split; [exact E|]. cbn in Hc', Hp', Hw'.
    split; [exact Hr'|]. split; [exact Hm'|]. split; [exact Hc'|]. split.
    + rewrite Hp'. cbn [map]. fold percent. now rewrite last_cons_default.
    + rewrite Hw', Hm. rewrite <- app_assoc. reflexivity.
Qed.

End ReaderStage.

(** X17. The reader of the GUI on one stage, the tuple [(label, n)]
    followed by the indices [0 .. n-1], in any float arithmetic.  When
    [float(n)] is 0.0 the tuple raises [ZeroDivisionError] (line 842).
    Otherwise the loop does not raise: it shows 0 for the tuple and then,
    for each index [i] in order, [int(i * (100.0 / n))] as lines 842 and
    851 compute it, each with the label of the stage; it keeps that ratio
    and label, and [complete] is not set. *)
Theorem generate_terrain_stage {F} `{PyFloat F} (int_of_str : string -> result Z)
    (st : progress_window F) label n :
  let r := float_div (float_of_int 100) (float_of_int n) in
  let percent i := float_trunc (float_mul (float_of_int i) r) in
  if float_is_zero (float_of_int n)
  then generate_terrain_drain int_of_str st (stage_msgs label n)
       = Raised (ZeroDivisionError "float division by zero")
  else exists st',
    generate_terrain_drain int_of_str st (stage_msgs label n) = Done st' /\
    ratio st' = NFloat r /\ status_msg st' = label /\
    progressWindow st'
    = progressWindow st
      ++ (0, format_status label 0)
         :: map (fun i => (percent i, format_status label (percent i))) (xrange n) /\
    currentProgress st' = List.last (map percent (xrange n)) 0 /\
    complete st' = complete st.
Proof.
  intros r percent. unfold stage_msgs.
  cbn [generate_terrain_drain]. unfold generate_terrain_get.
  destruct (float_is_zero (float_of_int n)); [reflexivity|].
  cbn [mbind outcome_bind].
  cbn [ratio status_msg currentProgress completeMessage complete progressWindow].
  fold r.
  match goal with |- context [generate_terrain_drain _ ?s _] =>
    destruct (drain_indices int_of_str label r (xrange n) s eq_refl eq_refl)
      as (st' & E & Hr & Hm & Hc & Hp & Hw) end.
  exists st'. split; [exact E|]. cbn in Hc, Hp, Hw.
  split; [exact Hr|]. split; [exact Hm|]. split; [|split; [exact Hp | exact Hc]].
  rewrite Hw, <- app_assoc. reflexivity.
Qed.

(** The percentage shown is the truncated float product, which rounding
    can leave one below [floor(100 * i / n)]: index 97 of a stage of 194
    shows 49 in binary64, and 50 in exact arithmetic. *)
Example b64_percent :
  float_trunc (F:=float)
    (float_mul (float_of_int 97) (float_div (float_of_int 100) (float_of_int 194)))
  = 49 /\
  float_trunc (F:=Q)
    (float_mul (float_of_int 97) (float_div (float_of_int 100) (float_of_int 194)))
  = 50 /\
  100 * 97 / 194 = 50.
Proof. repeat split; vm_compute; reflexivity. Qed.

(** The stage of three buckets read in binary64 from the start of the
    loop: 0, 0, 33 and 66 per cent. *)
Example b64_stage :
  match generate_terrain_drain (fun _ => Raise (ValueError "invalid literal for int()"))
          (generate_terrain_start (F:=float)) (stage_msgs "Reading WAV Data" 3) with
  | Done st' => map fst (progressWindow st') = [0; 0; 33; 66] /\ complete st' = false
  | _ => False
  end.
Proof. lazy. split; reflexivity. Qed.

(** X18. Whatever a sampling pass with [nvtx >= 1] does (return or
    raise), the reader processes every message the pass put without an
    exception and is not told that the work is complete: after a failed
    pass the loop of [generate_terrain] is still waiting. *)
Theorem generate_terrain_reads_pass (int_of_str : string -> result Z)
    nvtx (vheight : Q) negative (s : world Q) q (st : progress_window Q) :
  1 <= nvtx ->
  exists ms st',
    queue_contents q (trace (createheightvals nvtx vheight negative s).1)
    = queue_contents q (trace s) ++ ms /\
    generate_terrain_drain int_of_str st ms = Done st' /\
    complete st' = complete st.
Proof.
  intros Hn.
  destruct (createheightvals_keeps
              (fun _ e => match e with EPut _ m => pass_msg nvtx m | _ => True end)
              nvtx vheight negative s)
    as [_ (evs & T & Hevs)]; try (intros; exact I); try (intros; simpl; lia).
  destruct (drain_pass int_of_str nvtx (queue_contents q evs) st Hn
              (queue_contents_pass nvtx q evs Hevs)) as (st' & E & Hc).
  exists (queue_contents q evs), st'. split; [|split; assumption].
  now rewrite T, queue_contents_app.
Qed.

Lemma generate_terrain_reads_pass_witness :
  exists ms st',
    queue_contents 0%nat
      (trace (createheightvals 2 (3 # 1) false (mkWorld (song_silent (Some 0%nat)) [])).1)
    = queue_contents 0%nat [] ++ ms /\
    generate_terrain_drain (fun _ => Raise (ValueError "invalid literal for int()"))
      (generate_terrain_start (F:=Q)) ms = Done st' /\
    complete st' = complete (F:=Q) generate_terrain_start.
Proof.
  apply (generate_terrain_reads_pass
           (fun _ => Raise (ValueError "invalid literal for int()"))
           2 (3 # 1) false (mkWorld (song_silent (Some 0%nat)) []) 0%nat
           (generate_terrain_start (F:=Q))).
  lia.
Defined.

(** * Moving the vertices *)

(** ** The letters of an axis *)

Lemma str_count_chars c s : str_count c s = 0 <-> ~ In c (chars s).
Proof.
  induction s as [|c' s IH]; cbn [str_count chars]; [tauto|].
  pose proof (str_count_nonneg c s).
  destruct (Ascii.eqb_spec c' c) as [->|Hne]; cbn [In].
  - split; [lia | intros H'; exfalso; apply H'; now left].
  - rewrite Z.add_0_l, IH. split; [intros H' [E|E]; [congruence | tauto] | tauto].
Qed.

Lemma str_count_NoDup s :
  (forall c, In c (chars s) -> str_count c s = 1) <-> List.NoDup (chars s).
Proof.
  induction s as [|c' s IH]; cbn [chars].
  - split; [constructor | intros _ c []].
  - split.
    + intros H. constructor.
      * apply str_count_chars. pose proof (H c' (or_introl eq_refl)) as H1.
        cbn [str_count] in H1. rewrite Ascii.eqb_refl in H1. lia.
      * apply IH. intros c Hc. pose proof (H c (or_intror Hc)) as H1.
        cbn [str_count] in H1. destruct (Ascii.eqb c' c); [|lia].
        assert (str_count c s <> 0) by (rewrite str_count_chars; tauto). lia.
    + intros H c Hc. inversion H as [|? ? Hnin Hnd]; subst.
      cbn [str_count]. destruct Hc as [->|Hc].
      * rewrite Ascii.eqb_refl. apply str_count_chars in Hnin. lia.
      * destruct (Ascii.eqb_spec c' c) as [->|_]; [contradiction|].
        rewrite (proj2 IH Hnd c Hc). lia.
Qed.

Lemma axis_letter_eqb c :
  existsb (Ascii.eqb c) ["x"; "y"; "z"; "n"]%char = true <-> axis_letter c.
Proof.
  unfold axis_letter. cbn [existsb]. rewrite !orb_true_iff, !Ascii.eqb_eq.
  intuition discriminate.
Qed.

Lemma str_lower_letters s :
  Forall axis_letter (chars s) -> str_lower s = s.
Proof.
  induction s as [|c s IH]; [reflexivity|]. cbn [chars str_lower].
  intros H. inversion H as [|? ? Hc Hs]; subst. rewrite (IH Hs). f_equal.
  destruct Hc as [->|[->|[->| ->]]]; reflexivity.
Qed.

Lemma valid_axis_iff axis :
  valid_axis axis = true <-> List.NoDup (chars axis) /\ Forall axis_letter (chars axis).
Proof.
  unfold valid_axis. cbv zeta. rewrite forallb_forall. split.
  - intros H.
    assert (Hl : Forall axis_letter (chars axis)).
    { apply List.Forall_forall. intros c Hc. specialize (H c Hc).
      apply andb_true_iff in H. now apply axis_letter_eqb. }
    split; [|exact Hl]. apply str_count_NoDup. intros c Hc.
    specialize (H c Hc). apply andb_true_iff in H. destruct H as [_ H].
    rewrite (str_lower_letters axis Hl) in H. now apply Z.eqb_eq.
  - intros [Hnd Hl] c Hc. apply andb_true_iff. split.
    + apply axis_letter_eqb. exact (proj1 (List.Forall_forall _ _) Hl c Hc).
    + rewrite (str_lower_letters axis Hl). apply Z.eqb_eq.
      now apply (proj2 (str_count_NoDup axis) Hnd).
Qed.

(** X19. The axis check of [move_vtx_positions] accepts exactly the
    strings made of distinct letters among x, y, z, n in lower case (the
    empty string included); an accepted axis is its own lower case and
    has at most four letters.  An upper-case letter is rejected, although
    [axis.lower()] is computed: the letters tested come from [axis]. *)
Theorem valid_axis_letters axis :
  (valid_axis axis = true <->
   List.NoDup (chars axis) /\ Forall axis_letter (chars axis)) /\
  (valid_axis axis = true -> str_lower axis = axis /\ (String.length axis <= 4)%nat).
Proof.
  split; [apply valid_axis_iff|]. intros H. apply valid_axis_iff in H.
  destruct H as [Hnd Hl]. split; [now apply str_lower_letters|].
  assert (Hlen : String.length axis = length (chars axis)).
  { clear. induction axis as [|c s IH]; [reflexivity|]. cbn. now rewrite IH. }
  rewrite Hlen.
  assert (Hincl : incl (chars axis) ["x"; "y"; "z"; "n"]%char).
  { intros c Hc. pose proof (proj1 (List.Forall_forall _ _) Hl c Hc) as Hc'.
    destruct Hc' as [->|[->|[->| ->]]]; cbn [In]; auto 6. }
  exact (List.NoDup_incl_length Hnd Hincl).
Qed.

Section SceneLemmas.
Import mtgMain.

Section SceneFacts.
Context {F : Type} {PF : PyFloat F}.
Implicit Types (s : session F) (host : maya F).

Lemma H_bind_Ok {A B} (m : H F A) (f : A -> H F B) s s' a :
  m s = (s', Ok a) -> (m ≫= f) s = f a s'.
Proof. intros E. unfold mbind, H_bind. now rewrite E. Qed.

Lemma H_bind_Raise {A B} (m : H F A) (f : A -> H F B) s s' e :
  m s = (s', Raise e) -> (m ≫= f) s = (s', Raise e).
Proof. intros E. unfold mbind, H_bind. now rewrite E. Qed.

Lemma after_nil s : after s [] [] = s.
Proof.
  destruct s as [w l]. unfold after. cbn. rewrite log_nil, app_nil_r. reflexivity.
Qed.

Lemma after_after s e1 c1 e2 c2 :
  after (after s e1 c1) e2 c2 = after s (e1 ++ e2) (c1 ++ c2).
Proof. unfold after. cbn. now rewrite log_log, app_assoc. Qed.

Lemma put_run queue m s : put queue m s = (after s (puts queue [m]) [], Ok tt).
Proof.
  destruct s as [w l]. destruct queue as [q|]; unfold put, after; cbn.
  - now rewrite app_nil_r.
  - now rewrite log_nil, app_nil_r.
Qed.

Lemma tell_run c s : tell c s = (after s [] [c], Ok tt).
Proof. destruct s as [w l]. unfold tell, after. cbn. now rewrite log_nil. Qed.

(** A loop whose body always returns, with the events and the commands
    of each turn. *)
Lemma for_each_run {A} (l : list A) (body : A -> H F unit)
    (evs : A -> list event) (cs : A -> list (maya_cmd F)) :
  (forall x s, In x l -> body x s = (after s (evs x) (cs x), Ok tt)) ->
  forall s, for_each l body s = (after s (flat_map evs l) (flat_map cs l), Ok tt).
Proof.
  induction l as [|x l IH]; intros Hb s; cbn [for_each flat_map].
  - unfold mret, H_ret. now rewrite after_nil.
  - rewrite (H_bind_Ok _ _ _ _ _ (Hb x s (or_introl eq_refl))).
    rewrite IH by (intros; apply Hb; now right).
    now rewrite after_after.
Qed.

Lemma enumerate_length {A} (l : list A) : length (enumerate l) = length l.
Proof. unfold enumerate, len. rewrite length_zip, length_seqZ. lia. Qed.

Lemma enumerate_fst {A} (l : list A) : map fst (enumerate l) = xrange (len l).
Proof.
  unfold enumerate, xrange. apply fst_zip. unfold len. rewrite length_seqZ. lia.
Qed.

Lemma puts_flat_map {A} queue (f : A -> Z) (l : list A) :
  flat_map (fun x => puts queue [MInt (f x)]) l = puts queue (map MInt (map f l)).
Proof.
  destruct queue as [q|]; cbn.
  - induction l as [|x l IH]; [reflexivity|]. cbn. now rewrite IH.
  - induction l as [|x l IH]; [reflexivity|]. cbn. exact IH.
Qed.


Lemma ask_run {A} (f : list (maya_cmd F) -> result A) s a :
  f (maya_log s) = Ok a -> ask f s = (s, Ok a).
Proof. intros E. unfold ask. now rewrite E. Qed.

(** An axis that passes the check, without ['n'] and not empty: it is in
    lower case, has one of the letters x, y, z, and [replace] leaves it. *)
Lemma str_remove_absent c (t : string) : str_in c t = false -> str_remove c t = t.
Proof.
  unfold str_in. induction t as [|c' t IH]; [reflexivity|].
  cbn [chars existsb str_remove]. intros H. apply orb_false_iff in H.
  destruct H as [Hc Hs]. rewrite Ascii.eqb_sym, Hc. now rewrite (IH Hs).
Qed.

Lemma has_xyz axis :
  Forall axis_letter (chars axis) -> str_in "n" axis = false -> axis <> "" ->
  existsb (fun l => existsb (Ascii.eqb l) ["x"; "y"; "z"]%char) (chars axis) = true.
Proof.
  destruct axis as [|c t]; [contradiction|]. cbn [chars existsb]. unfold str_in.
  cbn [chars existsb]. intros Hl Hn _. inversion Hl as [|? ? Hc _]; subst.
  apply orb_false_iff in Hn. destruct Hn as [Hn _].
  destruct Hc as [->|[->|[->| ->]]]; try reflexivity. discriminate.
Qed.

Lemma slice_to_take {A} (l : list A) n : 0 <= n -> slice_to l n = take (Z.to_nat n) l.
Proof. intros Hn. unfold slice_to. now rewrite (proj2 (Z.ltb_ge n 0) Hn). Qed.

Lemma move_vtx_positions_merged_run host (vals : list F) pObject axis
    (reverse refresh : bool) queue s nVtx :
  polyEvaluate host (maya_log s) pObject = Ok nVtx ->
  objExists host (maya_log s) pObject = true ->
  poly_check host (maya_log s) pObject = true ->
  valid_axis axis = true -> str_in "n" axis = false -> axis <> "" ->
  0 <= nVtx ->
  let moved := take (Z.to_nat nVtx) (if reverse then rev vals else vals) in
  move_vtx_positions host vals pObject axis reverse false refresh queue s
  = (after s
       (puts queue (MTuple ("Moving Terrain in " +:+ str_upper axis +:+ " axis") nVtx
                    :: map MInt (xrange (len moved))))
       (flat_map (merged_move pObject axis refresh) (enumerate moved)),
     Ok tt).
Proof.
  intros Hpe Hex Hpc Hva Hn Hne HnVtx moved.
  pose proof (proj1 (valid_axis_iff axis) Hva) as [Hnd Hl].
  unfold move_vtx_positions.
  rewrite (H_bind_Ok _ _ _ _ _ (ask_run _ s nVtx Hpe)). cbv zeta.
  rewrite (H_bind_Ok _ _ _ _ _ (ask_run (fun log => Ok (objExists host log pObject)) s true
                                   (f_equal Ok Hex))).
  cbn [negb].
  rewrite (H_bind_Ok _ _ _ _ _ (ask_run (fun log => Ok (poly_check host log pObject)) s true
                                   (f_equal Ok Hpc))).
  cbn [negb]. rewrite Hva. cbn [negb].
  rewrite (str_lower_letters axis Hl), Hn.
  rewrite (H_bind_Ok _ _ s s tt) by reflexivity.
  rewrite (has_xyz axis Hl Hn Hne), (str_remove_absent _ _ Hn).
  rewrite (H_bind_Ok _ _ _ _ _ (put_run _ _ _)).
  rewrite slice_to_take by exact HnVtx. fold moved.
  rewrite (for_each_run (enumerate moved) _
             (fun iv => puts queue [MInt iv.1]) (merged_move pObject axis refresh)).
  - rewrite after_after. f_equal. f_equal.
    rewrite (puts_flat_map queue fst), enumerate_fst.
    destruct queue; reflexivity.
  - intros [i val] s1 _.
    rewrite (H_bind_Ok _ _ _ _ _ (put_run _ _ _)).
    rewrite (H_bind_Ok _ _ _ _ _ (tell_run _ _)).
    rewrite (H_bind_Ok _ _ _ _ _ (tell_run _ _)).
    unfold merged_move. destruct refresh.
    + rewrite tell_run. rewrite !after_after. cbn [fst snd app].
      rewrite ?app_nil_r. reflexivity.
    + unfold mret, H_ret. rewrite !after_after. cbn [fst snd app].
      rewrite ?app_nil_r. reflexivity.
Qed.

End SceneFacts.

(** ** [move_vtx_positions] *)

(** X20. When the object does not exist, is not a polygon or the axis
    fails the check, [move_vtx_positions] raises [ValueError] before it
    puts a message or sends a command: the session is unchanged. *)
Theorem move_vtx_positions_rejects {F} `{PyFloat F} (host : maya F) (vals : list F)
    pObject axis (reverse seprAxisMv refresh : bool) queue (s : session F) nVtx :
  polyEvaluate host (maya_log s) pObject = Ok nVtx ->
  objExists host (maya_log s) pObject = false \/
  poly_check host (maya_log s) pObject = false \/
  valid_axis axis = false ->
  exists m,
    move_vtx_positions host vals pObject axis reverse seprAxisMv refresh queue s
    = (s, Raise (ValueError m)).
Proof.
  intros Hpe Hbad. unfold move_vtx_positions.
  rewrite (H_bind_Ok _ _ _ _ _ (ask_run _ s nVtx Hpe)). cbv zeta.
  destruct (objExists host (maya_log s) pObject) eqn:Hex.
  2:{ rewrite (H_bind_Ok _ _ _ _ _
                 (ask_run (fun log => Ok (objExists host log pObject)) s false
                    (f_equal Ok Hex))).
      eexists. reflexivity. }
  rewrite (H_bind_Ok _ _ _ _ _
             (ask_run (fun log => Ok (objExists host log pObject)) s true
                (f_equal Ok Hex))).
  cbn [negb].
  destruct (poly_check host (maya_log s) pObject) eqn:Hpc.
  2:{ rewrite (H_bind_Ok _ _ _ _ _
                 (ask_run (fun log => Ok (poly_check host log pObject)) s false
                    (f_equal Ok Hpc))).
      eexists. reflexivity. }
  rewrite (H_bind_Ok _ _ _ _ _
             (ask_run (fun log => Ok (poly_check host log pObject)) s true
                (f_equal Ok Hpc))).
  cbn [negb].
  destruct Hbad as [Hb|[Hb|Hb]]; try discriminate.
  rewrite Hb. eexists. reflexivity.
Qed.

Lemma move_vtx_positions_rejects_witness :
  exists m,
    move_vtx_positions plane_host [1; 2]%Q "plane" "Y" false false true None
      (session_1_m5 None)
    = (session_1_m5 None, Raise (ValueError m)).
Proof.
  apply (move_vtx_positions_rejects plane_host [1; 2]%Q "plane" "Y" false false true
           None (session_1_m5 None) 2).
  - reflexivity.
  - right. right. reflexivity.
Defined.

(** X21. With [seprAxisMv] true and no queue, an accepted axis made of
    x, y, z and at least one value to move, [move_vtx_positions] raises
    [AttributeError] on its first vertex and moves nothing: line 478
    calls [queue.put(i)] without the test [if queue] of the other
    loops. *)
Theorem move_vtx_positions_no_queue {F} `{PyFloat F} (host : maya F) (vals : list F)
    pObject axis (reverse refresh : bool) (s : session F) nVtx :
  polyEvaluate host (maya_log s) pObject = Ok nVtx ->
  objExists host (maya_log s) pObject = true ->
  poly_check host (maya_log s) pObject = true ->
  valid_axis axis = true -> str_in "n" axis = false -> axis <> "" ->
  vals <> [] -> 1 <= nVtx ->
  move_vtx_positions host vals pObject axis reverse true refresh None s
  = (s, Raise (AttributeError "put")).
Proof.
  intros Hpe Hex Hpc Hva Hn Hne Hvals HnVtx.
  pose proof (proj1 (valid_axis_iff axis) Hva) as [Hnd Hl].
  unfold move_vtx_positions.
  rewrite (H_bind_Ok _ _ _ _ _ (ask_run _ s nVtx Hpe)). cbv zeta.
  rewrite (H_bind_Ok _ _ _ _ _ (ask_run (fun log => Ok (objExists host log pObject)) s true
                                   (f_equal Ok Hex))).
  cbn [negb].
  rewrite (H_bind_Ok _ _ _ _ _ (ask_run (fun log => Ok (poly_check host log pObject)) s true
                                   (f_equal Ok Hpc))).
  cbn [negb]. rewrite Hva. cbn [negb].
  rewrite (str_lower_letters axis Hl), Hn.
  rewrite (H_bind_Ok _ _ s s tt) by reflexivity.
  rewrite (has_xyz axis Hl Hn Hne), (str_remove_absent _ _ Hn).
  destruct axis as [|a axis]; [contradiction|]. cbn [chars for_each].
  rewrite slice_to_take by lia.
  assert (Hmoved : exists v l, take (Z.to_nat nVtx) (if reverse then rev vals else vals) = v :: l).
  { assert (Hv : (if reverse then rev vals else vals) <> []).
    { destruct reverse; [|exact Hvals]. intros E. apply Hvals.
      rewrite <- (rev_involutive vals), E. reflexivity. }
    destruct (if reverse then rev vals else vals) as [|v l]; [contradiction|].
    exists v, (take (Nat.pred (Z.to_nat nVtx)) l).
    destruct (Z.to_nat nVtx) eqn:E; [lia | reflexivity]. }
  destruct Hmoved as (v & l & ->).
  apply H_bind_Raise.
  rewrite (H_bind_Ok _ _ s s tt) by reflexivity.
  unfold enumerate. rewrite seqZ_cons by (unfold len; simpl length; lia).
  cbn [zip zip_with for_each].
  apply H_bind_Raise. apply H_bind_Raise. reflexivity.
Qed.

Lemma move_vtx_positions_no_queue_witness :
  move_vtx_positions plane_host [1; 2]%Q "plane" "xy" false true true None
    (session_1_m5 None)
  = (session_1_m5 None, Raise (AttributeError "put")).
Proof.
  apply (move_vtx_positions_no_queue plane_host [1; 2]%Q "plane" "xy" false true
           (session_1_m5 None) 2);
    try reflexivity; try discriminate.
Defined.

(** X22. A merged move along x, y, z (no reverse) puts one stage on the
    queue: the tuple with the upper-case axis and the vertex count, then
    the indices [0 .. min(len(vals), nVtx) - 1]; on the song world it is
    [move_one_axis]. *)
Theorem move_vtx_positions_progress {F} `{PyFloat F} (host : maya F) (vals : list F)
    pObject axis (refresh : bool) q (s : session F) nVtx :
  polyEvaluate host (maya_log s) pObject = Ok nVtx ->
  objExists host (maya_log s) pObject = true ->
  poly_check host (maya_log s) pObject = true ->
  valid_axis axis = true -> str_in "n" axis = false -> axis <> "" ->
  0 <= nVtx ->
  exists s',
    move_vtx_positions host vals pObject axis false false refresh (Some q) s
    = (s', Ok tt) /\
    song_world s' = (move_one_axis (str_upper axis) nVtx vals (Some q) (song_world s)).1 /\
    queue_contents q (trace (song_world s'))
    = queue_contents q (trace (song_world s))
      ++ MTuple ("Moving Terrain in " +:+ str_upper axis +:+ " axis") nVtx
         :: map MInt (xrange (Z.min (len vals) nVtx)).
Proof.
  intros Hpe Hex Hpc Hva Hn Hne HnVtx.
  rewrite (move_vtx_positions_merged_run host vals pObject axis false refresh (Some q)
             s nVtx Hpe Hex Hpc Hva Hn Hne HnVtx).
  eexists. split; [reflexivity|]. split; [reflexivity|].
  cbn [after song_world log trace].
  rewrite queue_contents_app, queue_contents_puts. do 3 f_equal.
  unfold len. rewrite length_take. f_equal. lia.
Qed.

Lemma move_vtx_positions_progress_witness :
  exists s',
    move_vtx_positions plane_host [1; 2; 3]%Q "plane" "xz" false false true (Some 0%nat)
      (session_1_m5 (Some 0%nat))
    = (s', Ok tt) /\
    song_world s'
    = (move_one_axis (str_upper "xz") 2 [1; 2; 3]%Q (Some 0%nat)
         (song_world (session_1_m5 (Some 0%nat)))).1 /\
    queue_contents 0%nat (trace (song_world s'))
    = queue_contents 0%nat (trace (song_world (session_1_m5 (Some 0%nat))))
      ++ MTuple ("Moving Terrain in " +:+ str_upper "xz" +:+ " axis") 2
         :: map MInt (xrange (Z.min (len [1; 2; 3]%Q) 2)).
Proof.
  apply (move_vtx_positions_progress plane_host [1; 2; 3]%Q "plane" "xz" true 0%nat
           (session_1_m5 (Some 0%nat)) 2);
    try reflexivity; try discriminate.
Defined.

(** X23. A merged move along x, y, z selects each vertex
    [i < min(len(vals), nVtx)] once, in order, and moves it by the value
    of index [i] ([vals] reversed first when [reverse] is set), the same
    amount in every axis named, refreshing after each when [refresh] is
    set; it sends nothing else. *)
Theorem move_vtx_positions_moves {F} `{PyFloat F} (host : maya F) (vals : list F)
    pObject axis (reverse refresh : bool) queue (s : session F) nVtx :
  polyEvaluate host (maya_log s) pObject = Ok nVtx ->
  objExists host (maya_log s) pObject = true ->
  poly_check host (maya_log s) pObject = true ->
  valid_axis axis = true -> str_in "n" axis = false -> axis <> "" ->
  0 <= nVtx ->
  let moved := take (Z.to_nat nVtx) (if reverse then rev vals else vals) in
  exists s',
    move_vtx_positions host vals pObject axis reverse false refresh queue s
    = (s', Ok tt) /\
    maya_log s'
    = maya_log s
      ++ flat_map (fun iv =>
                     [cmds_select (vtx pObject iv.1);
                      cmds_move (replicate (String.length axis) iv.2)
                                ("move" +:+ str_upper axis)]
                     ++ (if refresh then [cmds_refresh] else []))
                  (enumerate moved) /\
    (forall i v, moved !! i = Some v ->
       enumerate moved !! i = Some (Z.of_nat i, v)) /\
    len moved = Z.min (len vals) nVtx.
Proof.
  intros Hpe Hex Hpc Hva Hn Hne HnVtx moved.
  rewrite (move_vtx_positions_merged_run host vals pObject axis reverse refresh queue
             s nVtx Hpe Hex Hpc Hva Hn Hne HnVtx).
  eexists. split; [reflexivity|]. split; [reflexivity|]. split.
  - intros i v Hi. unfold enumerate. apply lookup_zip_with_Some.
    exists (Z.of_nat i), v. split; [reflexivity|]. split; [|exact Hi].
    rewrite lookup_seqZ. split; [lia|].
    pose proof (lookup_lt_Some _ _ _ Hi). unfold len. lia.
  - unfold moved, len. rewrite length_take.
    destruct reverse; rewrite ?length_rev; lia.
Qed.

Lemma move_vtx_positions_moves_witness :
  let moved := take (Z.to_nat 2) (if true then rev [1; 2; 3]%Q else [1; 2; 3]%Q) in
  exists s',
    move_vtx_positions plane_host [1; 2; 3]%Q "plane" "y" true false false None
      (session_1_m5 None)
    = (s', Ok tt) /\
    maya_log s'
    = maya_log (session_1_m5 None)
      ++ flat_map (fun iv =>
                     [cmds_select (vtx "plane" iv.1);
                      cmds_move (replicate (String.length "y") iv.2)
                                ("move" +:+ str_upper "y")]
                     ++ (if false then [cmds_refresh] else []))
                  (enumerate moved) /\
    (forall i v, moved !! i = Some v ->
       enumerate moved !! i = Some (Z.of_nat i, v)) /\
    len moved = Z.min (len [1; 2; 3]%Q) 2.
Proof.
  apply (move_vtx_positions_moves plane_host [1; 2; 3]%Q "plane" "y" true false None
           (session_1_m5 None) 2);
    try reflexivity; try discriminate.
Defined.

Lemma enumerate_lookup {A} (l : list A) i (v : A) :
  In (i, v) (enumerate l) -> 0 <= i < len l /\ l !! Z.to_nat i = Some v.
Proof.
  intros Hin. apply list_elem_of_In, list_elem_of_lookup in Hin.
  destruct Hin as [k Hk]. unfold enumerate in Hk.
  apply lookup_zip_with_Some in Hk. destruct Hk as (i' & v' & [= <- <-] & Hi & Hv).
  apply lookup_seqZ in Hi. destruct Hi as [-> Hi].
  split; [lia|]. now rewrite Z.add_0_l, Nat2Z.id.
Qed.

(** X24. The move along the normals (axis ['n'], the default of
    [music_displace]): with normals for every vertex and a soft
    selection of [k] vertices, the stage tuple and the indices are put,
    and each vertex is selected and moved along its own normal, [k]
    copies of the direction and of the value being passed. *)
Theorem move_vtx_positions_normal {F} `{PyFloat F} (host : maya F) (vals : list F)
    pObject (reverse refresh : bool) queue (s : session F) nVtx normalDirs sel :
  polyEvaluate host (maya_log s) pObject = Ok nVtx ->
  objExists host (maya_log s) pObject = true ->
  poly_check host (maya_log s) pObject = true ->
  get_vertex_normals host (maya_log s) pObject = Ok normalDirs ->
  (forall log, soft_selection host log = Ok sel) ->
  0 <= nVtx <= len normalDirs ->
  let moved := take (Z.to_nat nVtx) (if reverse then rev vals else vals) in
  move_vtx_positions host vals pObject "n" reverse false refresh queue s
  = (after s
       (puts queue (MTuple "Moving Terrain in Normal direction" nVtx
                    :: map MInt (xrange (len moved))))
       (flat_map (normal_move pObject normalDirs (length sel) refresh)
                 (enumerate moved)),
     Ok tt).
Proof.
  intros Hpe Hex Hpc Hnd Hsel HnVtx moved.
  unfold move_vtx_positions.
  rewrite (H_bind_Ok _ _ _ _ _ (ask_run _ s nVtx Hpe)). cbv zeta.
  rewrite (H_bind_Ok _ _ _ _ _ (ask_run (fun log => Ok (objExists host log pObject)) s true
                                   (f_equal Ok Hex))).
  cbn [negb].
  rewrite (H_bind_Ok _ _ _ _ _ (ask_run (fun log => Ok (poly_check host log pObject)) s true
                                   (f_equal Ok Hpc))).
  cbn [negb].
  change (valid_axis "n") with true. cbn [negb].
  change (str_lower "n") with "n". change (str_in "n" "n") with true.
  change (existsb (fun l => existsb (Ascii.eqb l) ["x"; "y"; "z"]%char) (chars "n"))
    with false.
  rewrite slice_to_take by lia. fold moved.
  assert (Hloop :
    (put queue (MTuple "Moving Terrain in Normal direction" nVtx);;
     normalDirs ← ask (fun log => get_vertex_normals host log pObject);
     for_each (enumerate moved) (fun '(i, val) =>
       put queue (MInt i);;
       tell (cmds_select (vtx pObject i));;
       dir_ ← index normalDirs i;
       sel ← ask (soft_selection host);
       tell (cmds_moveVertexAlongDirection (replicate (length sel) dir_)
                                           (replicate (length sel) val));;
       if refresh then tell cmds_refresh else mret tt)) s
    = (after s
         (puts queue (MTuple "Moving Terrain in Normal direction" nVtx
                      :: map MInt (xrange (len moved))))
         (flat_map (normal_move pObject normalDirs (length sel) refresh)
                   (enumerate moved)),
       Ok tt)).
  { rewrite (H_bind_Ok _ _ _ _ _ (put_run _ _ _)).
    assert (Hnd' : get_vertex_normals host
                     (maya_log (after s (puts queue
                        [MTuple "Moving Terrain in Normal direction" nVtx]) []))
                     pObject = Ok normalDirs).
    { unfold after. cbn [maya_log]. rewrite app_nil_r. exact Hnd. }
    rewrite (H_bind_Ok _ _ _ _ _
               (ask_run (fun log => get_vertex_normals host log pObject) _ normalDirs
                  Hnd')).
    rewrite (for_each_run (enumerate moved) _
               (fun iv => puts queue [MInt iv.1])
               (normal_move pObject normalDirs (length sel) refresh)).
    - rewrite after_after. f_equal. f_equal.
      rewrite (puts_flat_map queue fst), enumerate_fst.
      destruct queue; reflexivity.
    - intros [i val] s1 Hin. apply enumerate_lookup in Hin. destruct Hin as [Hi Hv].
      assert (Hlen : len moved <= len normalDirs).
      { unfold moved, len. rewrite length_take. unfold len in HnVtx. lia. }
      destruct (lookup_lt_is_Some_2 normalDirs (Z.to_nat i)) as [d Hd];
        [unfold len in *; lia|].
      rewrite (H_bind_Ok _ _ _ _ _ (put_run _ _ _)).
      rewrite (H_bind_Ok _ _ _ _ _ (tell_run _ _)).
      assert (Hidx : forall s2 : session F, index normalDirs i s2 = (s2, Ok d)).
      { intros s2. unfold index. f_equal.
        replace i with (Z.of_nat (Z.to_nat i)) by lia.
        now apply list_getitem_lookup. }
      rewrite (H_bind_Ok _ _ _ _ _ (Hidx _)).
      rewrite (H_bind_Ok _ _ _ _ _ (ask_run (soft_selection host) _ sel (Hsel _))).
      rewrite (H_bind_Ok _ _ _ _ _ (tell_run _ _)).
      unfold normal_move. cbn [fst snd]. rewrite Hd. cbn [default].
      destruct refresh.
      + rewrite tell_run. rewrite !after_after. cbn [app].
        rewrite ?app_nil_r. reflexivity.
      + unfold mret, H_ret. rewrite !after_after. cbn [app].
        rewrite ?app_nil_r. reflexivity. }
  rewrite (H_bind_Ok _ _ _ _ _ Hloop). reflexivity.
Qed.

Lemma move_vtx_positions_normal_witness :
  let moved := take (Z.to_nat 2) (if false then rev [1; 2]%Q else [1; 2]%Q) in
  move_vtx_positions plane_host [1; 2]%Q "plane" "n" false false true (Some 0%nat)
    (session_1_m5 (Some 0%nat))
  = (after (session_1_m5 (Some 0%nat))
       (puts (Some 0%nat) (MTuple "Moving Terrain in Normal direction" 2
                           :: map MInt (xrange (len moved))))
       (flat_map (normal_move "plane" [[0; 1; 0]; [0; 1; 0]]%Q
                    (length ["plane.vtx[0]"]) true)
                 (enumerate moved)),
     Ok tt).
Proof.
  apply (move_vtx_positions_normal plane_host [1; 2]%Q "plane" false true (Some 0%nat)
           (session_1_m5 (Some 0%nat)) 2 [[0; 1; 0]; [0; 1; 0]]%Q ["plane.vtx[0]"]);
    try reflexivity.
  split; vm_compute; discriminate.
Defined.

(** ** [music_displace] and the reader *)

Lemma heights_length {F} `{PyFloat F} (v : F) l : length (heights v l) = length l.
Proof. unfold heights. apply length_map. Qed.

Lemma music_displace_run (host : maya Q) (terrainHeight : Q) pObject vtxDire
    (sSelect : bool) sSelectCurve sSelectMode sSelectRadius (dips reverse refresh : bool)
    qu (s : session Q) nVtx :
  opened (self (song_world s)) ->
  Z.even (_framesize (wave (self (song_world s)))) = true ->
  (forall log, polyEvaluate host log pObject = Ok nVtx) ->
  (forall log, objExists host log pObject = true) ->
  (forall log, poly_check host log pObject = true) ->
  1 <= nVtx <= _nframes (wave (self (song_world s))) ->
  maximum (spec_rawAveragedValues (wave (self (song_world s))) nVtx dips) <> 0 ->
  valid_axis vtxDire = true -> str_in "n" vtxDire = false -> vtxDire <> "" ->
  let w := wave (self (song_world s)) in
  let hs := heights terrainHeight (spec_rawAveragedValues w nVtx dips) in
  music_displace host terrainHeight pObject vtxDire sSelect sSelectCurve sSelectMode
    sSelectRadius dips false reverse refresh qu s
  = (mkSession
       (log (after_pass (song_world s) nVtx (framesPerBucket w nVtx)
               (sampling (queue (self (song_world s))) nVtx
                  (framesPerBucket w nVtx) dips))
            (puts qu (stage_msgs ("Moving Terrain in " +:+ str_upper vtxDire +:+ " axis") nVtx
                         ++ [MStr "Complete"])))
       (maya_log s
        ++ soft_select_cmd sSelect sSelectCurve sSelectMode sSelectRadius
           :: flat_map (merged_move pObject vtxDire refresh)
                       (enumerate (if reverse then rev hs else hs))),
     Ok tt).
Proof.
  intros Hop Heven Hpe Hex Hpc Hn Hmax Hva Hnn Hne w hs.
  unfold music_displace.
  rewrite (H_bind_Ok _ _ _ _ _ (ask_run _ s nVtx (Hpe _))).
  set (s1 := after s [] [soft_select_cmd sSelect sSelectCurve sSelectMode sSelectRadius]).
  assert (Hsoft : (if sSelect
                   then match sSelectCurve with
                        | Some c => tell (cmds_softSelect 1 (Some c) (Some sSelectMode)
                                            (Some sSelectRadius))
                        | None => tell (cmds_softSelect 1 (Some SSELECT_CURVES_0)
                                          (Some sSelectMode) (Some sSelectRadius))
                        end
                   else tell (cmds_softSelect 0 None None None)) s = (s1, Ok tt)).
  { unfold s1, soft_select_cmd. destruct sSelect; [destruct sSelectCurve|];
      apply tell_run. }
  rewrite (H_bind_Ok _ _ _ _ _ Hsoft).
  pose proof (createheightvals_Q nVtx terrainHeight dips (song_world s) Hop Heven Hn)
    as Hrun.
  cbv zeta in Hrun. apply Z.eqb_neq in Hmax. rewrite Hmax in Hrun.
  assert (Hlift : lift (createheightvals nVtx terrainHeight dips) s1
                  = (mkSession
                       (after_pass (song_world s) nVtx (framesPerBucket w nVtx)
                          (sampling (queue (self (song_world s))) nVtx
                             (framesPerBucket w nVtx) dips))
                       (maya_log s1), Ok hs)).
  { unfold lift, s1, after. cbn [song_world maya_log].
    rewrite log_nil, Hrun. reflexivity. }
  rewrite (H_bind_Ok _ _ _ _ _ Hlift).
  match goal with |- (_ ≫= _) ?s2 = _ =>
    pose proof (move_vtx_positions_merged_run host hs pObject vtxDire reverse refresh
                  qu s2 nVtx (Hpe _) (Hex _) (Hpc _) Hva Hnn Hne ltac:(lia)) as Hmove
  end.
  cbv zeta in Hmove.
  assert (Htake : take (Z.to_nat nVtx) (if reverse then rev hs else hs)
                  = if reverse then rev hs else hs).
  { apply take_ge.
    assert (Hlen : length hs = Z.to_nat nVtx).
    { unfold hs. rewrite heights_length.
      pose proof (spec_rawAveragedValues_len w nVtx dips ltac:(lia)) as Hl.
      unfold len in Hl. lia. }
    destruct reverse; rewrite ?length_rev; lia. }
  rewrite Htake in Hmove.
  assert (Hlen : len (if reverse then rev hs else hs) = nVtx).
  { unfold len, hs. destruct reverse; rewrite ?length_rev, heights_length;
      apply (spec_rawAveragedValues_len w nVtx dips); lia. }
  rewrite Hlen in Hmove.
  rewrite (H_bind_Ok _ _ _ _ _ Hmove).
  rewrite put_run. unfold after, s1. cbn [song_world maya_log after].
  rewrite log_log, app_nil_r, <- app_assoc. cbn [app].
  do 3 f_equal. unfold stage_msgs.
  destruct qu; cbn [puts app map]; rewrite ?map_app; reflexivity.
Qed.

Lemma stage_msgs_pass label n : Forall (pass_msg n) (stage_msgs label n).
Proof.
  unfold stage_msgs. constructor; [reflexivity|].
  apply Forall_forall. intros m Hm. apply list_elem_of_fmap in Hm.
  destruct Hm as (i & -> & Hi). unfold xrange in Hi. apply elem_of_seqZ in Hi.
  simpl. lia.
Qed.

Lemma progress_pass n negative : Forall (pass_msg n) (progress n negative).
Proof.
  unfold progress. repeat (apply Forall_app; split); try apply stage_msgs_pass.
  destruct negative; [constructor | apply stage_msgs_pass].
Qed.

(** X25. [music_displace] end to end, in exact arithmetic, for a merged
    move along x, y, z on a song that can be sampled: the queue receives
    the stages of the sampling pass, then the stage of the move, then
    ['Complete']; the host receives the soft-select command and then,
    for each vertex in order, its selection and its move by the height
    of its bucket. *)
Theorem music_displace_complete (host : maya Q) (terrainHeight : Q) pObject vtxDire
    (sSelect : bool) sSelectCurve sSelectMode sSelectRadius (dips reverse refresh : bool)
    q (s : session Q) nVtx :
  opened (self (song_world s)) ->
  Z.even (_framesize (wave (self (song_world s)))) = true ->
  queue (self (song_world s)) = Some q ->
  (forall log, polyEvaluate host log pObject = Ok nVtx) ->
  (forall log, objExists host log pObject = true) ->
  (forall log, poly_check host log pObject = true) ->
  1 <= nVtx <= _nframes (wave (self (song_world s))) ->
  maximum (spec_rawAveragedValues (wave (self (song_world s))) nVtx dips) <> 0 ->
  valid_axis vtxDire = true -> str_in "n" vtxDire = false -> vtxDire <> "" ->
  let hs := heights terrainHeight
              (spec_rawAveragedValues (wave (self (song_world s))) nVtx dips) in
  exists s',
    music_displace host terrainHeight pObject vtxDire sSelect sSelectCurve sSelectMode
      sSelectRadius dips false reverse refresh (Some q) s
    = (s', Ok tt) /\
    queue_contents q (trace (song_world s'))
    = queue_contents q (trace (song_world s))
      ++ progress nVtx dips
      ++ stage_msgs ("Moving Terrain in " +:+ str_upper vtxDire +:+ " axis") nVtx
      ++ [MStr "Complete"] /\
    maya_log s'
    = maya_log s
      ++ soft_select_cmd sSelect sSelectCurve sSelectMode sSelectRadius
         :: flat_map (fun iv =>
                        [cmds_select (vtx pObject iv.1);
                         cmds_move (replicate (String.length vtxDire) iv.2)
                                   ("move" +:+ str_upper vtxDire)]
                        ++ (if refresh then [cmds_refresh] else []))
                     (enumerate (if reverse then rev hs else hs)).
Proof.
  intros Hop Heven Hq Hpe Hex Hpc Hn Hmax Hva Hnn Hne hs.
  rewrite (music_displace_run host terrainHeight pObject vtxDire sSelect sSelectCurve
             sSelectMode sSelectRadius dips reverse refresh (Some q) s nVtx
             Hop Heven Hpe Hex Hpc Hn Hmax Hva Hnn Hne).
  eexists. split; [reflexivity|]. split; [|reflexivity].
  cbn [song_world log trace after_pass].
  rewrite Hq. rewrite !queue_contents_app, queue_contents_sampling, queue_contents_puts.
  now rewrite <- !app_assoc.
Qed.

Lemma music_displace_complete_witness :
  let hs := heights (3 # 1)
              (spec_rawAveragedValues
                 (wave (self (song_world (session_1_m5 (Some 0%nat))))) 2 false) in
  exists s',
    music_displace plane_host (3 # 1) "plane" "y" false None 0 (5 # 1)
      false false false true (Some 0%nat) (session_1_m5 (Some 0%nat))
    = (s', Ok tt) /\
    queue_contents 0%nat (trace (song_world s'))
    = queue_contents 0%nat (trace (song_world (session_1_m5 (Some 0%nat))))
      ++ progress 2 false
      ++ stage_msgs ("Moving Terrain in " +:+ str_upper "y" +:+ " axis") 2
      ++ [MStr "Complete"] /\
    maya_log s'
    = maya_log (session_1_m5 (Some 0%nat))
      ++ soft_select_cmd false None 0 (5 # 1)
         :: flat_map (fun iv =>
                        [cmds_select (vtx "plane" iv.1);
                         cmds_move (replicate (String.length "y") iv.2)
                                   ("move" +:+ str_upper "y")]
                        ++ (if true then [cmds_refresh] else []))
                     (enumerate (if false then rev hs else hs)).
Proof.
  apply (music_displace_complete plane_host (3 # 1) "plane" "y" false None 0 (5 # 1)
           false false true 0%nat (session_1_m5 (Some 0%nat)) 2);
    try reflexivity; try discriminate;
    [opened_by_computation | split; vm_compute; discriminate].
Defined.

(** X26. After such a call of [music_displace], the reader of the GUI,
    from any state, processes the messages of the queue without an
    exception and ends with [complete] set. *)
Theorem generate_terrain_completes (int_of_str : string -> result Z)
    (host : maya Q) (terrainHeight : Q) pObject vtxDire
    (sSelect : bool) sSelectCurve sSelectMode sSelectRadius (dips reverse refresh : bool)
    q (s : session Q) nVtx (st : progress_window Q) :
  opened (self (song_world s)) ->
  Z.even (_framesize (wave (self (song_world s)))) = true ->
  queue (self (song_world s)) = Some q ->
  (forall log, polyEvaluate host log pObject = Ok nVtx) ->
  (forall log, objExists host log pObject = true) ->
  (forall log, poly_check host log pObject = true) ->
  1 <= nVtx <= _nframes (wave (self (song_world s))) ->
  maximum (spec_rawAveragedValues (wave (self (song_world s))) nVtx dips) <> 0 ->
  valid_axis vtxDire = true -> str_in "n" vtxDire = false -> vtxDire <> "" ->
  exists s' ms st',
    music_displace host terrainHeight pObject vtxDire sSelect sSelectCurve sSelectMode
      sSelectRadius dips false reverse refresh (Some q) s
    = (s', Ok tt) /\
    queue_contents q (trace (song_world s'))
    = queue_contents q (trace (song_world s)) ++ ms /\
    generate_terrain_drain int_of_str st ms = Done st' /\
    complete st' = true.
Proof.
  intros Hop Heven Hq Hpe Hex Hpc Hn Hmax Hva Hnn Hne.
  rewrite (music_displace_run host terrainHeight pObject vtxDire sSelect sSelectCurve
             sSelectMode sSelectRadius dips reverse refresh (Some q) s nVtx
             Hop Heven Hpe Hex Hpc Hn Hmax Hva Hnn Hne).
  set (label := "Moving Terrain in " +:+ str_upper vtxDire +:+ " axis").
  destruct (drain_pass int_of_str nVtx (progress nVtx dips ++ stage_msgs label nVtx) st
              ltac:(lia)) as (st1 & E1 & Hc1).
  { apply Forall_app. split; [apply progress_pass | apply stage_msgs_pass]. }
  eexists _, ((progress nVtx dips ++ stage_msgs label nVtx) ++ [MStr "Complete"]), _.
  split; [reflexivity|]. split.
  - cbn [song_world log trace after_pass].
    rewrite Hq. rewrite !queue_contents_app, queue_contents_sampling, queue_contents_puts.
    now rewrite <- !app_assoc.
  - rewrite drain_app, E1. cbn [mbind outcome_bind generate_terrain_drain].
    unfold generate_terrain_get. cbn. split; reflexivity.
Qed.

Lemma generate_terrain_completes_witness :
  exists s' ms st',
    music_displace plane_host (3 # 1) "plane" "y" false None 0 (5 # 1)
      false false false true (Some 0%nat) (session_1_m5 (Some 0%nat))
    = (s', Ok tt) /\
    queue_contents 0%nat (trace (song_world s'))
    = queue_contents 0%nat (trace (song_world (session_1_m5 (Some 0%nat)))) ++ ms /\
    generate_terrain_drain (fun _ => Raise (ValueError "invalid literal for int()"))
      (generate_terrain_start (F:=Q)) ms = Done st' /\
    complete st' = true.
Proof.
  apply (generate_terrain_completes
           (fun _ => Raise (ValueError "invalid literal for int()"))
           plane_host (3 # 1) "plane" "y" false None 0 (5 # 1)
           false false true 0%nat (session_1_m5 (Some 0%nat)) 2
           (generate_terrain_start (F:=Q)));
    try reflexivity; try discriminate;
    [opened_by_computation | split; vm_compute; discriminate].
Defined.

End SceneLemmas.

(** * Choosing the textures *)

Section TexTypesFacts.
Variable randint : nat -> Z -> Z -> Z.
Hypothesis randint_bounds : forall k a b, a <= b -> a <= randint k a b <= b.
Variable textures : list string.
Hypothesis textures_nodup : NoDup textures.
Hypothesis textures_nonempty : textures <> [].

Lemma tex_inv_start : tex_inv textures textures ∅ 0 0.
Proof.
  constructor.
  - lia.
  - lia.
  - exact textures_nodup.
  - auto.
  - intros img Hin. unfold times_used. rewrite lookup_empty.
    now rewrite decide_True by exact Hin.
  - intros img l H. now rewrite lookup_empty in H.
  - intros y img (l & H & _). now rewrite lookup_empty in H.
  - intros y Hy. lia.
  - intros y i1 i2 (l & H & _). now rewrite lookup_empty in H.
Qed.

Lemma tex_inv_refill d x r :
  tex_inv textures [] d x r -> tex_inv textures textures d x (r + 1).
Proof.
  intros [Hx Hr Hnd Hsub Hc Hk Hp Ha Hu]. constructor; try assumption.
  - change (len (@nil string)) with 0 in Hr. lia.
  - auto.
  - intros img Hin. rewrite (Hc img Hin).
    rewrite decide_False by (intros H; inversion H).
    rewrite decide_True by exact Hin. lia.
Qed.

Lemma list_pop_run {A} (l : list A) (i : nat) a :
  l !! i = Some a -> list_pop l (Z.of_nat i) = Ok (a, delete i l).
Proof.
  intros Hl. unfold list_pop, len.
  pose proof (lookup_lt_Some _ _ _ Hl) as Hlt.
  assert (E1 : (Z.of_nat i <? 0) = false) by (apply Z.ltb_ge; lia).
  assert (E2 : (Z.of_nat (length l) <=? Z.of_nat i) = false) by (apply Z.leb_gt; lia).
  cbv zeta. rewrite !E1, E2. simpl. rewrite Nat2Z.id, Hl. reflexivity.
Qed.

Lemma placed_insert d image old x y img :
  default [] (d !! image) = old ->
  placed (<[image := old ++ [x]]> d) y img <->
  placed d y img \/ (img = image /\ y = x).
Proof.
  intros Hold. unfold placed. split.
  - intros (l & Hl & Hy). destruct (decide (img = image)) as [->|Hne].
    + rewrite lookup_insert_eq in Hl. injection Hl as <-.
      apply elem_of_app in Hy. destruct Hy as [Hy|Hy].
      * left. destruct (d !! image) as [l0|] eqn:E; simpl in Hold; subst old.
        -- now exists l0.
        -- inversion Hy.
      * right. apply list_elem_of_singleton in Hy. now split.
    + rewrite lookup_insert_ne in Hl by congruence. left. now exists l.
  - intros [(l & Hl & Hy)|[-> ->]].
    + destruct (decide (img = image)) as [->|Hne].
      * exists (old ++ [x]). rewrite lookup_insert_eq. split; [reflexivity|].
        apply elem_of_app. left. rewrite Hl in Hold. simpl in Hold. now subst old.
      * exists l. now rewrite lookup_insert_ne by congruence.
    + exists (old ++ [x]). rewrite lookup_insert_eq. split; [reflexivity|].
      apply elem_of_app. right. now left.
Qed.

(** One position: an image of the round is taken out and given [x]. *)
Lemma tex_inv_step tmpTexs d x r i image :
  tex_inv textures tmpTexs d x r ->
  tmpTexs !! i = Some image ->
  tex_inv textures (delete i tmpTexs)
    (<[image := default [] (d !! image) ++ [x]]> d) (x + 1) r.
Proof.
  intros [Hx Hr Hnd Hsub Hc Hk Hp Ha Hu] Hi.
  pose proof (delete_Permutation _ _ _ Hi) as Hperm.
  assert (Hnd' : NoDup (image :: delete i tmpTexs)) by now rewrite <- Hperm.
  apply NoDup_cons in Hnd'. destruct Hnd' as [Hnotin Hnd2].
  assert (Hmem : forall img, img ∈ tmpTexs <-> img = image \/ img ∈ delete i tmpTexs).
  { intros img. pose proof (elem_of_Permutation_proper img _ _ Hperm) as Hiff.
    rewrite elem_of_cons in Hiff. exact Hiff. }
  assert (Himage : image ∈ textures).
  { apply Hsub. apply Hmem. now left. }
  constructor.
  - lia.
  - pose proof (lookup_lt_Some _ _ _ Hi) as Hlt.
    unfold len in *. rewrite length_delete by (now exists image). lia.
  - exact Hnd2.
  - intros img Hin. apply Hsub. apply Hmem. now right.
  - intros img Hin. unfold times_used in *.
    destruct (decide (img = image)) as [->|Hne].
    + rewrite lookup_insert_eq. cbn [from_option id]. rewrite len_app.
      rewrite (Hc image Himage).
      rewrite decide_True by (apply Hmem; now left).
      rewrite decide_False by exact Hnotin. unfold len. simpl. lia.
    + rewrite lookup_insert_ne by congruence. rewrite (Hc img Hin).
      destruct (decide (img ∈ tmpTexs)) as [H1|H1];
        destruct (decide (img ∈ delete i tmpTexs)) as [H2|H2]; try reflexivity.
      * apply Hmem in H1. destruct H1; [contradiction | contradiction].
      * exfalso. apply H1. apply Hmem. now right.
  - intros img l Hl. destruct (decide (img = image)) as [->|Hne]; [exact Himage|].
    rewrite lookup_insert_ne in Hl by congruence. now apply (Hk img l).
  - intros y img Hpl. apply (placed_insert d image _ x y img eq_refl) in Hpl.
    destruct Hpl as [Hpl|[_ ->]]; [|lia]. pose proof (Hp y img Hpl). lia.
  - intros y Hy. destruct (Z.eq_dec y x) as [->|Hne].
    + exists image. apply (placed_insert d image _ x x image eq_refl). now right.
    + destruct (Ha y ltac:(lia)) as [img Hpl]. exists img.
      apply (placed_insert d image _ x y img eq_refl). now left.
  - intros y i1 i2 H1 H2.
    apply (placed_insert d image _ x y i1 eq_refl) in H1.
    apply (placed_insert d image _ x y i2 eq_refl) in H2.
    destruct H1 as [H1|[-> ->]]; destruct H2 as [H2|[-> E2]].
    + now apply (Hu y).
    + subst y. pose proof (Hp x i1 H1). lia.
    + pose proof (Hp x i2 H2). lia.
    + reflexivity.
Qed.

Lemma tex_types_loop_inv (m : nat) : forall x tmpTexs d k r,
  tex_inv textures tmpTexs d x r ->
  exists d' tmp' r',
    tex_types_loop randint textures tmpTexs d k (seqZ x (Z.of_nat m)) = Ok d' /\
    tex_inv textures tmp' d' (x + Z.of_nat m) r' /\
    (m = 0%nat /\ tmp' = tmpTexs \/ len tmp' < len textures).
Proof.
  induction m as [|m IH]; intros x tmpTexs d k r Hinv.
  - exists d, tmpTexs, r. split; [reflexivity|].
    split; [now rewrite Z.add_0_r | now left].
  - rewrite seqZ_cons by lia. cbn [tex_types_loop].
    set (tmp1 := if decide (tmpTexs = []) then textures else tmpTexs).
    assert (Hinv1 : exists r1, tex_inv textures tmp1 d x r1).
    { unfold tmp1. destruct (decide (tmpTexs = [])) as [->|_].
      - exists (r + 1). now apply tex_inv_refill.
      - now exists r. }
    destruct Hinv1 as [r1 Hinv1].
    assert (Hne : tmp1 <> []).
    { unfold tmp1. destruct (decide (tmpTexs = [])); assumption. }
    assert (Hlen : 1 <= len tmp1).
    { unfold len. destruct tmp1; [contradiction | simpl; lia]. }
    unfold rand_randint. rewrite (proj2 (Z.ltb_ge (len tmp1 - 1) 0)) by lia.
    cbn [mbind result_bind].
    pose proof (randint_bounds k 0 (len tmp1 - 1) ltac:(lia)) as Hb.
    set (i := randint k 0 (len tmp1 - 1)) in *.
    destruct (lookup_lt_is_Some_2 tmp1 (Z.to_nat i)) as [image Himg];
      [unfold len in *; lia|].
    replace i with (Z.of_nat (Z.to_nat i)) by lia.
    rewrite (list_pop_run tmp1 (Z.to_nat i) image Himg). cbn [mbind result_bind fst snd].
    pose proof (tex_inv_step tmp1 d x r1 (Z.to_nat i) image Hinv1 Himg) as Hinv2.
    replace (Z.pred (Z.of_nat (S m))) with (Z.of_nat m) by lia.
    assert (Hd : match d !! image with
                 | Some l => <[image := l ++ [x]]> d
                 | None => <[image := [x]]> d
                 end = <[image := default [] (d !! image) ++ [x]]> d).
    { destruct (d !! image); reflexivity. }
    rewrite Hd.
    destruct (IH (Z.succ x) (delete (Z.to_nat i) tmp1)
                (<[image := default [] (d !! image) ++ [x]]> d) (S k) r1)
      as (d' & tmp' & r' & E & Hinv' & Hlast).
    { now replace (Z.succ x) with (x + 1) by lia. }
    exists d', tmp', r'. split; [exact E|]. split.
    { now replace (x + Z.of_nat (S m)) with (Z.succ x + Z.of_nat m) by lia. }
    right. destruct Hlast as [[_ ->]|Hlast]; [|exact Hlast].
    pose proof (lookup_lt_Some _ _ _ Himg) as Hlt.
    assert (Hle : (length tmp1 <= length textures)%nat).
    { apply submseteq_length.
      apply NoDup_submseteq; [apply Hinv1 | apply Hinv1]. }
    unfold len. rewrite length_delete by (now exists image). lia.
Qed.

End TexTypesFacts.

(** X27. [tex_types] on a directory with files, whatever the generator
    draws within its bounds: it returns a dictionary in which every
    position [0 .. nOfTexs - 1] is given to exactly one image, every
    image is one of the files listed, no image is used two times more
    than another, and no image is used twice unless more textures are
    asked for than there are files; the warning is printed exactly in
    that case. *)
Theorem tex_types_balanced TEX_DIRECTORY (os : os_host) (randint : nat -> Z -> Z -> Z)
    texType nOfTexs randTexs textures :
  (forall k a b, a <= b -> a <= randint k a b <= b) ->
  os_path_exists os (os_path_join os TEX_DIRECTORY texType) = true ->
  texture_files TEX_DIRECTORY os texType randTexs = Ok textures ->
  NoDup textures -> textures <> [] ->
  exists out d,
    tex_types TEX_DIRECTORY os randint texType nOfTexs randTexs = (out, Ok (inr d)) /\
    (out <> [] <-> len textures < nOfTexs) /\
    (forall x, 0 <= x < nOfTexs ->
       exists image, placed d x image /\ forall image', placed d x image' -> image' = image) /\
    (forall image l, d !! image = Some l ->
       image ∈ textures /\ forall x, x ∈ l -> 0 <= x < nOfTexs) /\
    (forall i1 i2, i1 ∈ textures -> i2 ∈ textures ->
       times_used d i1 - times_used d i2 <= 1) /\
    (nOfTexs <= len textures -> forall image, times_used d image <= 1).
Proof.
  intros Hrand Hex Hfiles Hnd Hne.
  destruct (tex_types_loop_inv randint Hrand textures Hnd Hne (Z.to_nat nOfTexs)
              0 textures ∅ 0%nat 0 (tex_inv_start textures Hnd))
    as (d & tmp' & r' & E & [Hx Hr Hnd' Hsub Hc Hk Hp Ha Hu] & Hlast).
  assert (Hxr : xrange nOfTexs = seqZ 0 (Z.of_nat (Z.to_nat nOfTexs))).
  { unfold xrange. destruct (Z.le_gt_cases 0 nOfTexs).
    - now rewrite Z2Nat.id.
    - rewrite seqZ_nil by lia. rewrite seqZ_nil by lia. reflexivity. }
  unfold tex_types. cbv zeta. rewrite Hex. cbn [negb]. rewrite Hfiles, Hxr, E.
  eexists _, d. split; [reflexivity|]. split.
  { destruct (Z.ltb_spec (len textures) nOfTexs); split; intros; try lia;
      try discriminate; contradiction. }
  split.
  { intros x Hxn. destruct (Ha x ltac:(lia)) as [image Hpl].
    exists image. split; [exact Hpl|]. intros image' Hpl'. now apply (Hu x). }
  split.
  { intros image l Hl. split; [now apply (Hk image l)|].
    intros x Hin. pose proof (Hp x image (ex_intro _ l (conj Hl Hin))). lia. }
  split.
  { intros i1 i2 H1 H2. rewrite (Hc i1 H1), (Hc i2 H2).
    destruct (decide (i1 ∈ tmp')), (decide (i2 ∈ tmp')); lia. }
  intros Hfew image.
  destruct (d !! image) as [l|] eqn:Hl.
  2:{ unfold times_used. rewrite Hl. cbn. unfold len. simpl. lia. }
  pose proof (Hk image l Hl) as Hin. rewrite (Hc image Hin).
  assert (Hk1 : 1 <= len textures).
  { unfold len. destruct textures; [contradiction | simpl; lia]. }
  assert (Hr0 : r' <= 0).
  { destruct Hlast as [[Hm ->]|Hlast].
    - assert (r' * len textures = 0) by lia. nia.
    - assert (0 <= len tmp') by (unfold len; lia). nia. }
  destruct (decide (image ∈ tmp')); lia.
Qed.

Lemma tex_types_balanced_witness :
  exists out d,
    tex_types "textures" two_files (fun _ a _ => a) ["cliff"; "arid"] 3 false
    = (out, Ok (inr d)) /\
    (out <> [] <-> len ["textures/cliff/arid/a.png"; "textures/cliff/arid/b.png"] < 3) /\
    (forall x, 0 <= x < 3 ->
       exists image, placed d x image /\ forall image', placed d x image' -> image' = image) /\
    (forall image l, d !! image = Some l ->
       image ∈ ["textures/cliff/arid/a.png"; "textures/cliff/arid/b.png"] /\
       forall x, x ∈ l -> 0 <= x < 3) /\
    (forall i1 i2,
       i1 ∈ ["textures/cliff/arid/a.png"; "textures/cliff/arid/b.png"] ->
       i2 ∈ ["textures/cliff/arid/a.png"; "textures/cliff/arid/b.png"] ->
       times_used d i1 - times_used d i2 <= 1) /\
    (3 <= len ["textures/cliff/arid/a.png"; "textures/cliff/arid/b.png"] ->
     forall image, times_used d image <= 1).
Proof.
  apply (tex_types_balanced "textures" two_files (fun _ a _ => a) ["cliff"; "arid"] 3
           false ["textures/cliff/arid/a.png"; "textures/cliff/arid/b.png"]).
  - intros k a b Hab. lia.
  - reflexivity.
  - reflexivity.
  - apply NoDup_cons. split; [|apply NoDup_singleton].
    intros Hin. apply list_elem_of_singleton in Hin. discriminate.
  - discriminate.
Defined.

(** X28. The two failures of [tex_types]: when the path does not exist it
    returns (it does not raise) a [ValueError]; when the path exists but
    no file is listed and at least one texture is asked for, it prints
    the warning and raises the [ValueError] of [rand.randint(0, -1)]. *)
Theorem tex_types_fails TEX_DIRECTORY (os : os_host) (randint : nat -> Z -> Z -> Z)
    texType nOfTexs randTexs :
  os_path_exists os (os_path_join os TEX_DIRECTORY texType) = false \/
  (texture_files TEX_DIRECTORY os texType randTexs = Ok [] /\ 1 <= nOfTexs) ->
  tex_types TEX_DIRECTORY os randint texType nOfTexs randTexs
  = if os_path_exists os (os_path_join os TEX_DIRECTORY texType)
    then ([repeat_warning],
          Raise (ValueError "empty range for randrange() (0,0, 0)"))
    else ([], Ok (inl (ValueError (os_path_join os TEX_DIRECTORY texType
                                   +:+ " path doesn't exist")))).
Proof.
  intros Hcase. unfold tex_types. cbv zeta.
  destruct (os_path_exists os (os_path_join os TEX_DIRECTORY texType)) eqn:Hex;
    cbn [negb]; [|reflexivity].
  destruct Hcase as [Hc|[Hfiles Hn]]; [discriminate|].
  rewrite Hfiles. change (len (@nil string)) with 0.
  rewrite (proj2 (Z.ltb_lt 0 nOfTexs)) by lia. f_equal.
  unfold xrange. rewrite seqZ_cons by lia. reflexivity.
Qed.

Lemma tex_types_fails_witness :
  tex_types "textures"
    (mkOs (fun a _ => a) (fun _ => true) (fun _ => []) (fun p => p)
          (fun _ => []) (fun _ => true))
    (fun _ a _ => a) ["cliff"; "arid"] 2 false
  = ([repeat_warning], Raise (ValueError "empty range for randrange() (0,0, 0)")).
Proof.
  apply (tex_types_fails "textures"
           (mkOs (fun a _ => a) (fun _ => true) (fun _ => []) (fun p => p)
                 (fun _ => []) (fun _ => true))
           (fun _ a _ => a) ["cliff"; "arid"] 2 false).
  right. split; [reflexivity | lia].
Defined.
